(** * Kusto notebooks extension: connection identity, kernel lifecycle,
      query execution and chart inference

    A shallow embedding of
    - [src/extension/kusto/connections/types.ts]
        ([encodeConnectionInfo], [decodeConnectionInfo], the base64 helpers),
    - the kernel module ([registerController], the connection-changed
        handler, [KernelPerConnection.executeCell]),
    - the chart renderer ([getChartType], the time-chart branch of
        [renderChart], [generateSunburstChart]).

    Around them: [getDisplayInfo], [connectionInfofrom],
    [KernelProvider.register], the pie, series and bar branches of
    [renderChart], [hasDataTable] and [getTabularData].

    JavaScript values are modelled by [JsVal]; strings are byte strings
    (a JavaScript string stands for its UTF-8 encoding, which is what
    [Buffer.from(value)] hands to base64 anyway). *)

From Stdlib Require Import List String Ascii Bool Arith ZArith NArith Lia.
From Stdlib Require Import Permutation Sorted DecimalString.
Import ListNotations.

Local Open Scope list_scope.
Local Open Scope string_scope.

(* ================================================================== *)
(** * Part I. JavaScript values                                        *)
(* ================================================================== *)

(** Numbers are the integers plus [NaN]: every number the modelled code
    computes with (HTTP statuses, row counts, weights, epoch offsets) is
    integral.  An object keeps its own enumerable properties in
    enumeration order (insertion order for the non-index keys used
    here). *)
Set Warnings "-register-all".

Inductive JsVal : Type :=
| JUndefined
| JNull
| JBool (b : bool)
| JNum (n : Z)
| JNaN
| JStr (s : string)
| JArr (xs : list JsVal)
| JObj (props : list (string * JsVal)).

(** Errors a modelled operation can throw.  [OutsideModel] marks the
    inputs whose JavaScript behaviour this development does not cover. *)
Inductive JsError : Type := SyntaxError | TypeError | OutsideModel.

Inductive result (A : Type) : Type :=
| Ok (a : A)
| Throw (e : JsError).
Arguments Ok {A} a.
Arguments Throw {A} e.

Definition bind {A B : Type} (r : result A) (k : A -> result B) : result B :=
  match r with
  | Ok a => k a
  | Throw e => Throw e
  end.

Notation "'do' x <- r ; k" := (bind r (fun x => k))
  (at level 10, x name, r at level 100, k at level 200).
Notation "'do' ( x , y ) <- r ; k" := (bind r (fun xy => let (x, y) := xy in k))
  (at level 10, x name, y name, r at level 100, k at level 200).

Definition dquote : ascii := "034"%char.
Definition backslash : ascii := "\"%char.

(** [s] with every apostrophe turned into a double quote: lets JSON
    texts be written legibly. *)
Fixpoint dq (s : string) : string :=
  match s with
  | EmptyString => EmptyString
  | String c r => String (if Ascii.eqb c "'"%char then dquote else c) (dq r)
  end.

(** ** Truthiness, [typeof], [ToString] *)

Definition truthy (v : JsVal) : bool :=
  match v with
  | JUndefined | JNull | JNaN => false
  | JBool b => b
  | JNum n => negb (Z.eqb n 0)
  | JStr s => negb (String.eqb s "")
  | JArr _ | JObj _ => true
  end.

(** [a || b] *)
Definition js_or (a b : JsVal) : JsVal := if truthy a then a else b.

Definition typeof_object (v : JsVal) : bool :=
  match v with
  | JNull | JArr _ | JObj _ => true
  | _ => false
  end.

Definition typeof_string (v : JsVal) : bool :=
  match v with
  | JStr _ => true
  | _ => false
  end.

Definition string_of_Z (n : Z) : string := NilZero.string_of_int (Z.to_int n).

Fixpoint join (sep : string) (l : list string) : string :=
  match l with
  | [] => ""
  | [x] => x
  | x :: r => x ++ sep ++ join sep r
  end.

(** The abstract operation [ToString]; an array joins its elements with
    commas, [null] and [undefined] elements giving the empty string. *)
Fixpoint ToString (v : JsVal) : string :=
  match v with
  | JUndefined => "undefined"
  | JNull => "null"
  | JBool true => "true"
  | JBool false => "false"
  | JNum n => string_of_Z n
  | JNaN => "NaN"
  | JStr s => s
  | JArr xs =>
      join "," (map (fun x => match x with
                              | JUndefined | JNull => ""
                              | _ => ToString x
                              end) xs)
  | JObj _ => "[object Object]"
  end.

(** [v.toString()]: a method call, so it throws on [null] and
    [undefined]. *)
Definition method_toString (v : JsVal) : result string :=
  match v with
  | JUndefined | JNull => Throw TypeError
  | _ => Ok (ToString v)
  end.

(** ** Property access *)

Fixpoint assoc {A : Type} (k : string) (l : list (string * A)) : option A :=
  match l with
  | [] => None
  | (k', v) :: r => if String.eqb k k' then Some v else assoc k r
  end.

(** [v[k]] / [v.k] on a value that is neither [null] nor [undefined];
    only own data properties of plain objects are modelled, so a
    primitive or an array answers [undefined] for the named keys used
    here. *)
Definition get (v : JsVal) (k : string) : JsVal :=
  match v with
  | JObj ps => match assoc k ps with Some x => x | None => JUndefined end
  | _ => JUndefined
  end.

(** [k in v] for an object [v]. *)
Definition has_property (k : string) (v : JsVal) : bool :=
  match v with
  | JObj ps => match assoc k ps with Some _ => true | None => false end
  | _ => false
  end.

(** [v?.k] *)
Definition opt_get (v : JsVal) (k : string) : JsVal :=
  match v with
  | JUndefined | JNull => JUndefined
  | _ => get v k
  end.

(** [row[i]] on an array of cells. *)
Definition cell (row : list JsVal) (i : nat) : JsVal := nth i row JUndefined.

(** [a === b] against a string literal. *)
Definition strict_eq_str (v : JsVal) (s : string) : bool :=
  match v with
  | JStr t => String.eqb t s
  | _ => false
  end.

(** [hay.includes(needle)] *)
Fixpoint includes (hay needle : string) : bool :=
  if String.prefix needle hay then true
  else match hay with
       | EmptyString => false
       | String _ r => includes r needle
       end.

(** ** Numeric coercion *)

Definition is_digit (c : ascii) : bool :=
  let n := N_of_ascii c in (N.leb 48 n && N.leb n 57)%bool.

Fixpoint digits_value (s : string) (acc : Z) : option Z :=
  match s with
  | EmptyString => Some acc
  | String c r =>
      if is_digit c
      then digits_value r (10 * acc + Z.of_N (N_of_ascii c) - 48)%Z
      else None
  end.

(** [StringToNumber]; [None] is [NaN].  The fragment covers the empty
    string and optionally signed decimal integer literals; any other
    text converts to [NaN] here (white space, fractions, exponents and
    radix prefixes are not modelled). *)
Definition StringToNumber (s : string) : option Z :=
  match s with
  | EmptyString => Some 0%Z
  | String c r =>
      if Ascii.eqb c "-"%char
      then match r with
           | EmptyString => None
           | _ => option_map Z.opp (digits_value r 0)
           end
      else if Ascii.eqb c "+"%char
      then match r with
           | EmptyString => None
           | _ => digits_value r 0
           end
      else digits_value s 0
  end.

(** [ToNumber]; an array or an object converts through its string. *)
Definition ToNumber (v : JsVal) : option Z :=
  match v with
  | JUndefined | JNaN => None
  | JNull => Some 0%Z
  | JBool b => Some (if b then 1 else 0)%Z
  | JNum n => Some n
  | JStr s => StringToNumber s
  | JArr _ | JObj _ => StringToNumber (ToString v)
  end.

(** [a - b] as a sort comparator reads it: [None] is [NaN]. *)
Definition js_sub (a b : JsVal) : option Z :=
  match ToNumber a, ToNumber b with
  | Some x, Some y => Some (x - y)%Z
  | _, _ => None
  end.

(** [a + b]: concatenation as soon as one side is a string (or an
    object, which converts to one), numeric addition otherwise. *)
Definition js_add (a b : JsVal) : JsVal :=
  match a, b with
  | (JStr _ | JArr _ | JObj _), _ | _, (JStr _ | JArr _ | JObj _) =>
      JStr (ToString a ++ ToString b)
  | _, _ =>
      match ToNumber a, ToNumber b with
      | Some x, Some y => JNum (x + y)
      | _, _ => JNaN
      end
  end.

(** [v >= k] for a numeric literal [k]. *)
Definition js_ge (v : JsVal) (k : Z) : bool :=
  match ToNumber v with
  | Some n => Z.leb k n
  | None => false
  end.

(** [v === k] for a numeric literal [k]. *)
Definition strict_eq_num (v : JsVal) (k : Z) : bool :=
  match v with
  | JNum n => Z.eqb n k
  | _ => false
  end.

(* ================================================================== *)
(** * Part II. JSON text                                               *)
(* ================================================================== *)

(** ** [JSON.stringify(value, replacerArray)] *)

Definition hex_char (n : N) : ascii :=
  if N.ltb n 10 then ascii_of_N (48 + n) else ascii_of_N (87 + n).

(** The escape of one character inside a JSON string literal
    ([QuoteJSONString]): the quote, the backslash and the control
    characters are escaped, everything else is copied. *)
Definition quote_char (c : ascii) : string :=
  let n := N_of_ascii c in
  if N.eqb n 34 then String backslash (String dquote "")
  else if N.eqb n 92 then String backslash (String backslash "")
  else if N.eqb n 8 then String backslash "b"
  else if N.eqb n 12 then String backslash "f"
  else if N.eqb n 10 then String backslash "n"
  else if N.eqb n 13 then String backslash "r"
  else if N.eqb n 9 then String backslash "t"
  else if N.ltb n 32
       then String backslash
              (String "u" (String "0" (String "0"
                 (String (hex_char (N.div n 16)) (String (hex_char (N.modulo n 16)) "")))))
  else String c "".

Fixpoint quote_body (s : string) : string :=
  match s with
  | EmptyString => EmptyString
  | String c r => quote_char c ++ quote_body r
  end.

Definition quote (s : string) : string :=
  String dquote (quote_body s ++ String dquote "").

(** [SerializeJSONProperty] with a property list [K] taken from an array
    replacer: an object emits exactly the keys of [K], in the order of
    [K], skipping those whose value serializes to [undefined]; the same
    list filters nested objects; array elements are kept, [undefined]
    ones printed as [null].  [None] is the result [undefined]. *)
Fixpoint stringify (K : list string) (v : JsVal) : option string :=
  match v with
  | JUndefined => None
  | JNull | JNaN => Some "null"
  | JBool true => Some "true"
  | JBool false => Some "false"
  | JNum n => Some (string_of_Z n)
  | JStr s => Some (quote s)
  | JArr xs =>
      Some ("[" ++ join "," (map (fun x => match stringify K x with
                                           | Some t => t
                                           | None => "null"
                                           end) xs) ++ "]")
  | JObj ps =>
      let printed := map (fun kv => (fst kv, stringify K (snd kv))) ps in
      Some ("{" ++ join ","
                    (flat_map (fun k => match assoc k printed with
                                        | Some (Some t) => [quote k ++ ":" ++ t]
                                        | _ => []
                                        end) K) ++ "}")
  end.

(** ** [JSON.parse] *)

Definition is_ws (c : ascii) : bool :=
  let n := N_of_ascii c in
  (N.eqb n 32 || N.eqb n 9 || N.eqb n 10 || N.eqb n 13)%bool.

Fixpoint skip_ws (s : string) : string :=
  match s with
  | String c r => if is_ws c then skip_ws r else s
  | EmptyString => s
  end.

Definition hex_value (c : ascii) : option N :=
  let n := N_of_ascii c in
  if (N.leb 48 n && N.leb n 57)%bool then Some (n - 48)%N
  else if (N.leb 97 n && N.leb n 102)%bool then Some (n - 87)%N
  else if (N.leb 65 n && N.leb n 70)%bool then Some (n - 55)%N
  else None.

(** The UTF-8 bytes of a code point of the basic plane.  The two halves
    of a surrogate pair have no encoding of their own: an escape of one
    is outside the model. *)
Definition utf8_of_code (n : N) : result string :=
  if N.ltb n 128 then Ok (String (ascii_of_N n) "")
  else if N.ltb n 2048
  then Ok (String (ascii_of_N (192 + N.div n 64))
             (String (ascii_of_N (128 + N.modulo n 64)) ""))
  else if (N.leb 55296 n && N.leb n 57343)%bool then Throw OutsideModel
  else Ok (String (ascii_of_N (224 + N.div n 4096))
             (String (ascii_of_N (128 + N.modulo (N.div n 64) 64))
                (String (ascii_of_N (128 + N.modulo n 64)) ""))).

Definition unicode_escape (a b c d : ascii) : result string :=
  match hex_value a, hex_value b, hex_value c, hex_value d with
  | Some x, Some y, Some z, Some w =>
      utf8_of_code (4096 * x + 256 * y + 16 * z + w)
  | _, _, _, _ => Throw SyntaxError
  end.

Definition simple_escape (e : ascii) : result ascii :=
  let n := N_of_ascii e in
  if N.eqb n 34 then Ok dquote
  else if N.eqb n 92 then Ok backslash
  else if N.eqb n 47 then Ok "/"%char
  else if N.eqb n 98 then Ok (ascii_of_N 8)
  else if N.eqb n 102 then Ok (ascii_of_N 12)
  else if N.eqb n 110 then Ok (ascii_of_N 10)
  else if N.eqb n 114 then Ok (ascii_of_N 13)
  else if N.eqb n 116 then Ok (ascii_of_N 9)
  else Throw SyntaxError.

(** The characters of a string literal after its opening quote: the
    decoded text and what follows the closing quote. *)
Fixpoint parse_string_body (s : string) : result (string * string) :=
  match s with
  | EmptyString => Throw SyntaxError
  | String c r =>
      if Ascii.eqb c dquote then Ok (EmptyString, r)
      else if Ascii.eqb c backslash then
        match r with
        | EmptyString => Throw SyntaxError
        | String e r1 =>
            if Ascii.eqb e "u"%char then
              match r1 with
              | String h1 (String h2 (String h3 (String h4 r2))) =>
                  do bytes <- unicode_escape h1 h2 h3 h4;
                  do (t, rest) <- parse_string_body r2;
                  Ok (bytes ++ t, rest)
              | _ => Throw SyntaxError
              end
            else
              do ch <- simple_escape e;
              do (t, rest) <- parse_string_body r1;
              Ok (String ch t, rest)
        end
      else if N.ltb (N_of_ascii c) 32 then Throw SyntaxError
      else do (t, rest) <- parse_string_body r;
           Ok (String c t, rest)
  end.

Fixpoint span_digits (s : string) : string * string :=
  match s with
  | String c r =>
      if is_digit c
      then let (d, rest) := span_digits r in (String c d, rest)
      else (EmptyString, s)
  | EmptyString => (EmptyString, s)
  end.

Definition starts_fraction_or_exponent (s : string) : bool :=
  match s with
  | String c _ =>
      (Ascii.eqb c "."%char || Ascii.eqb c "e"%char || Ascii.eqb c "E"%char)%bool
  | EmptyString => false
  end.

(** An integer literal: [0] or a digit run without a leading zero.  A
    literal that goes on with a fraction or an exponent denotes a
    number outside the model. *)
Definition parse_unsigned (s : string) : result (Z * string) :=
  match span_digits s with
  | (EmptyString, _) => Throw SyntaxError
  | (String d ds as lit, rest) =>
      if (Ascii.eqb d "0"%char && negb (String.eqb ds ""))%bool
      then Ok (0%Z, ds ++ rest)
      else if starts_fraction_or_exponent rest then Throw OutsideModel
      else match digits_value lit 0 with
           | Some n => Ok (n, rest)
           | None => Throw SyntaxError
           end
  end.

(** Defining a property on the object being built: a repeated key keeps
    its place and takes the later value. *)
Fixpoint obj_set (ps : list (string * JsVal)) (k : string) (v : JsVal)
  : list (string * JsVal) :=
  match ps with
  | [] => [(k, v)]
  | (k', v') :: r =>
      if String.eqb k k' then (k, v) :: r else (k', v') :: obj_set r k v
  end.

(** [s] without its prefix [lit], when it starts with it. *)
Fixpoint strip_prefix (lit s : string) : option string :=
  match lit with
  | EmptyString => Some s
  | String c l =>
      match s with
      | String d r => if Ascii.eqb c d then strip_prefix l r else None
      | EmptyString => None
      end
  end.

Definition expect (lit : string) (v : JsVal) (s : string) : result (JsVal * string) :=
  match strip_prefix lit s with
  | Some rest => Ok (v, rest)
  | None => Throw SyntaxError
  end.

(** What must follow a member or an element: a separator, after which
    the list goes on, or the closing bracket. *)
Inductive Next : Type := More (rest : string) | Close (rest : string).

Definition separator (close : ascii) (s : string) : result Next :=
  match skip_ws s with
  | String c r =>
      if Ascii.eqb c ","%char then Ok (More r)
      else if Ascii.eqb c close then Ok (Close r)
      else Throw SyntaxError
  | EmptyString => Throw SyntaxError
  end.

(** Recursive descent over the JSON grammar.  [fuel] bounds the nesting
    of calls; running out of it is reported as [OutsideModel]. *)
Fixpoint parse_value (fuel : nat) (s : string) : result (JsVal * string) :=
  match fuel with
  | O => Throw OutsideModel
  | S f =>
      match skip_ws s with
      | EmptyString => Throw SyntaxError
      | String c r as t =>
          if Ascii.eqb c "{"%char then
            match skip_ws r with
            | String c' r' =>
                if Ascii.eqb c' "}"%char then Ok (JObj [], r')
                else parse_members f r []
            | EmptyString => Throw SyntaxError
            end
          else if Ascii.eqb c "["%char then
            match skip_ws r with
            | String c' r' =>
                if Ascii.eqb c' "]"%char then Ok (JArr [], r')
                else parse_elements f r []
            | EmptyString => Throw SyntaxError
            end
          else if Ascii.eqb c dquote then
            do (str, rest) <- parse_string_body r;
            Ok (JStr str, rest)
          else if Ascii.eqb c "t"%char then expect "true" (JBool true) t
          else if Ascii.eqb c "f"%char then expect "false" (JBool false) t
          else if Ascii.eqb c "n"%char then expect "null" JNull t
          else if Ascii.eqb c "-"%char then
            do (n, rest) <- parse_unsigned r;
            Ok (JNum (- n), rest)
          else
            do (n, rest) <- parse_unsigned t;
            Ok (JNum n, rest)
      end
  end
with parse_members (fuel : nat) (s : string) (acc : list (string * JsVal))
  : result (JsVal * string) :=
  match fuel with
  | O => Throw OutsideModel
  | S f =>
      match skip_ws s with
      | String c r =>
          if Ascii.eqb c dquote then
            do (k, r1) <- parse_string_body r;
            match skip_ws r1 with
            | String c1 r2 =>
                if Ascii.eqb c1 ":"%char then
                  do (v, r3) <- parse_value f r2;
                  do next <- separator "}"%char r3;
                  match next with
                  | More r4 => parse_members f r4 (obj_set acc k v)
                  | Close r4 => Ok (JObj (obj_set acc k v), r4)
                  end
                else Throw SyntaxError
            | EmptyString => Throw SyntaxError
            end
          else Throw SyntaxError
      | EmptyString => Throw SyntaxError
      end
  end
with parse_elements (fuel : nat) (s : string) (acc : list JsVal)
  : result (JsVal * string) :=
  match fuel with
  | O => Throw OutsideModel
  | S f =>
      do (v, r1) <- parse_value f s;
      do next <- separator "]"%char r1;
      match next with
      | More r2 => parse_elements f r2 (acc ++ [v])%list
      | Close r2 => Ok (JArr (acc ++ [v])%list, r2)
      end
  end.

(** [JSON.parse(text)]; a text that is not JSON throws [SyntaxError].
    A value and the list it opens read at least one character between
    them, so twice the length of the text (and two) is fuel enough. *)
Definition JSON_parse (text : string) : result JsVal :=
  do (v, rest) <- parse_value (2 * String.length text + 2) text;
  match skip_ws rest with
  | EmptyString => Ok v
  | _ => Throw SyntaxError
  end.

(* ================================================================== *)
(** * Part III. Base64                                                 *)
(* ================================================================== *)

(** [Buffer.from(value).toString('base64')] and its inverse, over the
    standard alphabet with padding.  Six bits select a character. *)
Definition sextet : Type := (bool * bool * bool * bool * bool * bool)%type.

Definition base64_alphabet : string :=
  "ABCDEFGHIJKLMNOPQRSTUVWXYZabcdefghijklmnopqrstuvwxyz0123456789+/".

Definition bit (b : bool) (w : nat) : nat := if b then w else 0.

(** Most significant bit first. *)
Definition sextet_index (s : sextet) : nat :=
  let '(b5, b4, b3, b2, b1, b0) := s in
  bit b5 32 + bit b4 16 + bit b3 8 + bit b2 4 + bit b1 2 + bit b0 1.

Definition index_sextet (n : nat) : sextet :=
  (Nat.testbit n 5, Nat.testbit n 4, Nat.testbit n 3,
   Nat.testbit n 2, Nat.testbit n 1, Nat.testbit n 0).

Definition sextet_char (s : sextet) : ascii :=
  match String.get (sextet_index s) base64_alphabet with
  | Some c => c
  | None => "="%char
  end.

Fixpoint index_of (c : ascii) (s : string) (i : nat) : option nat :=
  match s with
  | EmptyString => None
  | String d r => if Ascii.eqb c d then Some i else index_of c r (S i)
  end.

Definition char_sextet (c : ascii) : option sextet :=
  option_map index_sextet (index_of c base64_alphabet 0).

Definition pad : ascii := "="%char.

(** Three bytes are cut into four sextets; one or two trailing bytes
    are completed with zero bits and the text is padded to four
    characters. *)
Fixpoint stringToBase64 (value : string) : string :=
  match value with
  | EmptyString => EmptyString
  | String (Ascii a0 a1 a2 a3 a4 a5 a6 a7) EmptyString =>
      String (sextet_char (a7, a6, a5, a4, a3, a2))
        (String (sextet_char (a1, a0, false, false, false, false))
           (String pad (String pad EmptyString)))
  | String (Ascii a0 a1 a2 a3 a4 a5 a6 a7)
      (String (Ascii b0 b1 b2 b3 b4 b5 b6 b7) EmptyString) =>
      String (sextet_char (a7, a6, a5, a4, a3, a2))
        (String (sextet_char (a1, a0, b7, b6, b5, b4))
           (String (sextet_char (b3, b2, b1, b0, false, false))
              (String pad EmptyString)))
  | String (Ascii a0 a1 a2 a3 a4 a5 a6 a7)
      (String (Ascii b0 b1 b2 b3 b4 b5 b6 b7)
         (String (Ascii c0 c1 c2 c3 c4 c5 c6 c7) rest)) =>
      String (sextet_char (a7, a6, a5, a4, a3, a2))
        (String (sextet_char (a1, a0, b7, b6, b5, b4))
           (String (sextet_char (b3, b2, b1, b0, c7, c6))
              (String (sextet_char (c5, c4, c3, c2, c1, c0))
                 (stringToBase64 rest))))
  end.

Definition first_byte (s1 s2 : sextet) : ascii :=
  let '(a7, a6, a5, a4, a3, a2) := s1 in
  let '(a1, a0, _, _, _, _) := s2 in
  Ascii a0 a1 a2 a3 a4 a5 a6 a7.

Definition second_byte (s2 s3 : sextet) : ascii :=
  let '(_, _, b7, b6, b5, b4) := s2 in
  let '(b3, b2, b1, b0, _, _) := s3 in
  Ascii b0 b1 b2 b3 b4 b5 b6 b7.

Definition third_byte (s3 s4 : sextet) : ascii :=
  let '(_, _, _, _, c7, c6) := s3 in
  let '(c5, c4, c3, c2, c1, c0) := s4 in
  Ascii c0 c1 c2 c3 c4 c5 c6 c7.

(** The decoder reads groups of four characters.  [Buffer.from(_,
    'base64')] is lenient on text that is not base64 (it skips or stops
    at foreign characters) and on text without its padding; such text
    is outside the model. *)
Fixpoint base64ToString (base64 : string) : result string :=
  match base64 with
  | EmptyString => Ok EmptyString
  | String x1 (String x2 (String x3 (String x4 rest))) =>
      match char_sextet x1, char_sextet x2 with
      | Some s1, Some s2 =>
          match char_sextet x3, char_sextet x4, rest with
          | Some s3, Some s4, _ =>
              do tail <- base64ToString rest;
              Ok (String (first_byte s1 s2)
                    (String (second_byte s2 s3)
                       (String (third_byte s3 s4) tail)))
          | Some s3, None, EmptyString =>
              if Ascii.eqb x4 pad
              then Ok (String (first_byte s1 s2)
                         (String (second_byte s2 s3) EmptyString))
              else Throw OutsideModel
          | None, None, EmptyString =>
              if (Ascii.eqb x3 pad && Ascii.eqb x4 pad)%bool
              then Ok (String (first_byte s1 s2) EmptyString)
              else Throw OutsideModel
          | _, _, _ => Throw OutsideModel
          end
      | _, _ => Throw OutsideModel
      end
  | _ => Throw OutsideModel
  end.

(* ================================================================== *)
(** * Part IV. Connection identity                                     *)
(*     src/extension/kusto/connections/types.ts                        *)
(* ================================================================== *)

(** [Array.prototype.sort()] without a comparator, on strings:
    ascending by UTF-16 code unit.  On the UTF-8 bytes that stand for a
    string this is the order of the bytes, which is the order of the
    code points, with one exception: a character beyond the basic
    plane is a pair of surrogates in UTF-16 (units D800 to DFFF) and so
    comes before the characters E000 to FFFF.  In UTF-8 the latter
    start with the byte EE or EF, the former with a byte from F0 on;
    ranking EE and EF above the bytes from F0 on, and every other byte
    by its value, gives the order of the code units. *)
Definition code_unit_rank (c : ascii) : ascii :=
  let n := N_of_ascii c in
  if (N.leb 238 n && N.leb n 239)%bool then ascii_of_N (n + 16)
  else if N.leb 240 n then ascii_of_N (n - 2)
  else c.

Fixpoint code_unit_key (s : string) : string :=
  match s with
  | EmptyString => EmptyString
  | String c r => String (code_unit_rank c) (code_unit_key r)
  end.

(** [a <= b] in the order of [sort()]. *)
Definition code_unit_leb (a b : string) : bool :=
  String.leb (code_unit_key a) (code_unit_key b).

(** The result of sorting is the sorted arrangement whatever the
    algorithm; insertion is used here. *)
Fixpoint insert_sorted (k : string) (l : list string) : list string :=
  match l with
  | [] => [k]
  | x :: r => if code_unit_leb k x then k :: l else x :: insert_sorted k r
  end.

Fixpoint sort (l : list string) : list string :=
  match l with
  | [] => []
  | x :: r => insert_sorted x (sort r)
  end.

Fixpoint index_keys (n start : nat) : list string :=
  match n with
  | O => []
  | S m => string_of_Z (Z.of_nat start) :: index_keys m (S start)
  end.

(** [Object.keys(v)]: own enumerable keys; the indices for a string or
    an array, none for the other primitives, [TypeError] for [null] and
    [undefined]. *)
Definition Object_keys (v : JsVal) : result (list string) :=
  match v with
  | JUndefined | JNull => Throw TypeError
  | JObj ps => Ok (map fst ps)
  | JArr xs => Ok (index_keys (List.length xs) 0)
  | JStr s => Ok (index_keys (String.length s) 0)
  | JBool _ | JNum _ | JNaN => Ok []
  end.

(** [[
export function encodeConnectionInfo(info: IConnectionInfo): string {
    const json = JSON.stringify(info, Object.keys(info).sort());
    return stringToBase64(json);
}
]]
    When [JSON.stringify] answers [undefined], [Buffer.from(undefined)]
    throws a [TypeError]. *)
Definition encodeConnectionInfo (info : JsVal) : result string :=
  do keys <- Object_keys info;
  match stringify (sort keys) info with
  | Some json => Ok (stringToBase64 json)
  | None => Throw TypeError
  end.

(** [[
export function decodeConnectionInfo(info: string): IConnectionInfo {
    const decoded = JSON.parse(base64ToString(info));
    // Ensure the properties are sorted.
    const encoded = encodeConnectionInfo(decoded);
    return JSON.parse(base64ToString(encoded));
}
]] *)
Definition decodeConnectionInfo (info : string) : result JsVal :=
  do text <- base64ToString info;
  do decoded <- JSON_parse text;
  do encoded <- encodeConnectionInfo decoded;
  do text' <- base64ToString encoded;
  JSON_parse text'.

(** The two variants of [IConnectionInfo]; [database] is optional. *)
Inductive IConnectionInfo : Type :=
| AzureAuthenticated (id displayName cluster : string) (database : option string)
| AppInsights (id displayName : string).

Definition connection_id (c : IConnectionInfo) : string :=
  match c with
  | AzureAuthenticated id _ _ _ => id
  | AppInsights id _ => id
  end.

(** The object a connection info is at run time, its properties in the
    order of the type declaration.  An absent [database] is either no
    property at all or, as [connectionInfofrom] builds it, a property
    holding [undefined]. *)
Definition info_props (explicit_undefined : bool) (c : IConnectionInfo)
  : list (string * JsVal) :=
  match c with
  | AzureAuthenticated id name cluster db =>
      [("id", JStr id); ("displayName", JStr name); ("type", JStr "azAuth");
       ("cluster", JStr cluster)]
      ++ match db with
         | Some d => [("database", JStr d)]
         | None => if explicit_undefined then [("database", JUndefined)] else []
         end
  | AppInsights id name =>
      [("id", JStr id); ("displayName", JStr name); ("type", JStr "appInsights")]
  end%list.

Definition as_string (v : JsVal) : option string :=
  match v with
  | JStr s => Some s
  | _ => None
  end.

(** Reading an object back as a connection info, by its [type] tag. *)
Definition info_of_js (v : JsVal) : option IConnectionInfo :=
  match as_string (get v "id"), as_string (get v "displayName"), get v "type" with
  | Some id, Some name, JStr tag =>
      if String.eqb tag "appInsights" then Some (AppInsights id name)
      else if String.eqb tag "azAuth" then
        match as_string (get v "cluster"), get v "database" with
        | Some cluster, JStr d => Some (AzureAuthenticated id name cluster (Some d))
        | Some cluster, JUndefined => Some (AzureAuthenticated id name cluster None)
        | _, _ => None
        end
      else None
  | _, _, _ => None
  end.



(** ** [getDisplayInfo] and [connectionInfofrom] *)

Record DisplayInfo : Type := mkDisplayInfo {
  label : string;
  description : string
}.

(** [a || b] on two strings: the empty string is the falsy one. *)
Definition str_or (a b : string) : string := if String.eqb a "" then b else a.

(** [[
export function getDisplayInfo(info: IConnectionInfo): { label: string; description: string } {
    if (info.type === 'appInsights') {
        return { label: `Kusto ${info.displayName || info.id}`, description: `` };
    }
    const database = info.database ? `(${info.database})` : '';
    return {
        label: `Kusto ${info.displayName || info.id} ${database}`,
        description: info.cluster
    };
}
]] *)
Definition getDisplayInfo (info : IConnectionInfo) : DisplayInfo :=
  match info with
  | AppInsights id displayName =>
      mkDisplayInfo ("Kusto " ++ str_or displayName id) ""
  | AzureAuthenticated id displayName cluster database =>
      let database :=
        match database with
        | Some d => if String.eqb d "" then "" else "(" ++ d ++ ")"
        | None => ""
        end in
      mkDisplayInfo ("Kusto " ++ str_or displayName id ++ " " ++ database) cluster
  end.

(** [AzureAuthenticatedConnection.connectionInfofrom]: the cluster is
    the id.  [getClusterDisplayName] lives in [../../utils] and is taken
    as a parameter.  The object built has a [database] property even
    when none is given ([info_props true]).
[[
    return { cluster: info.cluster, database: info.database,
             displayName: getClusterDisplayName(info.cluster),
             id: info.cluster, type: 'azAuth' };
]] *)
Definition connectionInfofrom (getClusterDisplayName : string -> string)
    (cluster : string) (database : option string) : IConnectionInfo :=
  AzureAuthenticated cluster (getClusterDisplayName cluster) cluster database.


(** ** Notions used to state the identity properties *)

(** Keys in ascending order. *)
Definition key_le (a b : string) : Prop := code_unit_leb a b = true.

(** An object is flat when every property holds a string or
    [undefined]: the shape of a connection info. *)
Definition flat_value (v : JsVal) : Prop :=
  match v with
  | JStr _ | JUndefined => True
  | _ => False
  end.

Definition flat (ps : list (string * JsVal)) : Prop :=
  Forall (fun kv => flat_value (snd kv)) ps.

(** The string-valued properties of [ps] picked in the order of [K]. *)
Fixpoint string_members (K : list string) (ps : list (string * JsVal))
  : list (string * string) :=
  match K with
  | [] => []
  | k :: r =>
      match assoc k ps with
      | Some (JStr v) => (k, v) :: string_members r ps
      | _ => string_members r ps
      end
  end.

Definition member_text (m : string * string) : string :=
  quote (fst m) ++ ":" ++ quote (snd m).

Definition object_text (ms : list (string * string)) : string :=
  "{" ++ join "," (map member_text ms) ++ "}".

Definition string_props (ms : list (string * string)) : list (string * JsVal) :=
  map (fun m => (fst m, JStr (snd m))) ms.

(** The canonical form of a flat object: its string properties, keys
    ascending. *)
Definition canonical (ps : list (string * JsVal)) : list (string * JsVal) :=
  string_props (string_members (sort (map fst ps)) ps).

(* ================================================================== *)
(** * Part V. Tabular responses and chart inference                    *)
(* ================================================================== *)

Record Column : Type := mkColumn {
  col_name : string;
  col_type : string;
  col_ordinal : Z
}.

(** Where the rows of a table come from.  A [KustoResultTable] has a
    [rows()] method yielding rows whose [raw] is the array of cells; a
    table read back from a serialized notebook is plain JSON with a
    [data] array holding either arrays of cells or objects keyed by
    column name (an absent [data] reads as the empty array of
    arrays). *)
Inductive TableData : Type :=
| KustoRows (raw : list (list JsVal))
| PlainArrays (data : list (list JsVal))
| PlainObjects (data : list (list (string * JsVal))).

(** [columns] already has the [|| []] default of the renderer applied. *)
Record Table : Type := mkTable {
  name : string;
  columns : list Column;
  table_data : TableData
}.

(** [primaryResults] is [None] when the property is not an array. *)
Record KustoResponseDataSet : Type := mkResponse {
  primaryResults : option (list Table);
  tables : list Table;
  tableNames : list string
}.

(** [Object.values(obj)] *)
Definition Object_values (obj : list (string * JsVal)) : list JsVal := map snd obj.

(** The [rows] that [getChartType] and [renderChart] compute:
[[
    if (typeof table.rows === 'function') {
        rows = Array.from(table.rows()).map((row) => row.raw);
    } else {
        const data = table.data || [];
        if (data.length > 0 && !Array.isArray(data[0])) {
            rows = data.map((obj) => Object.values(obj));
        } else {
            rows = data;
        }
    }
]] *)
Definition table_rows (t : Table) : list (list JsVal) :=
  match table_data t with
  | KustoRows raw => raw
  | PlainArrays data => data
  | PlainObjects data => map Object_values data
  end.

Inductive Orientation : Type := Vertical | Horizontal.

(** The decision of [getChartType]; [None] stands for [undefined].  The
    title is whatever [data.Title || ''] evaluates to. *)
Inductive ChartType : Type :=
| Pie (title : JsVal)
| Time (title : JsVal)
| Bar (title : JsVal) (orientation : Orientation).

(** [try { data = JSON.parse(v) } catch {}]: the argument is converted
    to a string first; a [SyntaxError] is swallowed. *)
Definition try_parse (v : JsVal) : result (option JsVal) :=
  match JSON_parse (ToString v) with
  | Ok d => Ok (Some d)
  | Throw SyntaxError => Ok None
  | Throw e => Throw e
  end.

(** The guard on the first row:
[[
    rows[0][1] !== 'Visualization' &&
    (typeof rows[0][0] !== 'string' || !rows[0][0].includes('Visualization'))
]] *)
Definition not_a_visualization_row (row0 : list JsVal) : bool :=
  (negb (strict_eq_str (cell row0 1) "Visualization")
   && match cell row0 0 with
      | JStr s => negb (includes s "Visualization")
      | _ => true
      end)%bool.

Definition chart_of_metadata (data : JsVal) : option ChartType :=
  let visualization := get data "Visualization" in
  let title := js_or (get data "Title") (JStr "") in
  if strict_eq_str visualization "piechart" then Some (Pie title)
  else if strict_eq_str visualization "barchart" then Some (Bar title Horizontal)
  else if (strict_eq_str visualization "timechart"
           || strict_eq_str visualization "linechart")%bool then Some (Time title)
  else if strict_eq_str visualization "columnchart" then Some (Bar title Vertical)
  else None.

(** [getChartType(results)] of the chart renderer. *)
Definition getChartType (results : KustoResponseDataSet) : result (option ChartType) :=
  match tables results with
  | [] => Ok None
  | _ =>
      match find (fun item => String.eqb (name item) "@ExtendedProperties") (tables results) with
      | None => Ok None
      | Some queryPropertiesTable =>
          match table_rows queryPropertiesTable with
          | [] => Ok None
          | row0 :: _ =>
              if not_a_visualization_row row0 then Ok None
              else
                do first <- try_parse (cell row0 2);
                let data := match first with Some d => d | None => JUndefined end in
                do data <-
                   (if truthy data then Ok data
                    else do second <- try_parse (cell row0 0);
                         Ok (match second with Some d => d | None => data end));
                if truthy data then Ok (chart_of_metadata data) else Ok None
          end
      end
  end.

(** ** The time-chart branch of [renderChart] *)

(** [columns.find((col) => col.type === ty)?.ordinal || 0] *)
Definition find_ordinal (ty : string) (cols : list Column) : Z :=
  match find (fun col => String.eqb (col_type col) ty) cols with
  | Some col => col_ordinal col
  | None => 0%Z
  end.

(** [row[i]] for a numeric index. *)
Definition cell_at (row : list JsVal) (i : Z) : JsVal :=
  if Z.ltb i 0 then JUndefined else cell row (Z.to_nat i).

(** [Array.prototype.sort(comparator)]: stable; a comparator answering
    [NaN] ([None]) is read as [+0].  Stable insertion is what a stable
    sort computes whenever the comparator is a consistent ordering. *)
Definition goes_after (c : option Z) : bool :=
  match c with
  | Some d => Z.ltb 0 d
  | None => false
  end.

Fixpoint insert_by {A : Type} (cmp : A -> A -> option Z) (x : A) (l : list A) : list A :=
  match l with
  | [] => [x]
  | y :: r => if goes_after (cmp x y) then y :: insert_by cmp x r else x :: l
  end.

Fixpoint js_sort {A : Type} (cmp : A -> A -> option Z) (l : list A) : list A :=
  match l with
  | [] => []
  | x :: r => insert_by cmp x (js_sort cmp r)
  end.

Definition num_sub (a b : option Z) : option Z :=
  match a, b with
  | Some x, Some y => Some (x - y)%Z
  | _, _ => None
  end.

(** Lines 261-282 of the renderer.  [getTime v] stands for
    [new Date(v).getTime()] ([None] for an invalid date), a built-in the
    model takes as a parameter.  The result is [None] when the function
    returns early with "No datetime nor timespan column".
[[
    const sortedData = rows.slice();
    const dateColumnIndex = columns.find((col) => col.type === 'datetime')?.ordinal || 0;
    const timeColumnIndex = columns.find((col) => col.type === 'timespan')?.ordinal || 0;
    const hourColumnIndex = columns.find((col) => col.type === 'real')?.ordinal || 0;
    if (dateColumnIndex >= 0) { sortedData.sort((a, b) =>
        new Date(a[dateColumnIndex]).getTime() - new Date(b[dateColumnIndex]).getTime()); }
    if (timeColumnIndex >= 0) { sortedData.sort((a, b) =>
        new Date(`0001-01-01T${a[dateColumnIndex]}`).getTime() -
        new Date(`0001-01-01T${b[dateColumnIndex]}`).getTime()); }
    if (hourColumnIndex >= 0) { sortedData.sort((a, b) => a[dateColumnIndex] - b[dateColumnIndex]); }
    if (timeColumnIndex === -1 && dateColumnIndex === -1) { return; }
]] *)
Definition time_sortedData (getTime : JsVal -> option Z)
    (cols : list Column) (rows : list (list JsVal)) : option (list (list JsVal)) :=
  let dateColumnIndex := find_ordinal "datetime" cols in
  let timeColumnIndex := find_ordinal "timespan" cols in
  let hourColumnIndex := find_ordinal "real" cols in
  let sortedData := rows in
  let sortedData :=
    if Z.leb 0 dateColumnIndex
    then js_sort (fun a b => num_sub (getTime (cell_at a dateColumnIndex))
                                     (getTime (cell_at b dateColumnIndex))) sortedData
    else sortedData in
  let same_day v := JStr ("0001-01-01T" ++ ToString v) in
  let sortedData :=
    if Z.leb 0 timeColumnIndex
    then js_sort (fun a b => num_sub (getTime (same_day (cell_at a dateColumnIndex)))
                                     (getTime (same_day (cell_at b dateColumnIndex)))) sortedData
    else sortedData in
  let sortedData :=
    if Z.leb 0 hourColumnIndex
    then js_sort (fun a b => js_sub (cell_at a dateColumnIndex) (cell_at b dateColumnIndex))
                 sortedData
    else sortedData in
  if (Z.eqb timeColumnIndex (-1) && Z.eqb dateColumnIndex (-1))%bool then None
  else Some sortedData.

(** The sort key as the specification words it: the first declared
    datetime column, else the first declared timespan column read as a
    time of day, else the first declared real column read as a number;
    rows are sorted, stably and ascending, by that one key. *)
Definition declared_ordinal (ty : string) (cols : list Column) : option Z :=
  option_map col_ordinal (find (fun col => String.eqb (col_type col) ty) cols).

Definition time_sortedData_spec (getTime : JsVal -> option Z)
    (cols : list Column) (rows : list (list JsVal)) : list (list JsVal) :=
  match declared_ordinal "datetime" cols with
  | Some i => js_sort (fun a b => num_sub (getTime (cell_at a i)) (getTime (cell_at b i))) rows
  | None =>
      match declared_ordinal "timespan" cols with
      | Some i =>
          js_sort (fun a b =>
                     num_sub (getTime (JStr ("0001-01-01T" ++ ToString (cell_at a i))))
                             (getTime (JStr ("0001-01-01T" ++ ToString (cell_at b i))))) rows
      | None =>
          match declared_ordinal "real" cols with
          | Some i => js_sort (fun a b => js_sub (cell_at a i) (cell_at b i)) rows
          | None => rows
          end
      end
  end.

(** ** [generateSunburstChart] *)

(** A [Map] keeps its entries in insertion order; setting an existing
    key keeps the key's place. *)
Fixpoint map_set {A : Type} (m : list (string * A)) (k : string) (v : A)
  : list (string * A) :=
  match m with
  | [] => [(k, v)]
  | (k', v') :: r =>
      if String.eqb k k' then (k, v) :: r else (k', v') :: map_set r k v
  end.

Definition map_get {A : Type} (m : list (string * A)) (k : string) : option A := assoc k m.

(** The rows as [generateSunburstChart] reads them: objects are laid
    out by column name, [columns.map((col) => obj[col.name])]. *)
Definition sunburst_rows (t : Table) : list (list JsVal) :=
  match table_data t with
  | KustoRows raw => raw
  | PlainArrays data => data
  | PlainObjects data =>
      map (fun obj => map (fun col => get (JObj obj) (col_name col)) (columns t)) data
  end.

Record SunburstNode : Type := mkNode {
  node_value : JsVal;
  node_label : string;
  node_parentLabel : string
}.

Record Sunburst : Type := mkSunburst {
  ids : list string;
  labels : list string;
  parents : list string;
  values : list JsVal
}.

(** [rows.forEach] of the first column: one entry per label, the
    weights added up ([(labelsAndValues.get(label) ?? 0) + row[valueColumnIndex]]). *)
Fixpoint root_level (valueColumnIndex : nat) (rows : list (list JsVal))
    (labelsAndValues : list (string * JsVal)) : result (list (string * JsVal)) :=
  match rows with
  | [] => Ok labelsAndValues
  | row :: rest =>
      do label <- method_toString (cell row 0);
      let so_far := match map_get labelsAndValues label with
                    | Some v => v
                    | None => JNum 0
                    end in
      root_level valueColumnIndex rest
        (map_set labelsAndValues label (js_add so_far (cell row valueColumnIndex)))
  end.

(** [Array(index).fill(0).map((_, i) => row[i].toString())] *)
Fixpoint path_strings (row : list JsVal) (start count : nat) : result (list string) :=
  match count with
  | O => Ok []
  | S n =>
      do s <- method_toString (cell row start);
      do r <- path_strings row (S start) n;
      Ok (s :: r)
  end.

(** [rows.forEach] of a deeper column [index]. *)
Fixpoint deeper_level (index valueColumnIndex : nat) (rows : list (list JsVal))
    (labelsAndValues : list (string * SunburstNode))
  : result (list (string * SunburstNode)) :=
  match rows with
  | [] => Ok labelsAndValues
  | row :: rest =>
      do path <- path_strings row 0 index;
      let parentLabel := join "-" path in
      do label <- method_toString (cell row index);
      let value := cell row valueColumnIndex in
      let id := parentLabel ++ "-" ++ label in
      deeper_level index valueColumnIndex rest
        (match map_get labelsAndValues id with
         | Some node =>
             map_set labelsAndValues id
               (mkNode (js_add (node_value node) value)
                       (node_label node) (node_parentLabel node))
         | None => map_set labelsAndValues id (mkNode value label parentLabel)
         end)
  end.

Definition push_roots (acc : Sunburst) (m : list (string * JsVal)) : Sunburst :=
  mkSunburst (ids acc ++ map fst m)%list
             (labels acc ++ map fst m)%list
             (parents acc ++ map (fun _ => "") m)%list
             (values acc ++ map snd m)%list.

Definition push_nodes (acc : Sunburst) (m : list (string * SunburstNode)) : Sunburst :=
  mkSunburst (ids acc ++ map fst m)%list
             (labels acc ++ map (fun e => node_label (snd e)) m)%list
             (parents acc ++ map (fun e => node_parentLabel (snd e)) m)%list
             (values acc ++ map (fun e => node_value (snd e)) m)%list.

(** [columns.forEach((col, index) => ...)], over the indices
    [index, index + 1, ...] of the [count] remaining columns. *)
Fixpoint sunburst_levels (valueColumnIndex : nat) (rows : list (list JsVal))
    (index count : nat) (acc : Sunburst) : result Sunburst :=
  match count with
  | O => Ok acc
  | S n =>
      if Nat.eqb valueColumnIndex index
      then sunburst_levels valueColumnIndex rows (S index) n acc
      else if Nat.eqb index 0
      then do m <- root_level valueColumnIndex rows [];
           sunburst_levels valueColumnIndex rows (S index) n (push_roots acc m)
      else do m <- deeper_level index valueColumnIndex rows [];
           sunburst_levels valueColumnIndex rows (S index) n (push_nodes acc m)
  end.

(** The plot data of [generateSunburstChart]; [Ok None] when the table
    has at most two columns and nothing is drawn. *)
Definition generateSunburstChart (primaryResult : Table) : result (option Sunburst) :=
  let cols := columns primaryResult in
  let rows := sunburst_rows primaryResult in
  if Nat.leb (List.length cols) 2 then Ok None
  else
    let valueColumnIndex := (List.length cols - 1)%nat in
    do data <- sunburst_levels valueColumnIndex rows 0 (List.length cols)
                 (mkSunburst [] [] [] []);
    Ok (Some data).

(** ** The pie, series and bar branches of [renderChart] *)

(** The values column of a pie chart (lines 229-238):
[[
    if (columns.length > 0) {
        const clonedColumns = columns.slice();
        valuesColumnIndex =
            clonedColumns.reverse().find((item) => item.type === 'long')?.ordinal
            || clonedColumns.length - 1;
    } else {
        valuesColumnIndex = rows.length > 0 && rows[0].length > 1 ? rows[0].length - 1 : 1;
    }
]] *)
Definition pie_valuesColumnIndex (cols : list Column) (rows : list (list JsVal)) : Z :=
  if Nat.ltb 0 (List.length cols) then
    let clonedColumns := rev cols in
    match find (fun item => String.eqb (col_type item) "long") clonedColumns with
    | Some item =>
        if Z.eqb (col_ordinal item) 0
        then (Z.of_nat (List.length clonedColumns) - 1)%Z
        else col_ordinal item
    | None => (Z.of_nat (List.length clonedColumns) - 1)%Z
    end
  else
    match rows with
    | row0 :: _ =>
        if Nat.ltb 1 (List.length row0)
        then (Z.of_nat (List.length row0) - 1)%Z
        else 1%Z
    | [] => 1%Z
    end.

Record PieData : Type := mkPieData {
  pie_labels : list JsVal;
  pie_values : list JsVal
}.

(** [labels: rows.map((item) => item[0]), values: rows.map((item) => item[valuesColumnIndex])] *)
Definition pieData (cols : list Column) (rows : list (list JsVal)) : PieData :=
  let valuesColumnIndex := pie_valuesColumnIndex cols rows in
  mkPieData (map (fun item => cell_at item 0) rows)
            (map (fun item => cell_at item valuesColumnIndex) rows).

(** One trace of a scatter plot; [scatter_name] is absent on the single
    trace of a two-column chart. *)
Record ScatterData : Type := mkScatter {
  scatter_name : option JsVal;
  scatter_x : list JsVal;
  scatter_y : list JsVal
}.

(** Keys of a [Map] are compared by SameValueZero.  Two cells that are
    objects or arrays are two different objects (every cell comes out
    of its own place in the parsed response), so they never match. *)
Definition same_value_zero (a b : JsVal) : bool :=
  match a, b with
  | JUndefined, JUndefined => true
  | JNull, JNull => true
  | JBool x, JBool y => Bool.eqb x y
  | JNum x, JNum y => Z.eqb x y
  | JNaN, JNaN => true
  | JStr x, JStr y => String.eqb x y
  | _, _ => false
  end.

(** [seriesValues.get(k)] and [seriesValues.set(k, v)] on a [Map] in
    insertion order. *)
Fixpoint series_get (m : list (JsVal * (list JsVal * list JsVal))) (k : JsVal)
  : option (list JsVal * list JsVal) :=
  match m with
  | [] => None
  | (k', v) :: r => if same_value_zero k k' then Some v else series_get r k
  end.

Fixpoint series_set (m : list (JsVal * (list JsVal * list JsVal))) (k : JsVal)
    (v : list JsVal * list JsVal) : list (JsVal * (list JsVal * list JsVal)) :=
  match m with
  | [] => [(k, v)]
  | (k', v') :: r =>
      if same_value_zero k k' then (k', v) :: r else (k', v') :: series_set r k v
  end.

(** [columns.find((col) => col.type === 'string')?.ordinal || 1] *)
Definition columnIndexWithSeriesName (cols : list Column) : Z :=
  match find (fun col => String.eqb (col_type col) "string") cols with
  | Some col => if Z.eqb (col_ordinal col) 0 then 1%Z else col_ordinal col
  | None => 1%Z
  end.

(** [[
    const lastColumn = columns[columns.length - 1];
    const columnIndexWithValue =
        lastColumn.type === 'long'
            ? lastColumn.ordinal
            : columns.find((col) => col.type !== 'string' && col.type !== 'datetime' &&
                                    col.type !== 'timespan' && col.type !== 'real')?.ordinal || 2;
]]
    The conditional binds weaker than [||]: the default 2 belongs to
    the second arm only.  [None] is the [TypeError] of reading [type]
    off a missing last column. *)
Definition columnIndexWithValue (cols : list Column) : option Z :=
  match rev cols with
  | [] => None
  | lastColumn :: _ =>
      if String.eqb (col_type lastColumn) "long" then Some (col_ordinal lastColumn)
      else
        match find (fun col => (negb (String.eqb (col_type col) "string")
                                && negb (String.eqb (col_type col) "datetime")
                                && negb (String.eqb (col_type col) "timespan")
                                && negb (String.eqb (col_type col) "real"))%bool) cols with
        | Some col => Some (if Z.eqb (col_ordinal col) 0 then 2%Z else col_ordinal col)
        | None => Some 2%Z
        end
  end.

(** [dateColumnIndex >= 0 ? dateColumnIndex
       : hourColumnIndex >= 0 ? hourColumnIndex : timeColumnIndex] *)
Definition dateHourOrTimeColumnIndex (cols : list Column) : Z :=
  let dateColumnIndex := find_ordinal "datetime" cols in
  let timeColumnIndex := find_ordinal "timespan" cols in
  let hourColumnIndex := find_ordinal "real" cols in
  if Z.leb 0 dateColumnIndex then dateColumnIndex
  else if Z.leb 0 hourColumnIndex then hourColumnIndex
  else timeColumnIndex.

(** [sortedData.forEach((row) => { ... })] of lines 300-308: the point
    of the row is pushed on the series of its name. *)
Fixpoint collect_series (nameIndex timeIndex valueIndex : Z) (sortedData : list (list JsVal))
    (seriesValues : list (JsVal * (list JsVal * list JsVal)))
  : list (JsVal * (list JsVal * list JsVal)) :=
  match sortedData with
  | [] => seriesValues
  | row :: rest =>
      let seriesName := cell_at row nameIndex in
      let datetime := cell_at row timeIndex in
      let value := cell_at row valueIndex in
      let series := match series_get seriesValues seriesName with
                    | Some s => s
                    | None => ([], [])
                    end in
      let series := (fst series ++ [datetime], snd series ++ [value])%list in
      collect_series nameIndex timeIndex valueIndex rest
        (series_set seriesValues seriesName series)
  end.

(** Lines 283-327: the traces of a time chart over the sorted rows,
    one per series when there are more than two columns. *)
Definition time_plotData (cols : list Column) (sortedData : list (list JsVal))
  : result (list ScatterData) :=
  if Nat.ltb 2 (List.length cols) then
    match columnIndexWithValue cols with
    | None => Throw TypeError
    | Some valueIndex =>
        let seriesValues :=
          collect_series (columnIndexWithSeriesName cols) (dateHourOrTimeColumnIndex cols)
                         valueIndex sortedData [] in
        Ok (map (fun entry => mkScatter (Some (fst entry)) (fst (snd entry)) (snd (snd entry)))
                seriesValues)
    end
  else
    Ok [mkScatter None (map (fun item => cell_at item 0) sortedData)
                       (map (fun item => cell_at item 1) sortedData)].

(** The time branch as a whole (lines 260-328); [None] when it returns
    without plotting. *)
Definition time_chart (getTime : JsVal -> option Z) (cols : list Column)
    (rows : list (list JsVal)) : result (option (list ScatterData)) :=
  match time_sortedData getTime cols rows with
  | None => Ok None
  | Some sortedData => do plotData <- time_plotData cols sortedData; Ok (Some plotData)
  end.

Record BarData : Type := mkBarData {
  bar_orientation : Orientation;
  bar_x : list JsVal;
  bar_y : list JsVal
}.

(** Lines 329-341. *)
Definition barData (orientation : Orientation) (rows : list (list JsVal)) : BarData :=
  let labels := map (fun item => cell_at item 0) rows in
  let values := map (fun item => cell_at item 1) rows in
  mkBarData orientation
    (match orientation with Vertical => labels | Horizontal => values end)
    (match orientation with Vertical => values | Horizontal => labels end).

(** ** [hasDataTable] and [getTabularData] *)

(** [results.primaryResults.length === 0]; a [primaryResults] that is
    not an array is outside the model. *)
Definition hasDataTable (results : KustoResponseDataSet) : result bool :=
  match primaryResults results with
  | Some l => Ok (negb (Nat.eqb (List.length l) 0))
  | None => Throw OutsideModel
  end.

Record TabularData : Type := mkTabularData {
  schema_fields : list Column;
  dataPoints : list (list (string * JsVal))
}.

(** One [Datapoint]: [rowData[col.name] = row.raw[col.ordinal]] for the
    columns that have a name.  The properties are listed in the order
    they were created in (the enumeration order of names that are not
    array indices).  Assigning to [__proto__] creates no property and
    is outside the model. *)
Fixpoint datapoint (cols : list Column) (raw : list JsVal)
    (rowData : list (string * JsVal)) : result (list (string * JsVal)) :=
  match cols with
  | [] => Ok rowData
  | col :: rest =>
      if String.eqb (col_name col) "" then datapoint rest raw rowData
      else if String.eqb (col_name col) "__proto__" then Throw OutsideModel
      else datapoint rest raw (obj_set rowData (col_name col) (cell_at raw (col_ordinal col)))
  end.

Fixpoint datapoints (cols : list Column) (rows : list (list JsVal))
  : result (list (list (string * JsVal))) :=
  match rows with
  | [] => Ok []
  | raw :: rest =>
      do rowData <- datapoint cols raw [];
      do others <- datapoints cols rest;
      Ok (rowData :: others)
  end.

(** [getTabularData(results)]; [Ok None] is [undefined].  A table read
    back from a notebook has no [rows] method: calling it is a
    [TypeError]. *)
Definition getTabularData (results : KustoResponseDataSet) : result (option TabularData) :=
  do has <- hasDataTable results;
  if negb has then Ok None
  else
    match primaryResults results with
    | Some (primaryTable :: _) =>
        match table_data primaryTable with
        | KustoRows raw =>
            do data <- datapoints (columns primaryTable) raw;
            Ok (Some (mkTabularData (columns primaryTable) data))
        | _ => Throw TypeError
        end
    | _ => Throw OutsideModel
    end.

(* ================================================================== *)
(** * Part VI. Kernel lifecycle and cell execution                     *)
(* ================================================================== *)

(** ** The controller registry *)

(** [getControllerId]: [`${notebookType}_${encodeConnectionInfo(connection)}`] *)
Definition getControllerId (connection : IConnectionInfo) (notebookType : string)
  : result string :=
  do token <- encodeConnectionInfo (JObj (info_props true connection));
  Ok (notebookType ++ "_" ++ token).

(** A [KernelPerConnection].  [ctl_ref] is the identity of the object
    (what [indexOf] compares); its notebook controller is registered
    with the host under the same reference. *)
Record Controller : Type := mkController {
  ctl_ref : nat;
  ctl_notebookType : string;
  ctl_connection : IConnectionInfo
}.

(** The module state: the array [registeredControllers], the notebook
    controllers currently registered with the host, and the supply of
    object identities. *)
Record Kernels : Type := mkKernels {
  registeredControllers : list Controller;
  host_controllers : list nat;
  next_ref : nat
}.

Inductive Change : Type := added | removed.

(** [controller.dispose()]: the notebook controller leaves the host. *)
Definition dispose (c : Controller) (k : Kernels) : Kernels :=
  mkKernels (registeredControllers k)
            (filter (fun r => negb (Nat.eqb r (ctl_ref c))) (host_controllers k))
            (next_ref k).

(** [registeredControllers.indexOf(c)] *)
Fixpoint indexOf (c : Controller) (l : list Controller) : option nat :=
  match l with
  | [] => None
  | x :: r =>
      if Nat.eqb (ctl_ref x) (ctl_ref c) then Some O
      else option_map S (indexOf c r)
  end.

(** [array.splice(index, 1)] *)
Fixpoint splice1 {A : Type} (index : nat) (l : list A) : list A :=
  match l, index with
  | [], _ => []
  | _ :: r, O => r
  | x :: r, S i => x :: splice1 i r
  end.

Definition remove_controller (k : Kernels) (controllerToRemove : Controller) : Kernels :=
  let k := dispose controllerToRemove k in
  match indexOf controllerToRemove (registeredControllers k) with
  | Some index =>
      mkKernels (splice1 index (registeredControllers k)) (host_controllers k) (next_ref k)
  | None => k
  end.

(** [[
onConnectionChanged(({ connection, change }) => {
    if (change === 'added') { return; }
    for (const controllerToRemove of registeredControllers.filter(
        (controller) => controller.connection.id === connection.id)) {
        controllerToRemove.dispose();
        const index = registeredControllers.indexOf(controllerToRemove);
        if (index !== -1) { registeredControllers.splice(index, 1); }
    }
});
]] *)
Definition same_connection_id (connection : IConnectionInfo) (controller : Controller) : bool :=
  String.eqb (connection_id (ctl_connection controller)) (connection_id connection).

Definition onConnectionChanged (connection : IConnectionInfo) (change : Change)
    (k : Kernels) : Kernels :=
  match change with
  | added => k
  | removed =>
      fold_left remove_controller
        (filter (same_connection_id connection) (registeredControllers k)) k
  end.

(** [registerController(notebookType, connection)]: the existing
    controller for the key, or a new one pushed on the array and
    registered with the host. *)
Definition has_key (controllerId : result string) (notebookType : string)
    (controller : Controller) : bool :=
  match controllerId,
        getControllerId (ctl_connection controller) (ctl_notebookType controller) with
  | Ok wanted, Ok id =>
      (String.eqb id wanted && String.eqb (ctl_notebookType controller) notebookType)%bool
  | _, _ => false
  end.

Definition registerController (notebookType : string) (connection : IConnectionInfo)
    (k : Kernels) : Controller * Kernels :=
  let controllerId := getControllerId connection notebookType in
  match find (has_key controllerId notebookType) (registeredControllers k) with
  | Some existingController => (existingController, k)
  | None =>
      let controller := mkController (next_ref k) notebookType connection in
      (controller,
       mkKernels (registeredControllers k ++ [controller])%list
                 (host_controllers k ++ [next_ref k])%list
                 (S (next_ref k)))
  end.

(** The key of a controller names a connection when it is the
    controller id built from that connection. *)
Definition key_embeds (controller : Controller) (connection : IConnectionInfo) : Prop :=
  getControllerId (ctl_connection controller) (ctl_notebookType controller)
  = getControllerId connection (ctl_notebookType controller).

(** ** [executeCell] *)

(** A value caught by [catch (ex)]: the value, with its own and
    inherited properties, and whether it is an [instanceof Error]. *)
Record Thrown : Type := mkThrown {
  thrown_value : JsVal;
  instanceof_Error : bool
}.

Inductive Settlement : Type :=
| Fulfilled (results : option KustoResponseDataSet)
| Rejected (ex : Thrown).

(** One run of [client.execute] next to the cancellation token: when
    the token fires (if ever) and when and how the promise of the
    client settles, on the clock of the event loop. *)
Record QueryRun : Type := mkRun {
  cancelledAt : option nat;
  settledAt : nat;
  settlement : Settlement
}.

Definition token_fires_first (run : QueryRun) : bool :=
  match cancelledAt run with
  | Some c => Nat.ltb c (settledAt run)
  | None => false
  end.

(** Modelled from the spec: [createPromiseFromToken] and [Promise.race]
    (the helper lives in [../utils], outside the sources at hand).  The
    race settles with whichever comes first; the token's promise
    resolves with the [undefined] it was given. *)
Definition promise_race (run : QueryRun) : Settlement :=
  if token_fires_first run then Fulfilled None else settlement run.

(** [task.token.isCancellationRequested] when the awaiting code
    resumes. *)
Definition isCancellationRequested (run : QueryRun) : bool :=
  match cancelledAt run with
  | Some c => Nat.leb c (settledAt run)
  | None => false
  end.

Inductive OutputItem : Type :=
| JsonItem (mime : string) (value : KustoResponseDataSet)
| ErrorItem (errorName errorMessage : JsVal).

(** What [executeCell] does to its [NotebookCellExecution]. *)
Inductive TaskOp : Type :=
| TaskStart (startTime : Z)
| TaskClearOutput
| TaskAppendOutput (items : list OutputItem)
| TaskEnd (success : bool) (endTime : option Z).

(** The [catch] block: name and message of the error artifact. *)
Definition classify_error (ex : Thrown) : JsVal * JsVal :=
  let errorMessage := JStr "Failed to execute query" in
  let errorName := JStr "Query Error" in
  let v := thrown_value ex in
  if (truthy v && typeof_object v)%bool then
    if (has_property "response" v && truthy (get v "response")
        && typeof_object (get v "response"))%bool then
      let response := get v "response" in
      let status := get response "status" in
      let data := get response "data" in
      let errorMessage :=
        if truthy (opt_get data "error")
        then js_or (get (get data "error") "@message")
                   (js_or (get (get data "error") "message") errorMessage)
        else if truthy (opt_get data "message") then get data "message"
        else errorMessage in
      let errorName :=
        if strict_eq_num status 400 then JStr "Invalid Query"
        else if (strict_eq_num status 401 || strict_eq_num status 403)%bool
        then JStr "Authentication Error"
        else if (strict_eq_num status 408 || strict_eq_num status 504)%bool
        then JStr "Query Timeout"
        else if js_ge status 500 then JStr "Server Error"
        else errorName in
      (errorName, errorMessage)
    else if instanceof_Error ex then (get v "name", get v "message")
    else if has_property "message" v then
      let inner := opt_get (get v "innererror") "message" in
      let innerMsg := if truthy inner then " (" ++ ToString inner ++ ")" else "" in
      (errorName, JStr (ToString (get v "message") ++ innerMsg))
    else (errorName, errorMessage)
  else (errorName, errorMessage).

(** The success path between the race and [appendOutput]. *)
Definition is_PrimaryResult (t : Table) : bool := String.eqb (name t) "PrimaryResult".

Definition reconcile_primaryResults (results : KustoResponseDataSet) : KustoResponseDataSet :=
  match primaryResults results with
  | Some (_ :: _) => results
  | _ => mkResponse (Some (filter is_PrimaryResult (tables results)))
                    (tables results) (tableNames results)
  end.

Definition drop_PrimaryResult (results : KustoResponseDataSet) : KustoResponseDataSet :=
  mkResponse (primaryResults results)
             (filter (fun item => negb (is_PrimaryResult item)) (tables results))
             (filter (fun item => negb (String.eqb item "PrimaryResult")) (tableNames results)).

Definition success_output (chartType : KustoResponseDataSet -> JsVal)
    (results : KustoResponseDataSet) : list OutputItem :=
  let results := reconcile_primaryResults results in
  let kind := chartType results in
  let results := drop_PrimaryResult results in
  if (truthy kind && negb (strict_eq_str kind "table"))%bool
  then [JsonItem "application/vnd.kusto.result.viz+json" results]
  else [JsonItem "application/vnd.kusto.result+json" results].

(** [KernelPerConnection.executeCell], as the sequence of operations on
    the task.  [chartType] is [getChartType] of the extension host
    ([../output/chart]); [client] tells whether [Client.create] gave a
    client; [startNow] and [endNow] are the two readings of
    [Date.now()]. *)
Definition executeCell (chartType : KustoResponseDataSet -> JsVal)
    (client : bool) (startNow endNow : Z) (run : QueryRun) : list TaskOp :=
  if negb client then [TaskEnd false None]
  else
    [TaskStart startNow; TaskClearOutput]
    ++ match promise_race run with
       | Fulfilled results =>
           match results with
           | Some r =>
               if isCancellationRequested run then [TaskEnd false (Some endNow)]
               else [TaskAppendOutput (success_output chartType r); TaskEnd true (Some endNow)]
           | None => [TaskEnd false (Some endNow)]
           end
       | Rejected ex =>
           let (errorName, errorMessage) := classify_error ex in
           [TaskAppendOutput [ErrorItem errorName errorMessage]; TaskEnd false (Some endNow)]
       end%list.

(** The outputs a run leaves on the cell, and how the task ended. *)
Fixpoint appended (ops : list TaskOp) : list (list OutputItem) :=
  match ops with
  | [] => []
  | TaskAppendOutput items :: r => items :: appended r
  | _ :: r => appended r
  end.

Definition ended (ops : list TaskOp) : option (bool * option Z) :=
  match last ops TaskClearOutput with
  | TaskEnd success t => Some (success, t)
  | _ => None
  end.

(** The message as the specification words it: the first present of
    [response.data.error['@message']], [response.data.error.message],
    [response.data.message], else the default. *)
Definition spec_error_message (response : JsVal) : JsVal :=
  let data := get response "data" in
  let error := opt_get data "error" in
  js_or (opt_get error "@message")
        (js_or (opt_get error "message")
               (js_or (opt_get data "message") (JStr "Failed to execute query"))).

(** ** [KernelProvider.register] *)

(** [[
    lastUsedConnection.forEach((connection) => {
        registerDisposable(registerController('kusto-notebook', connection));
        registerDisposable(registerController('kusto-notebook-kql', connection));
        registerDisposable(registerController(InteractiveWindowView, connection));
    });
]]
    [InteractiveWindowView] is a constant of [../utils]. *)
Definition register_connection (InteractiveWindowView : string) (k : Kernels)
    (connection : IConnectionInfo) : Kernels :=
  let k := snd (registerController "kusto-notebook" connection k) in
  let k := snd (registerController "kusto-notebook-kql" connection k) in
  snd (registerController InteractiveWindowView connection k).

Definition KernelProvider_register (InteractiveWindowView : string)
    (lastUsedConnection : list IConnectionInfo) (k : Kernels) : Kernels :=
  fold_left (register_connection InteractiveWindowView) lastUsedConnection k.

(** ** [executeCell] among failing surroundings *)

(** [Client.create]: it gives a client, gives none, or rejects. *)
Inductive ClientCreation : Type :=
| ClientReady
| ClientMissing
| ClientRejected (ex : Thrown).

(** How the promise that [executeCell] returns ends. *)
Inductive Completion : Type :=
| Returns
| RejectsWith (ex : Thrown)
| StaysPending.

(** [executeCell] with what [executeCell] above leaves out:
    - [Client.create] is awaited before the [try]: when it rejects, so
      does the call, and the task that was created is never ended;
    - the race may never settle, when the token never fires and the
      promise of the client stays pending ([run] is [None]): the call
      stays at its [await];
    - the statements of the [try] that follow [success = true] (the
      normalization, [getChartType], building and appending the
      output) may throw before the output is on the cell: [rendering
      results] is then the value thrown.  It is caught like a failure
      of the query, but [success] is [true] already.
    The operations on the task themselves ([start], [clearOutput],
    [end], and [appendOutput] in the [catch] block) are taken to
    succeed. *)
Definition executeCell_among_failures (chartType : KustoResponseDataSet -> JsVal)
    (rendering : KustoResponseDataSet -> option Thrown)
    (client : ClientCreation) (startNow endNow : Z) (run : option QueryRun)
  : list TaskOp * Completion :=
  match client with
  | ClientRejected ex => ([], RejectsWith ex)
  | ClientMissing => ([TaskEnd false None], Returns)
  | ClientReady =>
      match run with
      | None => ([TaskStart startNow; TaskClearOutput], StaysPending)
      | Some run =>
          ([TaskStart startNow; TaskClearOutput]
           ++ match promise_race run with
              | Fulfilled results =>
                  match results with
                  | Some r =>
                      if isCancellationRequested run then [TaskEnd false (Some endNow)]
                      else
                        match rendering r with
                        | None =>
                            [TaskAppendOutput (success_output chartType r);
                             TaskEnd true (Some endNow)]
                        | Some ex =>
                            let (errorName, errorMessage) := classify_error ex in
                            [TaskAppendOutput [ErrorItem errorName errorMessage];
                             TaskEnd true (Some endNow)]
                        end
                  | None => [TaskEnd false (Some endNow)]
                  end
              | Rejected ex =>
                  let (errorName, errorMessage) := classify_error ex in
                  [TaskAppendOutput [ErrorItem errorName errorMessage];
                   TaskEnd false (Some endNow)]
              end,
           Returns)%list
      end
  end.

(* ================================================================== *)
(** * Part VII. Notions used in the statements and proofs             *)
(* ================================================================== *)

(** ** The order of keys *)

(** Every byte is below EE. *)
Fixpoint all_below_238 (s : string) : bool :=
  match s with
  | EmptyString => true
  | String c r => (N.ltb (N_of_ascii c) 238 && all_below_238 r)%bool
  end.

(** The byte a rank stands for. *)
Definition code_unit_place (c : ascii) : ascii :=
  let n := N_of_ascii c in
  if N.leb 254 n then ascii_of_N (n - 16)
  else if N.leb 238 n then ascii_of_N (n + 2)
  else c.

(** ** Parsing the members of an object *)

Definition after_member (f : nat) (acc : list (string * JsVal)) (k : string)
    (v : JsVal) (tail : string) : result (JsVal * string) :=
  do next <- separator "}"%char tail;
  match next with
  | More r => parse_members f r (obj_set acc k v)
  | Close r => Ok (JObj (obj_set acc k v), r)
  end.

Definition set_all (acc : list (string * JsVal)) (ms : list (string * string))
  : list (string * JsVal) :=
  fold_left (fun a m => obj_set a (fst m) (JStr (snd m))) ms acc.

(** ** Parsers that read their input *)

Definition reads_input (parse : string -> result (JsVal * string)) : Prop :=
  forall s v rest, parse s = Ok (v, rest) -> String.length rest < String.length s.

(** ** Lookup of string properties *)

Definition str_assoc (k : string) (ps : list (string * JsVal)) : option string :=
  match assoc k ps with
  | Some (JStr v) => Some v
  | _ => None
  end.

(** ** Chart metadata *)

Definition extended_properties (results : KustoResponseDataSet) : option Table :=
  find (fun item => String.eqb (name item) "@ExtendedProperties") (tables results).

Definition piechart_metadata : string := dq "{'Visualization':'piechart','Title':'T'}".

(** The chart for a [Visualization] value, as the specification lists
    them. *)
Definition chart_for (visualization : string) (title : JsVal) : option ChartType :=
  if String.eqb visualization "piechart" then Some (Pie title)
  else if String.eqb visualization "barchart" then Some (Bar title Horizontal)
  else if String.eqb visualization "columnchart" then Some (Bar title Vertical)
  else if String.eqb visualization "timechart" then Some (Time title)
  else if String.eqb visualization "linechart" then Some (Time title)
  else None.

Definition title_of (data : JsVal) : JsVal :=
  if truthy (get data "Title") then get data "Title" else JStr "".

(** ** Failures and their names *)

Definition empty_response : KustoResponseDataSet := mkResponse (Some []) [] [].

(** The taxonomy of HTTP statuses, in the order of the specification. *)
Definition taxonomy (status : Z) : string :=
  if Z.eqb status 400 then "Invalid Query"
  else if (Z.eqb status 401 || Z.eqb status 403)%bool then "Authentication Error"
  else if (Z.eqb status 408 || Z.eqb status 504)%bool then "Query Timeout"
  else if Z.leb 500 status then "Server Error"
  else "Query Error".

Definition rejects (run : QueryRun) (ex : Thrown) : Prop :=
  settlement run = Rejected ex /\ token_fires_first run = false.

Definition default_message : JsVal := JStr "Failed to execute query".

(** The message the [catch] block settles on for a response. *)
Definition response_message (response : JsVal) : JsVal :=
  let data := get response "data" in
  if truthy (opt_get data "error")
  then js_or (get (get data "error") "@message")
             (js_or (get (get data "error") "message") default_message)
  else if truthy (opt_get data "message") then get data "message"
  else default_message.

Definition bad_request : Thrown :=
  mkThrown
    (JObj [("response",
            JObj [("status", JNum 400);
                  ("data", JObj [("error", JObj [("code", JStr "E")]);
                                 ("message", JStr "m")])])])
    true.

Definition unauthorized : Thrown :=
  mkThrown (JObj [("response", JObj [("status", JNum 401); ("data", JObj [])])]) true.

(** ** Successful responses *)

Definition fulfils (run : QueryRun) (results : KustoResponseDataSet) : Prop :=
  settlement run = Fulfilled (Some results) /\ isCancellationRequested run = false.

Definition normalized (results : KustoResponseDataSet) : KustoResponseDataSet :=
  drop_PrimaryResult (reconcile_primaryResults results).

Definition other_table : Table :=
  mkTable "Table_1" [mkColumn "x" "long" 0] (KustoRows [[JNum 7]]).

Definition primary_table : Table :=
  mkTable "PrimaryResult" [mkColumn "x" "long" 0] (KustoRows [[JNum 1]; [JNum 2]]).

Definition kept_response : KustoResponseDataSet :=
  mkResponse (Some [other_table]) [primary_table; other_table] ["PrimaryResult"; "Table_1"].

(** ** Sample registry and sample time chart *)

Definition ref_is (c x : Controller) : bool := Nat.eqb (ctl_ref x) (ctl_ref c).

Definition help_connection : IConnectionInfo :=
  AzureAuthenticated "https://help.kusto.windows.net" "help"
                     "https://help.kusto.windows.net" (Some "Samples").

Definition two_kernels : Kernels :=
  mkKernels [mkController 0 "kusto-notebook" help_connection;
             mkController 1 "kusto-notebook" (AppInsights "app" "App")]
            [0; 1] 2.

Definition timespan_columns : list Column :=
  [mkColumn "n" "long" 0; mkColumn "t" "timespan" 1].

Definition later_row : list JsVal := [JNum 1; JStr "00:00:02"].
Definition earlier_row : list JsVal := [JNum 2; JStr "00:00:01"].

(** ** The sunburst grouped by dash-joined id *)














(** ** Views of the accumulating maps *)




Definition regions_table : Table :=
  mkTable "PrimaryResult"
    [mkColumn "region" "string" 0; mkColumn "sub" "string" 1; mkColumn "count" "long" 2]
    (KustoRows [[JStr "A"; JStr "x"; JNum 3];
                [JStr "A"; JStr "y"; JNum 2];
                [JStr "B"; JStr "x"; JNum 5]]).

(** ** Well-formed registries *)

(** Object identities are handed out once: the references of the
    registered controllers are distinct and below the next one. *)
Definition refs_fresh (k : Kernels) : Prop :=
  NoDup (map ctl_ref (registeredControllers k))
  /\ Forall (fun c => ctl_ref c < next_ref k) (registeredControllers k).

(** ** The characters of a token *)

(** A character of the base64 alphabet, or the padding. *)
Definition base64_char (c : ascii) : bool :=
  match index_of c base64_alphabet 0 with
  | Some _ => true
  | None => Ascii.eqb c pad
  end.

Fixpoint all_chars (p : ascii -> bool) (s : string) : bool :=
  match s with
  | EmptyString => true
  | String c r => (p c && all_chars p r)%bool
  end.

(** ** Histories of the registry *)

(** What happens to the module state: a call of [registerController],
    a call of [KernelProvider.register], a connection-changed event. *)
Inductive KernelEvent : Type :=
| CallRegisterController (notebookType : string) (connection : IConnectionInfo)
| CallProviderRegister (InteractiveWindowView : string)
                       (lastUsedConnection : list IConnectionInfo)
| ConnectionChanged (connection : IConnectionInfo) (change : Change).

Definition after_event (k : Kernels) (e : KernelEvent) : Kernels :=
  match e with
  | CallRegisterController notebookType connection =>
      snd (registerController notebookType connection k)
  | CallProviderRegister view lastUsedConnection =>
      KernelProvider_register view lastUsedConnection k
  | ConnectionChanged connection change => onConnectionChanged connection change k
  end.

(** The state after a history of events, from the empty array the
    module starts with. *)
Definition after_events (es : list KernelEvent) : Kernels :=
  fold_left after_event es (mkKernels [] [] 0).

Definition controller_key (c : Controller) : string * IConnectionInfo :=
  (ctl_notebookType c, ctl_connection c).

(** The registry and the host agree, and no key is registered twice. *)
Definition registry_consistent (k : Kernels) : Prop :=
  refs_fresh k
  /\ host_controllers k = map ctl_ref (registeredControllers k)
  /\ NoDup (map controller_key (registeredControllers k)).

(** There is a controller for the notebook type and the connection. *)
Definition registered (notebookType : string) (connection : IConnectionInfo)
    (k : Kernels) : Prop :=
  exists c, In c (registeredControllers k)
            /\ ctl_notebookType c = notebookType /\ ctl_connection c = connection.

(** The three notebook types [KernelProvider.register] serves. *)
Definition served_types (InteractiveWindowView : string) : list string :=
  ["kusto-notebook"; "kusto-notebook-kql"; InteractiveWindowView].

(** ** The task protocol *)

Definition is_end (op : TaskOp) : bool :=
  match op with
  | TaskEnd _ _ => true
  | _ => false
  end.

(** The thrown value carries no response object the [catch] block
    would read. *)
Definition no_response (v : JsVal) : Prop :=
  (has_property "response" v && truthy (get v "response")
   && typeof_object (get v "response"))%bool = false.

(** The bracketed message of [innererror], when there is one. *)
Definition inner_message (v : JsVal) : string :=
  let inner := opt_get (get v "innererror") "message" in
  if truthy inner then " (" ++ ToString inner ++ ")" else "".

(** ** What the renderer reads *)

(** The three cells [getChartType] looks at: ordinals 0, 1 and 2 of the
    first row of the first table named [@ExtendedProperties]. *)
Definition metadata_cells (results : KustoResponseDataSet) : option (JsVal * JsVal * JsVal) :=
  match extended_properties results with
  | Some t =>
      match table_rows t with
      | row0 :: _ => Some (cell row0 0, cell row0 1, cell row0 2)
      | [] => None
      end
  | None => None
  end.

(** The ordinal of every column is its position, as in a table that
    comes from the service. *)
Definition positional (cols : list Column) : Prop :=
  forall pre c post, cols = (pre ++ c :: post)%list ->
                     col_ordinal c = Z.of_nat (List.length pre).

Definition is_long (c : Column) : bool := String.eqb (col_type c) "long".

Definition is_primitive (v : JsVal) : bool :=
  match v with
  | JArr _ | JObj _ => false
  | _ => true
  end.

(** The trace is the series of name [k]. *)
Definition named (k : JsVal) (t : ScatterData) : bool :=
  match scatter_name t with
  | Some n => same_value_zero k n
  | None => false
  end.

(** The number of points of a plot. *)
Definition points (traces : list ScatterData) : nat :=
  fold_right Nat.add 0 (map (fun t => List.length (scatter_x t)) traces).

(** The rows whose cell at [nameIndex] is [k]. *)
Definition rows_named (nameIndex : Z) (k : JsVal) (rows : list (list JsVal))
  : list (list JsVal) :=
  filter (fun row => same_value_zero k (cell_at row nameIndex)) rows.

Definition series_trace (entry : JsVal * (list JsVal * list JsVal)) : ScatterData :=
  mkScatter (Some (fst entry)) (fst (snd entry)) (snd (snd entry)).

Definition series_or_empty (s : option (list JsVal * list JsVal))
  : list JsVal * list JsVal :=
  match s with
  | Some s => s
  | None => ([], [])
  end.

Definition series_points (m : list (JsVal * (list JsVal * list JsVal))) : nat :=
  fold_right Nat.add 0 (map (fun e => List.length (fst (snd e))) m).

Definition series_balanced (m : list (JsVal * (list JsVal * list JsVal))) : Prop :=
  Forall (fun e => List.length (fst (snd e)) = List.length (snd (snd e))) m.

(** ** Rings, datapoints and labels *)

(** The four arrays handed to the plot go together, entry by entry. *)
Definition parallel (s : Sunburst) : Prop :=
  List.length (labels s) = List.length (ids s)
  /\ List.length (parents s) = List.length (ids s)
  /\ List.length (values s) = List.length (ids s).

(** A cell without a [toString]: [null], [undefined], or a cell the
    row does not have. *)
Definition no_toString (v : JsVal) : Prop := v = JNull \/ v = JUndefined.





(** The column of name [k], for a name that is not empty. *)
Definition named_column (k : string) (c : Column) : bool :=
  (negb (String.eqb (col_name c) "") && String.eqb (col_name c) k)%bool.

(** What a datapoint holds under [k]: the cell of the last column of
    that name. *)
Definition datapoint_value (cols : list Column) (raw : list JsVal) (k : string) : JsVal :=
  match find (named_column k) (rev cols) with
  | Some c => cell_at raw (col_ordinal c)
  | None => JUndefined
  end.

Definition no_proto_column (cols : list Column) : Prop :=
  forall c, In c cols -> col_name c <> "__proto__".

(** The database a connection info effectively names: an empty name
    counts as none. *)
Definition effective_database (info : IConnectionInfo) : option string :=
  match info with
  | AzureAuthenticated _ _ _ (Some d) => if String.eqb d "" then None else Some d
  | _ => None
  end.

(** ** The sunburst as aggregation over path prefixes *)













(* ================================================================== *)
(** * Part VIII. Properties                                            *)
(* ================================================================== *)

(** ** Base64 *)

Lemma char_sextet_char (s : sextet) : char_sextet (sextet_char s) = Some s.
Proof.
  destruct s as [[[[[b5 b4] b3] b2] b1] b0].
  destruct b5, b4, b3, b2, b1, b0; reflexivity.
Qed.

Lemma char_sextet_pad : char_sextet pad = None.
Proof. reflexivity. Qed.

Lemma base64_group (a b c : ascii) (rest : string) :
  base64ToString (stringToBase64 (String a (String b (String c rest))))
  = do tail <- base64ToString (stringToBase64 rest);
    Ok (String a (String b (String c tail))).
Proof.
  destruct a as [a0 a1 a2 a3 a4 a5 a6 a7].
  destruct b as [b0 b1 b2 b3 b4 b5 b6 b7].
  destruct c as [c0 c1 c2 c3 c4 c5 c6 c7].
  cbn [stringToBase64 base64ToString].
  rewrite !char_sextet_char.
  reflexivity.
Qed.

Lemma base64_roundtrip_bounded (n : nat) :
  forall s, String.length s <= n -> base64ToString (stringToBase64 s) = Ok s.
Proof.
  induction n as [n IH] using lt_wf_ind.
  intros s Hlen.
  destruct s as [|a [|b [|c rest]]].
  - reflexivity.
  - destruct a as [a0 a1 a2 a3 a4 a5 a6 a7].
    cbn [stringToBase64 base64ToString].
    rewrite !char_sextet_char, char_sextet_pad. reflexivity.
  - destruct a as [a0 a1 a2 a3 a4 a5 a6 a7].
    destruct b as [b0 b1 b2 b3 b4 b5 b6 b7].
    cbn [stringToBase64 base64ToString].
    rewrite !char_sextet_char, char_sextet_pad. reflexivity.
  - rewrite base64_group.
    rewrite (IH (String.length rest)); [reflexivity | simpl in Hlen; lia | lia].
Qed.

Lemma base64_roundtrip (s : string) : base64ToString (stringToBase64 s) = Ok s.
Proof. exact (base64_roundtrip_bounded (String.length s) s (le_n _)). Qed.

(** ** The order of keys and [sort] *)

Lemma compare_not_Gt_trans (a : string) :
  forall b c, String.compare a b <> Gt -> String.compare b c <> Gt ->
              String.compare a c <> Gt.
Proof.
  induction a as [|x a IH]; intros [|y b] [|z c]; simpl; try congruence.
  unfold Ascii.compare.
  destruct (N.compare_spec (N_of_ascii x) (N_of_ascii y)) as [Exy|Lxy|Gxy];
    destruct (N.compare_spec (N_of_ascii y) (N_of_ascii z)) as [Eyz|Lyz|Gyz];
    try congruence; intros Hab Hbc.
  - rewrite Exy, Eyz, N.compare_refl. now apply (IH b c).
  - rewrite Exy. now apply N.compare_lt_iff in Lyz as ->.
  - rewrite <- Eyz. now apply N.compare_lt_iff in Lxy as ->.
  - assert (L : (N_of_ascii x < N_of_ascii z)%N) by lia.
    now apply N.compare_lt_iff in L as ->.
Qed.

Lemma key_le_trans (a b c : string) : key_le a b -> key_le b c -> key_le a c.
Proof.
  unfold key_le, code_unit_leb, String.leb. intros Hab Hbc.
  pose proof (compare_not_Gt_trans (code_unit_key a) (code_unit_key b) (code_unit_key c)) as H.
  destruct (String.compare (code_unit_key a) (code_unit_key b)); try discriminate;
    destruct (String.compare (code_unit_key b) (code_unit_key c)); try discriminate;
    destruct (String.compare (code_unit_key a) (code_unit_key c)); try reflexivity;
    exfalso; apply H; congruence.
Qed.

Lemma key_le_total (a b : string) : key_le a b \/ key_le b a.
Proof. apply String.leb_total. Qed.

Lemma code_unit_rank_back (c : ascii) : code_unit_place (code_unit_rank c) = c.
Proof. destruct c as [[] [] [] [] [] [] [] []]; reflexivity. Qed.

Lemma code_unit_rank_inj (c d : ascii) : code_unit_rank c = code_unit_rank d -> c = d.
Proof.
  intros E. rewrite <- (code_unit_rank_back c), <- (code_unit_rank_back d), E. reflexivity.
Qed.

Lemma code_unit_key_inj (a : string) : forall b, code_unit_key a = code_unit_key b -> a = b.
Proof.
  induction a as [|c a IH]; intros [|d b] E; try discriminate E; [reflexivity |].
  cbn in E. injection E as Ec E. f_equal; [apply code_unit_rank_inj, Ec | apply IH, E].
Qed.

Lemma key_le_antisym (a b : string) : key_le a b -> key_le b a -> a = b.
Proof.
  unfold key_le, code_unit_leb. intros Hab Hba.
  apply code_unit_key_inj, String.leb_antisym; assumption.
Qed.

Lemma code_unit_rank_ascii (c : ascii) : (N_of_ascii c < 238)%N -> code_unit_rank c = c.
Proof.
  intros H. unfold code_unit_rank.
  destruct (N.leb_spec 238 (N_of_ascii c)); [lia |].
  destruct (N.leb_spec 240 (N_of_ascii c)); [lia | reflexivity].
Qed.

Lemma insert_sorted_perm (k : string) (l : list string) :
  Permutation (k :: l) (insert_sorted k l).
Proof.
  induction l as [|x r IH]; simpl.
  - apply Permutation_refl.
  - destruct (code_unit_leb k x).
    + apply Permutation_refl.
    + eapply perm_trans; [apply perm_swap | now apply perm_skip].
Qed.

Lemma sort_perm (l : list string) : Permutation l (sort l).
Proof.
  induction l as [|x r IH]; simpl.
  - constructor.
  - eapply perm_trans; [apply perm_skip, IH | apply insert_sorted_perm].
Qed.

Lemma insert_sorted_sorted (k : string) (l : list string) :
  StronglySorted key_le l -> StronglySorted key_le (insert_sorted k l).
Proof.
  induction 1 as [|x r Hr IH Hx]; simpl.
  - repeat constructor.
  - destruct (code_unit_leb k x) eqn:E.
    + constructor; [now constructor|].
      constructor; [exact E|].
      eapply Forall_impl; [|exact Hx].
      intros y Hy. now apply key_le_trans with x.
    + constructor; [exact IH|].
      assert (Hxk : key_le x k).
      { destruct (key_le_total k x) as [H|H]; [unfold key_le in H; congruence | exact H]. }
      eapply Permutation_Forall; [apply insert_sorted_perm|].
      now constructor.
Qed.

Lemma sort_sorted (l : list string) : StronglySorted key_le (sort l).
Proof.
  induction l as [|x r IH]; simpl.
  - constructor.
  - now apply insert_sorted_sorted.
Qed.

Lemma sorted_perm_unique (l : list string) :
  forall l', StronglySorted key_le l -> StronglySorted key_le l' ->
             Permutation l l' -> l = l'.
Proof.
  induction l as [|x r IH]; intros l' Hl Hl' P.
  - now apply Permutation_nil in P.
  - destruct l' as [|y r'].
    + apply Permutation_sym, Permutation_nil in P. discriminate.
    + inversion Hl as [|? ? Hr Hx]; subst.
      inversion Hl' as [|? ? Hr' Hy]; subst.
      assert (x = y) as ->.
      { assert (Iy : In y (x :: r)) by (eapply Permutation_in; [apply Permutation_sym, P | now left]).
        assert (Ix : In x (y :: r')) by (eapply Permutation_in; [apply P | now left]).
        destruct Iy as [->|Iy]; [reflexivity|].
        destruct Ix as [->|Ix]; [reflexivity|].
        rewrite Forall_forall in Hx, Hy.
        apply key_le_antisym; auto. }
      f_equal. apply IH; auto. now apply Permutation_cons_inv in P.
Qed.

Lemma sort_permutation_invariant (l l' : list string) :
  Permutation l l' -> sort l = sort l'.
Proof.
  intros P. apply sorted_perm_unique; try apply sort_sorted.
  eapply perm_trans; [apply Permutation_sym, sort_perm|].
  eapply perm_trans; [exact P | apply sort_perm].
Qed.

Lemma sort_of_sorted (l : list string) : StronglySorted key_le l -> sort l = l.
Proof.
  intros H. apply sorted_perm_unique; auto using sort_sorted.
  apply Permutation_sym, sort_perm.
Qed.

(** ** The order of [sort] on plain and on astral keys *)

Lemma code_unit_key_plain (s : string) :
  all_below_238 s = true -> code_unit_key s = s.
Proof.
  induction s as [|c s IH]; cbn; [reflexivity |].
  intros H. apply andb_prop in H as [Hc Hs]. apply N.ltb_lt in Hc.
  rewrite (code_unit_rank_ascii c Hc), (IH Hs). reflexivity.
Qed.

(** On keys without a byte from EE on, and so on every ASCII key, the
    order of [sort] is the order of the bytes. *)
Lemma code_unit_leb_plain (a b : string) :
  all_below_238 a = true -> all_below_238 b = true ->
  code_unit_leb a b = String.leb a b.
Proof.
  intros Ha Hb. unfold code_unit_leb.
  rewrite (code_unit_key_plain a Ha), (code_unit_key_plain b Hb). reflexivity.
Qed.

(** U+10000 (bytes F0 90 80 80, code units D800 DC00) sorts before
    U+FFFF (bytes EF BF BF, code unit FFFF), against the order of the
    bytes. *)
Lemma code_unit_leb_astral :
  code_unit_leb (String "240" (String "144" (String "128" (String "128" EmptyString))))
                (String "239" (String "191" (String "191" EmptyString))) = true
  /\ String.leb (String "240" (String "144" (String "128" (String "128" EmptyString))))
                (String "239" (String "191" (String "191" EmptyString))) = false.
Proof. split; reflexivity. Qed.

(** ** Strings *)

Lemma append_assoc (a b c : string) : (a ++ b) ++ c = a ++ (b ++ c).
Proof. induction a as [|x a IH]; simpl; [reflexivity | now rewrite IH]. Qed.

Lemma append_length (a b : string) :
  String.length (a ++ b) = String.length a + String.length b.
Proof. induction a as [|x a IH]; simpl; [reflexivity | now rewrite IH]. Qed.

(** ** String literals read back *)

Lemma parse_quote_char (c : ascii) (tail : string) :
  parse_string_body (quote_char c ++ tail)
  = do (t, rest) <- parse_string_body tail; Ok (String c t, rest).
Proof.
  destruct c as [[] [] [] [] [] [] [] []]; reflexivity.
Qed.

Lemma parse_quote_body (s : string) (rest : string) :
  parse_string_body (quote_body s ++ String dquote rest) = Ok (s, rest).
Proof.
  induction s as [|c s IH]; simpl.
  - reflexivity.
  - rewrite append_assoc, parse_quote_char, IH. reflexivity.
Qed.

Lemma quote_unfold (s tail : string) :
  quote s ++ tail = String dquote (quote_body s ++ String dquote tail).
Proof. unfold quote. simpl. now rewrite append_assoc. Qed.

Lemma parse_value_quoted (f : nat) (r : string) :
  parse_value (S f) (String dquote r)
  = do (str, rest) <- parse_string_body r; Ok (JStr str, rest).
Proof. reflexivity. Qed.

Lemma parse_value_string (f : nat) (v tail : string) :
  parse_value (S f) (quote v ++ tail) = Ok (JStr v, tail).
Proof.
  rewrite quote_unfold, parse_value_quoted, parse_quote_body. reflexivity.
Qed.

Lemma separator_more (close : ascii) (s : string) :
  separator close (String ","%char s) = Ok (More s).
Proof. reflexivity. Qed.

Lemma separator_close (s : string) :
  separator "}"%char (String "}"%char s) = Ok (Close s).
Proof. reflexivity. Qed.

Lemma parse_members_quoted (f : nat) (r : string) (acc : list (string * JsVal)) :
  parse_members (S f) (String dquote r) acc
  = do (k, r1) <- parse_string_body r;
    match skip_ws r1 with
    | String c1 r2 =>
        if Ascii.eqb c1 ":"%char
        then do (v, r3) <- parse_value f r2; after_member f acc k v r3
        else Throw SyntaxError
    | EmptyString => Throw SyntaxError
    end.
Proof. reflexivity. Qed.

Lemma parse_member (f : nat) (k v tail : string) (acc : list (string * JsVal)) :
  parse_members (S (S f)) (member_text (k, v) ++ tail) acc
  = after_member (S f) acc k (JStr v) tail.
Proof.
  unfold member_text. cbn [fst snd].
  rewrite append_assoc, quote_unfold, parse_members_quoted, parse_quote_body.
  cbn [bind].
  change (":" ++ quote v) with (String ":"%char (quote v)).
  change (skip_ws (String ":"%char (quote v) ++ tail))
    with (String ":"%char (quote v ++ tail)).
  change (Ascii.eqb ":"%char ":"%char) with true. cbv iota.
  rewrite parse_value_string. reflexivity.
Qed.

Lemma parse_member_list (ms : list (string * string)) :
  forall f m acc rest,
    List.length ms <= f ->
    parse_members (S (S f))
      (join "," (map member_text (m :: ms)) ++ String "}"%char rest) acc
    = Ok (JObj (set_all acc (m :: ms)), rest).
Proof.
  induction ms as [|m' ms IH]; intros f [k v] acc rest Hf.
  - cbn [map join]. rewrite parse_member. unfold after_member.
    rewrite separator_close. reflexivity.
  - change (join "," (map member_text ((k, v) :: m' :: ms)))
      with (member_text (k, v) ++ "," ++ join "," (map member_text (m' :: ms))).
    rewrite !append_assoc. rewrite parse_member. unfold after_member.
    change ("," ++ join "," (map member_text (m' :: ms)) ++ String "}"%char rest)
      with (String ","%char (join "," (map member_text (m' :: ms)) ++ String "}"%char rest)).
    rewrite separator_more. cbn [bind].
    destruct f as [|f]; [simpl in Hf; lia|].
    rewrite IH by (simpl in Hf; lia). reflexivity.
Qed.

Lemma member_text_nonempty (m : string * string) :
  exists c r, member_text m = String c r.
Proof. destruct m as [k v]. unfold member_text, quote. simpl. eauto. Qed.

Lemma parse_object_text (ms : list (string * string)) (f : nat) (rest : string) :
  List.length ms <= f ->
  parse_value (S (S f)) (object_text ms ++ rest) = Ok (JObj (set_all [] ms), rest).
Proof.
  intros Hf. unfold object_text.
  destruct ms as [|[k v] ms].
  - reflexivity.
  - rewrite !append_assoc.
    change ("{" ++ ?x) with (String "{"%char x).
    cbn [append].
    change (String "{"%char
             (join "," (map member_text ((k, v) :: ms)) ++ String "}"%char rest))
      with (String "{"%char
             (join "," (map member_text ((k, v) :: ms)) ++ String "}"%char rest)).
    assert (E : exists r, join "," (map member_text ((k, v) :: ms)) ++ String "}"%char rest
                          = String dquote r).
    { destruct ms; cbn [map join]; unfold member_text, quote; simpl; eauto. }
    destruct E as [r E].
    cbn -[parse_members join map].
    rewrite E at 1. cbn -[parse_members join map].
    destruct f as [|f]; [simpl in Hf; lia|].
    rewrite parse_member_list by (simpl in Hf; lia). reflexivity.
Qed.

(** ** Objects with distinct keys *)

Lemma assoc_In_fst {A : Type} (k : string) (l : list (string * A)) (v : A) :
  assoc k l = Some v -> In k (map fst l).
Proof.
  induction l as [|[k' v'] r IH]; simpl; [discriminate|].
  destruct (String.eqb_spec k k'); [now left | right; auto].
Qed.

Lemma assoc_None {A : Type} (k : string) (l : list (string * A)) :
  ~ In k (map fst l) -> assoc k l = None.
Proof.
  induction l as [|[k' v'] r IH]; simpl; [reflexivity|].
  intros H. destruct (String.eqb_spec k k'); [subst; tauto | apply IH; tauto].
Qed.

Lemma assoc_In {A : Type} (k : string) (v : A) (l : list (string * A)) :
  NoDup (map fst l) -> In (k, v) l -> assoc k l = Some v.
Proof.
  induction l as [|[k' v'] r IH]; simpl; [tauto|].
  intros ND [E|I].
  - inversion E; subst. now rewrite String.eqb_refl.
  - inversion ND as [|? ? Hk Hr]; subst.
    destruct (String.eqb_spec k k') as [->|_]; [|auto].
    exfalso. apply Hk. change k' with (fst (k', v)). now apply in_map.
Qed.

Lemma assoc_permutation {A : Type} (k : string) (l l' : list (string * A)) :
  NoDup (map fst l) -> Permutation l l' -> assoc k l = assoc k l'.
Proof.
  intros ND P.
  assert (ND' : NoDup (map fst l')).
  { eapply Permutation_NoDup; [apply Permutation_map, P | exact ND]. }
  destruct (assoc k l) as [v|] eqn:E.
  - symmetry. apply assoc_In; auto.
    eapply Permutation_in; [exact P|].
    clear -E. induction l as [|[k' v'] r IH]; simpl in *; [discriminate|].
    destruct (String.eqb_spec k k') as [->|_]; [left; congruence | right; auto].
  - destruct (assoc k l') as [v|] eqn:E'; [|reflexivity].
    apply assoc_In_fst in E'.
    assert (I : In k (map fst l)).
    { eapply Permutation_in; [apply Permutation_sym, Permutation_map, P | exact E']. }
    clear -E I. exfalso.
    induction l as [|[k' v'] r IH]; simpl in *; [tauto|].
    destruct (String.eqb_spec k k'); [discriminate|].
    destruct I; [congruence | auto].
Qed.

Lemma obj_set_fresh (ps : list (string * JsVal)) (k : string) (v : JsVal) :
  ~ In k (map fst ps) -> obj_set ps k v = (ps ++ [(k, v)])%list.
Proof.
  induction ps as [|[k' v'] r IH]; simpl; [reflexivity|].
  intros H. destruct (String.eqb_spec k k'); [subst; tauto|].
  rewrite IH by tauto. reflexivity.
Qed.

Lemma string_props_keys (ms : list (string * string)) :
  map fst (string_props ms) = map fst ms.
Proof. unfold string_props. rewrite map_map. reflexivity. Qed.

Lemma set_all_distinct (ms : list (string * string)) :
  forall acc, NoDup (map fst acc ++ map fst ms)%list ->
              set_all acc ms = (acc ++ string_props ms)%list.
Proof.
  induction ms as [|[k v] ms IH]; intros acc ND; cbn.
  - now rewrite app_nil_r.
  - fold (set_all (obj_set acc k (JStr v)) ms).
    assert (Hk : ~ In k (map fst acc)).
    { intros I. apply NoDup_remove_2 in ND. apply ND, in_or_app. now left. }
    rewrite obj_set_fresh by exact Hk.
    rewrite IH.
    + now rewrite <- app_assoc.
    + rewrite map_app. cbn. rewrite <- app_assoc. exact ND.
Qed.

Lemma object_text_length (ms : list (string * string)) :
  List.length ms + 2 <= String.length (object_text ms).
Proof.
  unfold object_text. change ("{" ++ ?x) with (String "{"%char x). cbn [String.length append].
  rewrite append_length. cbn [String.length].
  enough (List.length ms <= String.length (join "," (map member_text ms))) by lia.
  induction ms as [|m ms IH]; [simpl; lia|].
  destruct (member_text_nonempty m) as (c & r & E).
  destruct ms as [|m' ms].
  - cbn [map join]. rewrite E. simpl. lia.
  - change (join "," (map member_text (m :: m' :: ms)))
      with (member_text m ++ "," ++ join "," (map member_text (m' :: ms))).
    rewrite !append_length, E. cbn [String.length List.length] in *. lia.
Qed.

Lemma JSON_parse_object_text (ms : list (string * string)) :
  NoDup (map fst ms) ->
  JSON_parse (object_text ms) = Ok (JObj (string_props ms)).
Proof.
  intros ND. unfold JSON_parse.
  pose proof (object_text_length ms) as L.
  replace (2 * String.length (object_text ms) + 2)
    with (S (S (2 * String.length (object_text ms)))) by lia.
  replace (object_text ms) with (object_text ms ++ "") at 2.
  2:{ clear. induction (object_text ms); simpl; congruence. }
  rewrite parse_object_text by lia.
  cbn [bind skip_ws]. now rewrite set_all_distinct.
Qed.

(** ** [JSON.stringify] on flat objects *)

Lemma assoc_map_snd {A B : Type} (g : A -> B) (k : string) (l : list (string * A)) :
  assoc k (map (fun kv => (fst kv, g (snd kv))) l) = option_map g (assoc k l).
Proof.
  induction l as [|[k' v'] r IH]; simpl; [reflexivity|].
  destruct (String.eqb k k'); [reflexivity | exact IH].
Qed.

Lemma assoc_flat (k : string) (ps : list (string * JsVal)) (v : JsVal) :
  flat ps -> assoc k ps = Some v -> flat_value v.
Proof.
  induction 1 as [|[k' v'] r Hv Hr IH]; simpl; [discriminate|].
  destruct (String.eqb k k'); [intros [= <-]; exact Hv | exact IH].
Qed.

Lemma printed_members (K0 K : list string) (ps : list (string * JsVal)) :
  flat ps ->
  flat_map (fun k => match assoc k (map (fun kv => (fst kv, stringify K0 (snd kv))) ps) with
                     | Some (Some t) => [quote k ++ ":" ++ t]
                     | _ => []
                     end) K
  = map member_text (string_members K ps).
Proof.
  intros F. induction K as [|k K IH]; [reflexivity|].
  cbn [flat_map string_members].
  rewrite assoc_map_snd.
  destruct (assoc k ps) as [v|] eqn:E; cbn [option_map].
  - pose proof (assoc_flat k ps v F E) as Fv.
    destruct v; try contradiction; cbn [stringify].
    + exact IH.
    + cbn [map app]. rewrite IH. reflexivity.
  - exact IH.
Qed.

Lemma stringify_flat (K : list string) (ps : list (string * JsVal)) :
  flat ps -> stringify K (JObj ps) = Some (object_text (string_members K ps)).
Proof.
  intros F. cbn [stringify]. rewrite printed_members by exact F. reflexivity.
Qed.

(** ** The parser reads what it consumes: fuel *)

Lemma skip_ws_length (s : string) : String.length (skip_ws s) <= String.length s.
Proof.
  induction s as [|c r IH]; cbn; [lia|].
  destruct (is_ws c); cbn; lia.
Qed.

Lemma skip_ws_char (s : string) (c : ascii) (r : string) :
  skip_ws s = String c r -> String.length r < String.length s.
Proof.
  intros E. pose proof (skip_ws_length s) as L. rewrite E in L. cbn in L. lia.
Qed.

Lemma parse_string_body_length_bounded (n : nat) :
  forall s t rest, String.length s <= n -> parse_string_body s = Ok (t, rest) ->
                   String.length rest < String.length s.
Proof.
  induction n as [n IH] using lt_wf_ind.
  intros s t rest Hn. destruct s as [|c r]; cbn [parse_string_body]; [discriminate|].
  cbn in Hn.
  destruct (Ascii.eqb c dquote). { intros [= _ <-]. cbn. lia. }
  destruct (Ascii.eqb c backslash).
  - destruct r as [|e r1]; [discriminate|].
    destruct (Ascii.eqb e "u"%char).
    + destruct r1 as [|h1 [|h2 [|h3 [|h4 r2]]]]; try discriminate.
      destruct (unicode_escape h1 h2 h3 h4); cbn [bind]; [|discriminate].
      destruct (parse_string_body r2) as [[t' rest']|] eqn:E; cbn [bind]; [|discriminate].
      intros [= _ <-]. apply (IH (String.length r2)) in E; cbn in *; lia.
    + destruct (simple_escape e); cbn [bind]; [|discriminate].
      destruct (parse_string_body r1) as [[t' rest']|] eqn:E; cbn [bind]; [|discriminate].
      intros [= _ <-]. apply (IH (String.length r1)) in E; cbn in *; lia.
  - destruct (N.ltb (N_of_ascii c) 32); [discriminate|].
    destruct (parse_string_body r) as [[t' rest']|] eqn:E; cbn [bind]; [|discriminate].
    intros [= _ <-]. apply (IH (String.length r)) in E; cbn in *; lia.
Qed.

Lemma parse_string_body_length (s t rest : string) :
  parse_string_body s = Ok (t, rest) -> String.length rest < String.length s.
Proof. apply (parse_string_body_length_bounded (String.length s)). lia. Qed.

Lemma span_digits_length (s : string) :
  String.length (fst (span_digits s)) + String.length (snd (span_digits s))
  = String.length s.
Proof.
  induction s as [|c r IH]; cbn; [reflexivity|].
  destruct (is_digit c); cbn; [|reflexivity].
  destruct (span_digits r); cbn in *. lia.
Qed.

Lemma parse_unsigned_length (s : string) (n : Z) (rest : string) :
  parse_unsigned s = Ok (n, rest) -> String.length rest < String.length s.
Proof.
  unfold parse_unsigned. pose proof (span_digits_length s) as L.
  destruct (span_digits s) as [[|d ds] r]; [discriminate|]. cbn in L.
  destruct (Ascii.eqb d "0"%char && negb (String.eqb ds ""))%bool.
  - intros [= _ <-]. rewrite append_length. lia.
  - destruct (starts_fraction_or_exponent r); [discriminate|].
    destruct (digits_value _ _); [|discriminate].
    intros [= _ <-]. lia.
Qed.

Lemma strip_prefix_length (lit : string) :
  forall s rest, strip_prefix lit s = Some rest ->
                 String.length rest + String.length lit = String.length s.
Proof.
  induction lit as [|c l IH]; intros s rest; cbn.
  - intros [= <-]. lia.
  - destruct s as [|d r]; [discriminate|].
    destruct (Ascii.eqb c d); [|discriminate].
    intros E. apply IH in E. cbn. lia.
Qed.

Lemma expect_length (lit : string) (v v' : JsVal) (s rest : string) :
  lit <> "" -> expect lit v s = Ok (v', rest) -> String.length rest < String.length s.
Proof.
  unfold expect. intros N. destruct (strip_prefix lit s) eqn:E; [|discriminate].
  intros [= _ <-]. apply strip_prefix_length in E.
  destruct lit; [congruence|]. cbn in E. lia.
Qed.

Lemma separator_length (close : ascii) (s : string) (next : Next) :
  separator close s = Ok next ->
  match next with
  | More r | Close r => String.length r < String.length s
  end.
Proof.
  unfold separator. destruct (skip_ws s) as [|c r] eqn:E; [discriminate|].
  apply skip_ws_char in E.
  destruct (Ascii.eqb c ","%char); [intros [= <-]; exact E|].
  destruct (Ascii.eqb c close); [intros [= <-]; exact E | discriminate].
Qed.

(** One step of each of the three mutually recursive functions. *)
Lemma parse_value_step (f : nat) (s : string) :
  parse_value (S f) s
  = match skip_ws s with
    | EmptyString => Throw SyntaxError
    | String c r as t =>
        if Ascii.eqb c "{"%char then
          match skip_ws r with
          | String c' r' =>
              if Ascii.eqb c' "}"%char then Ok (JObj [], r')
              else parse_members f r []
          | EmptyString => Throw SyntaxError
          end
        else if Ascii.eqb c "["%char then
          match skip_ws r with
          | String c' r' =>
              if Ascii.eqb c' "]"%char then Ok (JArr [], r')
              else parse_elements f r []
          | EmptyString => Throw SyntaxError
          end
        else if Ascii.eqb c dquote then
          do (str, rest) <- parse_string_body r;
          Ok (JStr str, rest)
        else if Ascii.eqb c "t"%char then expect "true" (JBool true) t
        else if Ascii.eqb c "f"%char then expect "false" (JBool false) t
        else if Ascii.eqb c "n"%char then expect "null" JNull t
        else if Ascii.eqb c "-"%char then
          do (n, rest) <- parse_unsigned r;
          Ok (JNum (- n), rest)
        else
          do (n, rest) <- parse_unsigned t;
          Ok (JNum n, rest)
    end.
Proof. reflexivity. Qed.

Lemma parse_members_step (f : nat) (s : string) (acc : list (string * JsVal)) :
  parse_members (S f) s acc
  = match skip_ws s with
    | String c r =>
        if Ascii.eqb c dquote then
          do (k, r1) <- parse_string_body r;
          match skip_ws r1 with
          | String c1 r2 =>
              if Ascii.eqb c1 ":"%char
              then do (v, r3) <- parse_value f r2; after_member f acc k v r3
              else Throw SyntaxError
          | EmptyString => Throw SyntaxError
          end
        else Throw SyntaxError
    | EmptyString => Throw SyntaxError
    end.
Proof. reflexivity. Qed.

Lemma parse_elements_step (f : nat) (s : string) (acc : list JsVal) :
  parse_elements (S f) s acc
  = do (v, r1) <- parse_value f s;
    do next <- separator "]"%char r1;
    match next with
    | More r2 => parse_elements f r2 (acc ++ [v])%list
    | Close r2 => Ok (JArr (acc ++ [v])%list, r2)
    end.
Proof. reflexivity. Qed.

Lemma parsers_read_input (f : nat) :
  reads_input (parse_value f)
  /\ (forall acc, reads_input (fun s => parse_members f s acc))
  /\ (forall acc, reads_input (fun s => parse_elements f s acc)).
Proof.
  induction f as [|f (IHv & IHm & IHe)].
  - repeat split; intros; intros s v rest; discriminate.
  - assert (V : reads_input (parse_value (S f))).
    { intros s v rest. rewrite parse_value_step.
      destruct (skip_ws s) as [|c r] eqn:E; [discriminate|].
      pose proof (skip_ws_length s) as Ls. rewrite E in Ls. cbn in Ls.
      destruct (Ascii.eqb c "{"%char).
      { destruct (skip_ws r) as [|c' r'] eqn:E'; [discriminate|].
        apply skip_ws_char in E'.
        destruct (Ascii.eqb c' "}"%char); [intros [= _ <-]; lia|].
        intros H. apply IHm in H. lia. }
      destruct (Ascii.eqb c "["%char).
      { destruct (skip_ws r) as [|c' r'] eqn:E'; [discriminate|].
        apply skip_ws_char in E'.
        destruct (Ascii.eqb c' "]"%char); [intros [= _ <-]; lia|].
        intros H. apply IHe in H. lia. }
      destruct (Ascii.eqb c dquote).
      { destruct (parse_string_body r) as [[t rest']|] eqn:B; cbn [bind]; [|discriminate].
        intros [= _ <-]. apply parse_string_body_length in B. lia. }
      destruct (Ascii.eqb c "t"%char).
      { intros H. apply expect_length in H; [cbn in H; lia | discriminate]. }
      destruct (Ascii.eqb c "f"%char).
      { intros H. apply expect_length in H; [cbn in H; lia | discriminate]. }
      destruct (Ascii.eqb c "n"%char).
      { intros H. apply expect_length in H; [cbn in H; lia | discriminate]. }
      destruct (Ascii.eqb c "-"%char).
      { destruct (parse_unsigned r) as [[n rest']|] eqn:U; cbn [bind]; [|discriminate].
        intros [= _ <-]. apply parse_unsigned_length in U. lia. }
      cbv zeta.
      destruct (parse_unsigned (String c r)) as [[n rest']|] eqn:U; cbn [bind]; [|discriminate].
      intros [= _ <-]. apply parse_unsigned_length in U. cbn in U. lia. }
    split; [exact V|]. split.
    + intros acc s v rest. cbn beta. rewrite parse_members_step.
      destruct (skip_ws s) as [|c r] eqn:E; [discriminate|].
      apply skip_ws_char in E.
      destruct (Ascii.eqb c dquote); [|discriminate].
      destruct (parse_string_body r) as [[k r1]|] eqn:B; cbn [bind]; [|discriminate].
      apply parse_string_body_length in B.
      destruct (skip_ws r1) as [|c1 r2] eqn:E1; [discriminate|].
      apply skip_ws_char in E1.
      destruct (Ascii.eqb c1 ":"%char); [|discriminate].
      destruct (parse_value f r2) as [[v' r3]|] eqn:P; cbn [bind]; [|discriminate].
      apply IHv in P. unfold after_member.
      destruct (separator "}"%char r3) as [next|] eqn:S; cbn [bind]; [|discriminate].
      apply separator_length in S.
      destruct next as [r4|r4].
      * intros H. apply IHm in H. lia.
      * intros [= _ <-]. lia.
    + intros acc s v rest. cbn beta. rewrite parse_elements_step.
      destruct (parse_value f s) as [[v' r1]|] eqn:P; cbn [bind]; [|discriminate].
      apply IHv in P.
      destruct (separator "]"%char r1) as [next|] eqn:S; cbn [bind]; [|discriminate].
      apply separator_length in S.
      destruct next as [r2|r2].
      * intros H. apply IHe in H. lia.
      * intros [= _ <-]. lia.
Qed.

(** With fuel for twice the text, more fuel changes nothing. *)
Lemma fuel_is_enough (f : nat) :
  forall f',
    (forall s, 2 * String.length s + 2 <= f -> 2 * String.length s + 2 <= f' ->
               parse_value f s = parse_value f' s)
    /\ (forall s acc, 2 * String.length s + 1 <= f -> 2 * String.length s + 1 <= f' ->
                      parse_members f s acc = parse_members f' s acc)
    /\ (forall s acc, 2 * String.length s + 3 <= f -> 2 * String.length s + 3 <= f' ->
                      parse_elements f s acc = parse_elements f' s acc).
Proof.
  induction f as [|f IH]; intros f'.
  - repeat split; intros; lia.
  - destruct f' as [|f']; [repeat split; intros; lia|].
    destruct (IH f') as (IHv & IHm & IHe).
    split; [|split].
    + intros s Hf Hf'. rewrite !parse_value_step.
      destruct (skip_ws s) as [|c r] eqn:E; [reflexivity|].
      pose proof (skip_ws_length s) as Ls. rewrite E in Ls. cbn in Ls.
      destruct (Ascii.eqb c "{"%char).
      { destruct (skip_ws r) as [|c' r'] eqn:E'; [reflexivity|].
        destruct (Ascii.eqb c' "}"%char); [reflexivity|].
        apply IHm; lia. }
      destruct (Ascii.eqb c "["%char).
      { destruct (skip_ws r) as [|c' r'] eqn:E'; [reflexivity|].
        destruct (Ascii.eqb c' "]"%char); [reflexivity|].
        apply IHe; lia. }
      reflexivity.
    + intros s acc Hf Hf'. rewrite !parse_members_step.
      destruct (skip_ws s) as [|c r] eqn:E; [reflexivity|].
      apply skip_ws_char in E.
      destruct (Ascii.eqb c dquote); [|reflexivity].
      destruct (parse_string_body r) as [[k r1]|] eqn:B; cbn [bind]; [|reflexivity].
      apply parse_string_body_length in B.
      destruct (skip_ws r1) as [|c1 r2] eqn:E1; [reflexivity|].
      apply skip_ws_char in E1.
      destruct (Ascii.eqb c1 ":"%char); [|reflexivity].
      rewrite (IHv r2) by lia.
      destruct (parse_value f' r2) as [[v' r3]|] eqn:P; cbn [bind]; [|reflexivity].
      apply (proj1 (parsers_read_input f')) in P. unfold after_member.
      destruct (separator "}"%char r3) as [next|] eqn:S; cbn [bind]; [|reflexivity].
      apply separator_length in S.
      destruct next as [r4|r4]; [|reflexivity].
      apply IHm; lia.
    + intros s acc Hf Hf'. rewrite !parse_elements_step.
      rewrite (IHv s) by lia.
      destruct (parse_value f' s) as [[v' r1]|] eqn:P; cbn [bind]; [|reflexivity].
      apply (proj1 (parsers_read_input f')) in P.
      destruct (separator "]"%char r1) as [next|] eqn:S; cbn [bind]; [|reflexivity].
      apply separator_length in S.
      destruct next as [r2|r2]; [|reflexivity].
      apply IHe; lia.
Qed.

(** [JSON_parse] gives the parser all the fuel it can use. *)
Lemma JSON_parse_fuel (text : string) (f : nat) :
  2 * String.length text + 2 <= f ->
  parse_value f text = parse_value (2 * String.length text + 2) text.
Proof.
  intros H. apply (proj1 (fuel_is_enough f (2 * String.length text + 2))); lia.
Qed.

(** ** Canonical forms *)

Lemma string_members_keys_incl (K : list string) (ps : list (string * JsVal)) (k : string) :
  In k (map fst (string_members K ps)) -> In k K.
Proof.
  induction K as [|k0 K IH]; cbn [string_members]; [tauto|].
  destruct (assoc k0 ps) as [[]|]; cbn; intuition.
Qed.

Lemma string_members_NoDup (K : list string) (ps : list (string * JsVal)) :
  NoDup K -> NoDup (map fst (string_members K ps)).
Proof.
  induction 1 as [|k0 K Hk ND IH]; cbn [string_members]; [constructor|].
  destruct (assoc k0 ps) as [[]|]; auto.
  cbn. constructor; auto.
  intros I. now apply string_members_keys_incl in I.
Qed.

Lemma string_members_sorted (K : list string) (ps : list (string * JsVal)) :
  StronglySorted key_le K -> StronglySorted key_le (map fst (string_members K ps)).
Proof.
  induction 1 as [|k0 K HK IH Hk]; cbn [string_members]; [constructor|].
  destruct (assoc k0 ps) as [[]|]; auto.
  cbn. constructor; auto.
  rewrite Forall_forall in *. intros k I.
  apply Hk. now apply string_members_keys_incl in I.
Qed.

Lemma assoc_string_members_out (K : list string) (ps : list (string * JsVal)) (k : string) :
  ~ In k K -> assoc k (string_members K ps) = None.
Proof.
  intros N. apply assoc_None. intros J. now apply string_members_keys_incl in J.
Qed.

Lemma assoc_string_members (K : list string) (ps : list (string * JsVal)) (k : string) :
  In k K -> assoc k (string_members K ps) = str_assoc k ps.
Proof.
  induction K as [|k0 K IH]; [intros []|].
  intros I. cbn [string_members].
  assert (Skip : k = k0 -> str_assoc k ps = None ->
                 assoc k (string_members K ps) = str_assoc k ps).
  { intros -> E. destruct (in_dec string_dec k0 K) as [I'|I'].
    - now apply IH.
    - rewrite E. now apply assoc_string_members_out. }
  destruct (String.eqb_spec k k0) as [E|N].
  - destruct (assoc k0 ps) as [v|] eqn:A.
    + destruct v; try (apply Skip; [exact E | subst; unfold str_assoc; now rewrite A]).
      subst. cbn [assoc]. rewrite String.eqb_refl. unfold str_assoc. now rewrite A.
    + apply Skip; [exact E | subst; unfold str_assoc; now rewrite A].
  - assert (I' : In k K) by (destruct I; [congruence | assumption]).
    apply String.eqb_neq in N.
    destruct (assoc k0 ps) as [[]|]; cbn [assoc]; rewrite ?N; auto.
Qed.

Lemma sort_NoDup (l : list string) : NoDup l -> NoDup (sort l).
Proof. intros ND. eapply Permutation_NoDup; [apply sort_perm | exact ND]. Qed.

Lemma assoc_canonical_members (ps : list (string * JsVal)) (k : string) :
  assoc k (string_members (sort (map fst ps)) ps) = str_assoc k ps.
Proof.
  destruct (in_dec string_dec k (map fst ps)) as [I|I].
  - apply assoc_string_members. eapply Permutation_in; [apply sort_perm | exact I].
  - unfold str_assoc. rewrite (assoc_None k ps I).
    apply assoc_None. intros J. apply string_members_keys_incl in J.
    apply I. eapply Permutation_in; [apply Permutation_sym, sort_perm | exact J].
Qed.

Lemma members_ext (ms1 : list (string * string)) :
  forall ms2,
    map fst ms1 = map fst ms2 -> NoDup (map fst ms1) ->
    (forall k, assoc k ms1 = assoc k ms2) -> ms1 = ms2.
Proof.
  induction ms1 as [|[k v1] r1 IH]; intros [|[k' v2] r2] K ND A; try discriminate; [reflexivity|].
  cbn in K. injection K as <- K.
  inversion ND as [|? ? Hk Hr]; subst.
  pose proof (A k) as Ak. cbn in Ak. rewrite String.eqb_refl in Ak.
  injection Ak as <-. f_equal.
  apply IH; auto.
  intros k'. destruct (String.eqb_spec k' k) as [->|N].
  - rewrite !assoc_None; auto. now rewrite <- K.
  - specialize (A k'). cbn in A. apply String.eqb_neq in N. now rewrite N in A.
Qed.

Lemma assoc_Some_In_fst {A : Type} (k : string) (l : list (string * A)) :
  In k (map fst l) -> exists v, assoc k l = Some v.
Proof.
  induction l as [|[k' v'] r IH]; cbn; [tauto|].
  intros [->|I]; [rewrite String.eqb_refl; eauto|].
  destruct (String.eqb k k'); eauto.
Qed.

Lemma sorted_members_ext (ms1 ms2 : list (string * string)) :
  StronglySorted key_le (map fst ms1) -> NoDup (map fst ms1) ->
  StronglySorted key_le (map fst ms2) -> NoDup (map fst ms2) ->
  (forall k, assoc k ms1 = assoc k ms2) -> ms1 = ms2.
Proof.
  intros S1 N1 S2 N2 A.
  apply members_ext; auto.
  apply sorted_perm_unique; auto.
  apply NoDup_Permutation; auto.
  intros k; split; intros I; apply assoc_Some_In_fst in I as [v E].
  - rewrite A in E. now apply assoc_In_fst in E.
  - rewrite <- A in E. now apply assoc_In_fst in E.
Qed.

Lemma canonical_ext (ps1 ps2 : list (string * JsVal)) :
  NoDup (map fst ps1) -> NoDup (map fst ps2) ->
  (forall k, str_assoc k ps1 = str_assoc k ps2) ->
  canonical ps1 = canonical ps2.
Proof.
  intros N1 N2 A. unfold canonical. f_equal.
  apply sorted_members_ext;
    auto using string_members_sorted, string_members_NoDup, sort_sorted, sort_NoDup.
  intros k. now rewrite !assoc_canonical_members.
Qed.

Lemma str_assoc_string_props (k : string) (ms : list (string * string)) :
  str_assoc k (string_props ms) = assoc k ms.
Proof.
  unfold str_assoc, string_props.
  rewrite (assoc_map_snd JStr). destruct (assoc k ms); reflexivity.
Qed.

Lemma canonical_keys_NoDup (ps : list (string * JsVal)) :
  NoDup (map fst ps) -> NoDup (map fst (canonical ps)).
Proof.
  intros ND. unfold canonical. rewrite string_props_keys.
  auto using string_members_NoDup, sort_NoDup.
Qed.

Lemma str_assoc_canonical (k : string) (ps : list (string * JsVal)) :
  str_assoc k (canonical ps) = str_assoc k ps.
Proof.
  unfold canonical. now rewrite str_assoc_string_props, assoc_canonical_members.
Qed.

Lemma canonical_idempotent (ps : list (string * JsVal)) :
  NoDup (map fst ps) -> canonical (canonical ps) = canonical ps.
Proof.
  intros ND. apply canonical_ext; auto using canonical_keys_NoDup.
  intros k. apply str_assoc_canonical.
Qed.

Lemma string_props_flat (ms : list (string * string)) : flat (string_props ms).
Proof. unfold flat, string_props. rewrite Forall_map. apply Forall_forall. now intros. Qed.

(** ** Encoding and decoding flat objects *)

Lemma encode_flat (ps : list (string * JsVal)) :
  flat ps ->
  encodeConnectionInfo (JObj ps)
  = Ok (stringToBase64 (object_text (string_members (sort (map fst ps)) ps))).
Proof.
  intros F. unfold encodeConnectionInfo. cbn [Object_keys bind].
  now rewrite stringify_flat.
Qed.

Lemma decode_object_text (ms : list (string * string)) :
  NoDup (map fst ms) ->
  decodeConnectionInfo (stringToBase64 (object_text ms))
  = Ok (JObj (canonical (string_props ms))).
Proof.
  intros ND. unfold decodeConnectionInfo.
  rewrite base64_roundtrip. cbn [bind].
  rewrite JSON_parse_object_text by exact ND. cbn [bind].
  rewrite encode_flat by apply string_props_flat. cbn [bind].
  rewrite base64_roundtrip. cbn [bind].
  rewrite JSON_parse_object_text; [reflexivity|].
  apply string_members_NoDup, sort_NoDup.
  now rewrite string_props_keys.
Qed.

Lemma decode_encode_flat (ps : list (string * JsVal)) :
  flat ps -> NoDup (map fst ps) ->
  exists token, encodeConnectionInfo (JObj ps) = Ok token
                /\ decodeConnectionInfo token = Ok (JObj (canonical ps)).
Proof.
  intros F ND. eexists. split; [now apply encode_flat|].
  rewrite decode_object_text.
  - fold (canonical ps). now rewrite canonical_idempotent.
  - auto using string_members_NoDup, sort_NoDup.
Qed.

Lemma str_assoc_permutation (k : string) (ps ps' : list (string * JsVal)) :
  NoDup (map fst ps) -> Permutation ps ps' -> str_assoc k ps = str_assoc k ps'.
Proof. intros ND P. unfold str_assoc. now rewrite (assoc_permutation k ps ps' ND P). Qed.

Lemma string_members_permutation (K : list string) (ps ps' : list (string * JsVal)) :
  NoDup (map fst ps) -> Permutation ps ps' ->
  string_members K ps = string_members K ps'.
Proof.
  intros ND P. induction K as [|k K IH]; cbn [string_members]; [reflexivity|].
  now rewrite (assoc_permutation k ps ps' ND P), IH.
Qed.

Lemma assoc_stringify_permutation (K : list string) (ps ps' : list (string * JsVal)) :
  NoDup (map fst ps) -> Permutation ps ps' ->
  stringify K (JObj ps) = stringify K (JObj ps').
Proof.
  intros ND P. cbn [stringify]. do 2 f_equal. f_equal. f_equal.
  apply flat_map_ext. intros k.
  rewrite !assoc_map_snd. now rewrite (assoc_permutation k ps ps' ND P).
Qed.

Lemma encode_permutation (ps ps' : list (string * JsVal)) :
  NoDup (map fst ps) -> Permutation ps ps' ->
  encodeConnectionInfo (JObj ps) = encodeConnectionInfo (JObj ps').
Proof.
  intros ND P. unfold encodeConnectionInfo. cbn [Object_keys bind].
  rewrite (sort_permutation_invariant (map fst ps) (map fst ps'))
    by now apply Permutation_map.
  now rewrite (assoc_stringify_permutation _ ps ps' ND P).
Qed.

(** ** Connection infos *)

Lemma info_props_flat (u : bool) (x : IConnectionInfo) : flat (info_props u x).
Proof.
  destruct x as [id name cluster [d|]|id name]; try destruct u;
    repeat constructor.
Qed.

Lemma info_props_NoDup (u : bool) (x : IConnectionInfo) : NoDup (map fst (info_props u x)).
Proof.
  destruct x as [id name cluster [d|]|id name]; try destruct u; cbn;
    repeat (constructor; [cbn; intuition discriminate|]); constructor.
Qed.

Lemma get_canonical (ps : list (string * JsVal)) (k : string) :
  get (JObj (canonical ps)) k
  = match str_assoc k ps with Some v => JStr v | None => JUndefined end.
Proof.
  unfold get, canonical, string_props.
  rewrite (assoc_map_snd JStr), assoc_canonical_members.
  destruct (str_assoc k ps); reflexivity.
Qed.

Lemma info_of_canonical (u : bool) (x : IConnectionInfo) (ps : list (string * JsVal)) :
  Permutation (info_props u x) ps -> info_of_js (JObj (canonical ps)) = Some x.
Proof.
  intros P. unfold info_of_js. rewrite !get_canonical.
  rewrite <- !(str_assoc_permutation _ _ _ (info_props_NoDup u x) P).
  destruct x as [id name cluster [d|]|id name]; try destruct u; reflexivity.
Qed.

Lemma str_assoc_info_props (u u' : bool) (x : IConnectionInfo) (k : string) :
  str_assoc k (info_props u x) = str_assoc k (info_props u' x).
Proof.
  destruct x as [id name cluster [d|]|id name]; try reflexivity.
  destruct u, u'; try reflexivity; unfold str_assoc; cbn;
    repeat match goal with |- context [String.eqb ?a ?b] => destruct (String.eqb a b); try reflexivity end.
Qed.

Lemma canonical_members_ext (ps1 ps2 : list (string * JsVal)) :
  NoDup (map fst ps1) -> NoDup (map fst ps2) ->
  (forall k, str_assoc k ps1 = str_assoc k ps2) ->
  string_members (sort (map fst ps1)) ps1 = string_members (sort (map fst ps2)) ps2.
Proof.
  intros N1 N2 A.
  apply sorted_members_ext;
    auto using string_members_sorted, string_members_NoDup, sort_sorted, sort_NoDup.
  intros k. now rewrite !assoc_canonical_members.
Qed.

(** C4.  For every connection info [x], whatever the order in which its
    properties were inserted (and whether an absent [database] is a
    missing property or one holding [undefined]): [encodeConnectionInfo]
    yields one and the same token for any two insertion orders, and
    [decodeConnectionInfo] of that token is the object holding the
    string properties of [x] with keys ascending, which reads back as
    [x]: [decode (encode x) == x]. *)
Theorem encode_decode_identity (x : IConnectionInfo) (u u' : bool)
    (ps ps' : list (string * JsVal)) :
  Permutation (info_props u x) ps ->
  Permutation (info_props u' x) ps' ->
  exists token v,
    encodeConnectionInfo (JObj ps) = Ok token
    /\ encodeConnectionInfo (JObj ps') = Ok token
    /\ decodeConnectionInfo token = Ok v
    /\ v = JObj (canonical ps)
    /\ info_of_js v = Some x.
Proof.
  intros P P'.
  assert (F : flat ps) by (eapply Permutation_Forall; [exact P | apply info_props_flat]).
  assert (F' : flat ps') by (eapply Permutation_Forall; [exact P' | apply info_props_flat]).
  assert (N : NoDup (map fst ps)).
  { eapply Permutation_NoDup; [apply Permutation_map, P | apply info_props_NoDup]. }
  assert (N' : NoDup (map fst ps')).
  { eapply Permutation_NoDup; [apply Permutation_map, P' | apply info_props_NoDup]. }
  destruct (decode_encode_flat ps F N) as (token & E & D).
  exists token, (JObj (canonical ps)). repeat split; auto.
  - rewrite <- E, !encode_flat by assumption. do 3 f_equal.
    apply canonical_members_ext; auto. intros k.
    rewrite <- (str_assoc_permutation k _ _ (info_props_NoDup u' x) P').
    rewrite <- (str_assoc_permutation k _ _ (info_props_NoDup u x) P).
    apply str_assoc_info_props.
  - now apply info_of_canonical with u.
Qed.

Lemma encode_decode_identity_witness :
  exists token v,
    encodeConnectionInfo
      (JObj [("type", JStr "azAuth"); ("id", JStr "https://help.kusto.windows.net");
             ("displayName", JStr "help"); ("cluster", JStr "https://help.kusto.windows.net")])
    = Ok token
    /\ encodeConnectionInfo
         (JObj (info_props true
                  (AzureAuthenticated "https://help.kusto.windows.net" "help"
                                      "https://help.kusto.windows.net" None)))
       = Ok token
    /\ decodeConnectionInfo token = Ok v
    /\ v = JObj (canonical
                   [("type", JStr "azAuth"); ("id", JStr "https://help.kusto.windows.net");
                    ("displayName", JStr "help");
                    ("cluster", JStr "https://help.kusto.windows.net")])
    /\ info_of_js v
       = Some (AzureAuthenticated "https://help.kusto.windows.net" "help"
                                  "https://help.kusto.windows.net" None).
Proof.
  apply (encode_decode_identity
           (AzureAuthenticated "https://help.kusto.windows.net" "help"
                               "https://help.kusto.windows.net" None) false true).
  - cbn. eapply perm_trans; [apply perm_skip, perm_swap|].
    eapply perm_trans; [apply perm_swap|]. apply perm_skip, Permutation_refl.
  - apply Permutation_refl.
Defined.




(** ** [getChartType] *)

Lemma getChartType_unfold (results : KustoResponseDataSet) (t : Table)
    (row0 : list JsVal) (rest : list (list JsVal)) :
  extended_properties results = Some t ->
  table_rows t = row0 :: rest ->
  getChartType results
  = if not_a_visualization_row row0 then Ok None
    else
      do first <- try_parse (cell row0 2);
      let data := match first with Some d => d | None => JUndefined end in
      do data <-
         (if truthy data then Ok data
          else do second <- try_parse (cell row0 0);
               Ok (match second with Some d => d | None => data end));
      if truthy data then Ok (chart_of_metadata data) else Ok None.
Proof.
  unfold extended_properties, getChartType. intros Hf Hr.
  destruct (tables results) as [|t0 ts] eqn:Ht; [discriminate|].
  rewrite Hf, Hr. reflexivity.
Qed.

(** C10.  When the first row of [@ExtendedProperties] has neither the
    value ['Visualization'] at ordinal 1 nor a string containing
    ['Visualization'] at ordinal 0, [getChartType] returns no chart,
    whatever sits at ordinal 2. *)
Theorem getChartType_needs_visualization_marker (results : KustoResponseDataSet)
    (t : Table) (row0 : list JsVal) (rest : list (list JsVal)) :
  extended_properties results = Some t ->
  table_rows t = row0 :: rest ->
  cell row0 1 <> JStr "Visualization" ->
  (forall s, cell row0 0 = JStr s -> includes s "Visualization" = false) ->
  getChartType results = Ok None.
Proof.
  intros Hf Hr H1 H0.
  rewrite (getChartType_unfold results t row0 rest Hf Hr).
  unfold not_a_visualization_row.
  assert (E1 : strict_eq_str (cell row0 1) "Visualization" = false).
  { destruct (cell row0 1) as [| | | | |s| |]; try reflexivity.
    cbn. apply String.eqb_neq. congruence. }
  rewrite E1. cbn [negb andb].
  destruct (cell row0 0) as [| | | | |s| |] eqn:E0; try reflexivity.
  now rewrite (H0 s eq_refl).
Qed.

Lemma getChartType_needs_visualization_marker_witness :
  getChartType
    (mkResponse (Some [])
       [mkTable "@ExtendedProperties" []
          (KustoRows [[JNum 1; JStr "Other"; JStr piechart_metadata]])] [])
  = Ok None.
Proof.
  apply (getChartType_needs_visualization_marker _
           (mkTable "@ExtendedProperties" []
              (KustoRows [[JNum 1; JStr "Other"; JStr piechart_metadata]]))
           [JNum 1; JStr "Other"; JStr piechart_metadata] []).
  - reflexivity.
  - reflexivity.
  - cbn. discriminate.
  - cbn. discriminate.
Defined.

(** C6, as stated, fails: a first row whose ordinal-2 value is the
    pie-chart metadata of the claim, but which carries no
    ['Visualization'] marker, yields no chart. *)
Lemma piechart_metadata_without_marker :
  cell [JNum 1; JStr "Other"; JStr piechart_metadata] 2
  = JStr (dq "{'Visualization':'piechart','Title':'T'}")
  /\ getChartType
       (mkResponse (Some [])
          [mkTable "@ExtendedProperties" []
             (KustoRows [[JNum 1; JStr "Other"; JStr piechart_metadata]])] [])
     = Ok None.
Proof. split; reflexivity. Qed.

Lemma chart_of_metadata_spec (data : JsVal) :
  chart_of_metadata data
  = match get data "Visualization" with
    | JStr visualization => chart_for visualization (title_of data)
    | _ => None
    end.
Proof.
  unfold chart_of_metadata, chart_for, title_of, js_or.
  destruct (get data "Visualization") as [| | | | |s| |]; try reflexivity.
  cbn [strict_eq_str].
  destruct (String.eqb_spec s "piechart") as [->|]; [reflexivity|].
  destruct (String.eqb_spec s "barchart") as [->|]; [reflexivity|].
  destruct (String.eqb_spec s "columnchart") as [->|]; [reflexivity|].
  destruct (String.eqb_spec s "timechart") as [->|]; [reflexivity|].
  destruct (String.eqb_spec s "linechart") as [->|]; reflexivity.
Qed.

(** C6, amended.  For a response holding an [@ExtendedProperties]
    table: without rows there is no chart; when the first row passes
    the marker guard (ordinal 1 is ['Visualization'], or ordinal 0 is a
    string containing it), the metadata is the JSON value parsed from
    ordinal 2 when that parses to a truthy value, else the one parsed
    from ordinal 0, else there is no chart; the [Visualization] field
    maps [piechart] to pie, [barchart] to a horizontal bar,
    [columnchart] to a vertical bar, [timechart] and [linechart] to
    time, anything else to no chart, with the title [Title || '']; in
    particular the metadata [{"Visualization":"piechart","Title":"T"}]
    at ordinal 2 yields pie with title ["T"]. *)
Theorem getChartType_classifies (results : KustoResponseDataSet) (t : Table) :
  extended_properties results = Some t ->
  (table_rows t = [] -> getChartType results = Ok None)
  /\ forall row0 rest,
      table_rows t = row0 :: rest ->
      not_a_visualization_row row0 = false ->
      (* ordinal 2 first *)
      (forall d, try_parse (cell row0 2) = Ok (Some d) -> truthy d = true ->
                 getChartType results = Ok (chart_of_metadata d))
      (* else ordinal 0 *)
      /\ (forall d2 d0,
            try_parse (cell row0 2) = Ok d2 ->
            match d2 with Some d => truthy d = false | None => True end ->
            try_parse (cell row0 0) = Ok (Some d0) -> truthy d0 = true ->
            getChartType results = Ok (chart_of_metadata d0))
      (* neither *)
      /\ (forall d2 d0,
            try_parse (cell row0 2) = Ok d2 ->
            match d2 with Some d => truthy d = false | None => True end ->
            try_parse (cell row0 0) = Ok d0 ->
            match d0 with Some d => truthy d = false | None => True end ->
            getChartType results = Ok None)
      (* the mapping of the Visualization field *)
      /\ (forall d, chart_of_metadata d
                    = match get d "Visualization" with
                      | JStr visualization => chart_for visualization (title_of d)
                      | _ => None
                      end)
      (* the example *)
      /\ (cell row0 2 = JStr (dq "{'Visualization':'piechart','Title':'T'}") ->
          getChartType results = Ok (Some (Pie (JStr "T")))).
Proof.
  intros Hf. split.
  { intros Hr. unfold extended_properties in Hf. unfold getChartType.
    destruct (tables results); [reflexivity|]. now rewrite Hf, Hr. }
  intros row0 rest Hr Hg.
  pose proof (getChartType_unfold results t row0 rest Hf Hr) as U.
  rewrite Hg in U.
  split; [|split; [|split; [|split]]].
  - intros d P T. rewrite U, P. cbn [bind]. rewrite T. cbn [bind]. now rewrite T.
  - intros d2 d0 P2 F2 P0 T0. rewrite U, P2. cbn [bind].
    destruct d2 as [d|]; [rewrite F2|cbn [truthy]]; rewrite P0; cbn [bind]; now rewrite T0.
  - intros d2 d0 P2 F2 P0 F0. rewrite U, P2. cbn [bind].
    destruct d2 as [d|]; [rewrite F2|cbn [truthy]]; rewrite P0; cbn [bind];
      destruct d0 as [d'|]; try rewrite F0; try rewrite F2; reflexivity.
  - apply chart_of_metadata_spec.
  - intros E. rewrite U, E. reflexivity.
Qed.

Lemma getChartType_classifies_witness :
  getChartType
    (mkResponse (Some [])
       [mkTable "@ExtendedProperties" []
          (KustoRows [[JNum 1; JStr "Visualization"; JStr piechart_metadata]])] [])
  = Ok (Some (Pie (JStr "T"))).
Proof.
  apply (proj2 (getChartType_classifies
           (mkResponse (Some [])
              [mkTable "@ExtendedProperties" []
                 (KustoRows [[JNum 1; JStr "Visualization"; JStr piechart_metadata]])] [])
           (mkTable "@ExtendedProperties" []
              (KustoRows [[JNum 1; JStr "Visualization"; JStr piechart_metadata]]))
           eq_refl)
           [JNum 1; JStr "Visualization"; JStr piechart_metadata] []
           eq_refl eq_refl).
  reflexivity.
Defined.

(** ** [executeCell] *)

(** C1.  When the cancellation token fires before the promise of the
    client settles, [executeCell] starts the task, clears the output,
    appends nothing and ends the task with [success = false] and an end
    time (the [finally] path). *)
Theorem executeCell_cancelled_first (chartType : KustoResponseDataSet -> JsVal)
    (startNow endNow : Z) (run : QueryRun) (c : nat) :
  cancelledAt run = Some c ->
  c < settledAt run ->
  executeCell chartType true startNow endNow run
  = [TaskStart startNow; TaskClearOutput; TaskEnd false (Some endNow)]
  /\ appended (executeCell chartType true startNow endNow run) = []
  /\ ended (executeCell chartType true startNow endNow run) = Some (false, Some endNow).
Proof.
  intros Hc Hlt.
  assert (E : executeCell chartType true startNow endNow run
              = [TaskStart startNow; TaskClearOutput; TaskEnd false (Some endNow)]).
  { unfold executeCell, promise_race, token_fires_first. rewrite Hc.
    apply Nat.ltb_lt in Hlt. rewrite Hlt. reflexivity. }
  rewrite E. repeat split; reflexivity.
Qed.

Lemma executeCell_cancelled_first_witness :
  executeCell (fun _ => JUndefined) true 10 20
    (mkRun (Some 3) 5 (Fulfilled (Some empty_response)))
  = [TaskStart 10; TaskClearOutput; TaskEnd false (Some 20%Z)]
  /\ appended (executeCell (fun _ => JUndefined) true 10 20
                 (mkRun (Some 3) 5 (Fulfilled (Some empty_response)))) = []
  /\ ended (executeCell (fun _ => JUndefined) true 10 20
              (mkRun (Some 3) 5 (Fulfilled (Some empty_response))))
     = Some (false, Some 20%Z).
Proof.
  apply (executeCell_cancelled_first (fun _ => JUndefined) 10 20
           (mkRun (Some 3) 5 (Fulfilled (Some empty_response))) 3).
  - reflexivity.
  - cbn. lia.
Defined.

Lemma executeCell_rejected (chartType : KustoResponseDataSet -> JsVal)
    (startNow endNow : Z) (run : QueryRun) (ex : Thrown) :
  rejects run ex ->
  executeCell chartType true startNow endNow run
  = [TaskStart startNow; TaskClearOutput;
     TaskAppendOutput [ErrorItem (fst (classify_error ex)) (snd (classify_error ex))];
     TaskEnd false (Some endNow)].
Proof.
  intros [Hs Ht]. unfold executeCell, promise_race. rewrite Ht, Hs.
  cbn. destruct (classify_error ex). reflexivity.
Qed.

Lemma classify_http (ex : Thrown) (props response_props : list (string * JsVal)) :
  thrown_value ex = JObj props ->
  assoc "response" props = Some (JObj response_props) ->
  classify_error ex
  = (let status := get (JObj response_props) "status" in
     if strict_eq_num status 400 then JStr "Invalid Query"
     else if (strict_eq_num status 401 || strict_eq_num status 403)%bool
     then JStr "Authentication Error"
     else if (strict_eq_num status 408 || strict_eq_num status 504)%bool
     then JStr "Query Timeout"
     else if js_ge status 500 then JStr "Server Error"
     else JStr "Query Error",
     response_message (JObj response_props)).
Proof.
  intros Hv Hr. unfold classify_error. rewrite Hv.
  cbn [truthy typeof_object andb has_property get]. rewrite Hr.
  cbn [truthy typeof_object andb]. reflexivity.
Qed.

Lemma opt_get_truthy (v : JsVal) (k : string) :
  truthy (opt_get v k) = true -> opt_get v k = get v k.
Proof. destruct v; cbn; congruence. Qed.

Lemma opt_get_get (v : JsVal) (k : string) : opt_get v k = get v k.
Proof. destruct v; reflexivity. Qed.

(** C2, as stated, fails on the message chain: with a
    [response.data.error] that carries no message, the code falls back
    to the default and never looks at [response.data.message], which the
    chain of the claim would pick. *)
Lemma error_without_message_hides_data_message :
  appended (executeCell (fun _ => JUndefined) true 10 20
              (mkRun None 5 (Rejected bad_request)))
  = [[ErrorItem (JStr "Invalid Query") (JStr "Failed to execute query")]]
  /\ spec_error_message (get (thrown_value bad_request) "response") = JStr "m".
Proof. split; reflexivity. Qed.

(** C2, amended.  For every failure thrown out of the query before any
    cancellation wins the race, exactly one error artifact
    [{name, message}] is appended and the task ends unsuccessfully.
    When the failure carries a [response] object, the name follows the
    ordered taxonomy of the status (400, 401/403, 408/504, >= 500); the
    message is [error['@message']], else [error.message], else the
    default when [response.data.error] is truthy, and
    [response.data.message], else the default, only when it is not; it
    is always truthy, and it is the chain of the claim whenever
    [response.data.error] is absent or carries a message or
    [response.data.message] is absent; a 401 without
    [response.data.error] and without [response.data.message] is an
    ["Authentication Error"] with the default message. *)
Theorem executeCell_classifies_http_error (chartType : KustoResponseDataSet -> JsVal)
    (startNow endNow : Z) (run : QueryRun) (ex : Thrown) :
  rejects run ex ->
  exists errorName errorMessage,
    (* exactly one artifact, of the error kind *)
    appended (executeCell chartType true startNow endNow run)
    = [[ErrorItem errorName errorMessage]]
    /\ ended (executeCell chartType true startNow endNow run) = Some (false, Some endNow)
    /\ forall props response_props,
        thrown_value ex = JObj props ->
        assoc "response" props = Some (JObj response_props) ->
        let response := JObj response_props in
        let data := get response "data" in
        let error := opt_get data "error" in
        (* the name, by status *)
        (forall status, get response "status" = JNum status ->
                        errorName = JStr (taxonomy status))
        (* the message *)
        /\ (truthy error = true ->
            errorMessage = js_or (get error "@message")
                                 (js_or (get error "message") default_message))
        /\ (truthy error = false -> truthy (get data "message") = true ->
            errorMessage = get data "message")
        /\ (truthy error = false -> truthy (get data "message") = false ->
            errorMessage = default_message)
        /\ truthy errorMessage = true
        /\ (truthy error = false \/ truthy (get error "@message") = true
            \/ truthy (get error "message") = true \/ truthy (get data "message") = false ->
            errorMessage = spec_error_message response)
        (* the example: 401 without response.data.error *)
        /\ (get response "status" = JNum 401 -> truthy error = false ->
            truthy (get data "message") = false ->
            errorName = JStr "Authentication Error" /\ errorMessage = default_message).
Proof.
  intros R.
  rewrite (executeCell_rejected chartType startNow endNow run ex R).
  exists (fst (classify_error ex)), (snd (classify_error ex)).
  split; [reflexivity|]. split; [reflexivity|].
  intros props response_props Hv Hr response data error.
  rewrite (classify_http ex props response_props Hv Hr).
  cbn [fst snd].
  fold response. unfold response_message. fold data. rewrite ?opt_get_get.
  unfold error. rewrite ?opt_get_get.
  set (err := get data "error"). set (msg := get data "message").
  split.
  { intros status ->. unfold taxonomy, strict_eq_num, js_ge. cbn [ToNumber].
    destruct (Z.eqb status 400); [reflexivity|].
    destruct (Z.eqb status 401 || Z.eqb status 403)%bool; [reflexivity|].
    destruct (Z.eqb status 408 || Z.eqb status 504)%bool; [reflexivity|].
    destruct (Z.leb 500 status); reflexivity. }
  split; [intros ->; reflexivity|].
  split; [intros -> ->; reflexivity|].
  split; [intros -> ->; reflexivity|].
  split.
  { unfold js_or.
    destruct (truthy err) eqn:Te.
    - destruct (truthy (get err "@message")) eqn:T1; [exact T1|].
      destruct (truthy (get err "message")) eqn:T2; [exact T2|reflexivity].
    - destruct (truthy msg) eqn:Tm; [exact Tm|reflexivity]. }
  split.
  { unfold spec_error_message. fold response. fold data. rewrite ?opt_get_get.
    fold err. fold msg. rewrite ?opt_get_get. unfold js_or, default_message.
    intros H.
    destruct (truthy err) eqn:Te.
    - destruct (truthy (get err "@message")) eqn:T1; [reflexivity|].
      destruct (truthy (get err "message")) eqn:T2; [reflexivity|].
      destruct H as [H|[H|[H|H]]]; try discriminate. now rewrite H.
    - assert (G : forall k, truthy (get err k) = false).
      { intros k. destruct err as [| | | | | | |ps]; try reflexivity. discriminate. }
      rewrite !G. destruct (truthy msg); reflexivity. }
  intros -> -> ->. split; reflexivity.
Qed.

Lemma executeCell_classifies_http_error_witness :
  appended (executeCell (fun _ => JUndefined) true 10 20
              (mkRun None 5 (Rejected unauthorized)))
  = [[ErrorItem (JStr "Authentication Error") (JStr "Failed to execute query")]]
  /\ ended (executeCell (fun _ => JUndefined) true 10 20
              (mkRun None 5 (Rejected unauthorized)))
     = Some (false, Some 20%Z).
Proof.
  destruct (executeCell_classifies_http_error (fun _ => JUndefined) 10 20
              (mkRun None 5 (Rejected unauthorized)) unauthorized
              (conj eq_refl eq_refl))
    as (n & m & A & B & X).
  destruct (X [("response", JObj [("status", JNum 401); ("data", JObj [])])]
              [("status", JNum 401); ("data", JObj [])] eq_refl eq_refl)
    as (_ & _ & _ & _ & _ & _ & Y).
  destruct (Y eq_refl eq_refl eq_refl) as [-> ->].
  split; [exact A | exact B].
Defined.

(** ** Normalization of a successful response *)

Lemma not_requested_not_first (run : QueryRun) :
  isCancellationRequested run = false -> token_fires_first run = false.
Proof.
  unfold isCancellationRequested, token_fires_first.
  destruct (cancelledAt run) as [c|]; [|reflexivity].
  intros H. apply Nat.leb_gt in H. apply Nat.ltb_ge. lia.
Qed.

Lemma executeCell_fulfilled (chartType : KustoResponseDataSet -> JsVal)
    (startNow endNow : Z) (run : QueryRun) (results : KustoResponseDataSet) :
  fulfils run results ->
  exists mime,
    executeCell chartType true startNow endNow run
    = [TaskStart startNow; TaskClearOutput;
       TaskAppendOutput [JsonItem mime (normalized results)];
       TaskEnd true (Some endNow)].
Proof.
  intros [Hs Hc]. unfold executeCell, promise_race.
  rewrite (not_requested_not_first run Hc), Hs, Hc. cbn.
  unfold success_output, normalized.
  destruct (truthy _ && negb _)%bool; eexists; reflexivity.
Qed.

(** C3, as stated, fails: when [primaryResults] already holds a table,
    it is kept as it is; the table named [PrimaryResult] leaves [tables]
    and its rows appear nowhere in [primaryResults]. *)
Lemma primaryResults_kept_when_present :
  appended (executeCell (fun _ => JUndefined) true 10 20
              (mkRun None 5 (Fulfilled (Some kept_response))))
  = [[JsonItem "application/vnd.kusto.result+json"
        (mkResponse (Some [other_table]) [other_table] ["Table_1"])]]
  /\ In primary_table (tables kept_response)
  /\ name primary_table = "PrimaryResult"
  /\ existsb (fun t => String.eqb (name t) "PrimaryResult") [other_table] = false.
Proof. repeat split; try reflexivity. now left. Qed.

(** C3, amended.  After the success path of [executeCell], a table
    named [PrimaryResult] is absent from [tables] (the other tables
    stay) and the name is absent from [tableNames]; the table is in
    [primaryResults] whenever [primaryResults] was not an array or was
    empty (it is then rebuilt from the tables of that name); a non-empty
    [primaryResults] is left as it was. *)
Theorem executeCell_normalizes_PrimaryResult (chartType : KustoResponseDataSet -> JsVal)
    (startNow endNow : Z) (run : QueryRun) (results : KustoResponseDataSet) (t : Table) :
  fulfils run results ->
  In t (tables results) ->
  name t = "PrimaryResult" ->
  exists mime results',
    appended (executeCell chartType true startNow endNow run) = [[JsonItem mime results']]
    /\ ~ In t (tables results')
    /\ (forall t', In t' (tables results') -> name t' <> "PrimaryResult")
    /\ ~ In "PrimaryResult" (tableNames results')
    /\ (forall t', In t' (tables results) -> name t' <> "PrimaryResult" ->
                   In t' (tables results'))
    /\ (primaryResults results = None \/ primaryResults results = Some [] ->
        exists rebuilt, primaryResults results' = Some rebuilt /\ In t rebuilt)
    /\ (forall kept, primaryResults results = Some kept -> kept <> [] ->
        primaryResults results' = Some kept).
Proof.
  intros Fu Ht Hn.
  destruct (executeCell_fulfilled chartType startNow endNow run results Fu) as [mime E].
  exists mime, (normalized results). rewrite E.
  assert (P : is_PrimaryResult t = true) by (unfold is_PrimaryResult; now rewrite Hn).
  assert (T : tables (normalized results)
              = filter (fun item => negb (is_PrimaryResult item)) (tables results)).
  { unfold normalized, reconcile_primaryResults.
    destruct (primaryResults results) as [[|]|]; reflexivity. }
  assert (N : tableNames (normalized results)
              = filter (fun item => negb (String.eqb item "PrimaryResult")) (tableNames results)).
  { unfold normalized, reconcile_primaryResults.
    destruct (primaryResults results) as [[|]|]; reflexivity. }
  split; [reflexivity|].
  split. { rewrite T, filter_In, P. intros [_ H]. discriminate. }
  split.
  { intros t'. rewrite T, filter_In. unfold is_PrimaryResult. intros [_ H] E'.
    rewrite E' in H. discriminate. }
  split. { rewrite N, filter_In. intros [_ H]. discriminate. }
  split.
  { intros t' I Hn'. rewrite T, filter_In. split; [exact I|].
    unfold is_PrimaryResult. apply String.eqb_neq in Hn'. now rewrite Hn'. }
  split.
  { intros H. exists (filter is_PrimaryResult (tables results)). split.
    - unfold normalized, reconcile_primaryResults. destruct H as [-> | ->]; reflexivity.
    - apply filter_In. auto. }
  intros kept Hp Hk. unfold normalized, reconcile_primaryResults. rewrite Hp.
  destruct kept; [congruence | cbn; now rewrite Hp].
Qed.

Lemma executeCell_normalizes_PrimaryResult_witness :
  exists mime results',
    appended (executeCell (fun _ => JUndefined) true 10 20
                (mkRun None 5
                   (Fulfilled (Some (mkResponse None [primary_table; other_table]
                                                ["PrimaryResult"; "Table_1"])))))
    = [[JsonItem mime results']]
    /\ ~ In primary_table (tables results')
    /\ ~ In "PrimaryResult" (tableNames results')
    /\ exists rebuilt, primaryResults results' = Some rebuilt /\ In primary_table rebuilt.
Proof.
  destruct (executeCell_normalizes_PrimaryResult (fun _ => JUndefined) 10 20
              (mkRun None 5
                 (Fulfilled (Some (mkResponse None [primary_table; other_table]
                                              ["PrimaryResult"; "Table_1"]))))
              (mkResponse None [primary_table; other_table] ["PrimaryResult"; "Table_1"])
              primary_table (conj eq_refl eq_refl) (or_introl eq_refl) eq_refl)
    as (mime & results' & A & B & _ & C & _ & D & _).
  exists mime, results'. repeat split; auto.
Defined.

(** ** The controller registry *)

Lemma info_token (x : IConnectionInfo) :
  exists token,
    encodeConnectionInfo (JObj (info_props true x)) = Ok token
    /\ bind (decodeConnectionInfo token)
            (fun v => match info_of_js v with Some y => Ok y | None => Throw TypeError end)
       = Ok x.
Proof.
  destruct (decode_encode_flat (info_props true x)
              (info_props_flat true x) (info_props_NoDup true x)) as (token & E & D).
  exists token. split; [exact E|]. rewrite D. cbn [bind].
  now rewrite (info_of_canonical true x (info_props true x) (Permutation_refl _)).
Qed.

Lemma encode_info_injective (x y : IConnectionInfo) :
  encodeConnectionInfo (JObj (info_props true x))
  = encodeConnectionInfo (JObj (info_props true y)) -> x = y.
Proof.
  intros H.
  destruct (info_token x) as (tx & Ex & Dx).
  destruct (info_token y) as (ty & Ey & Dy).
  rewrite Ex, Ey in H. injection H as ->.
  rewrite Dx in Dy. now injection Dy.
Qed.

Lemma append_inj_l (p a b : string) : p ++ a = p ++ b -> a = b.
Proof. induction p as [|c p IH]; cbn; [auto | intros [= H]; auto]. Qed.

Lemma key_embeds_same_connection (c : Controller) (connection : IConnectionInfo) :
  key_embeds c connection -> ctl_connection c = connection.
Proof.
  unfold key_embeds, getControllerId. intros H.
  destruct (info_token (ctl_connection c)) as (t1 & E1 & _).
  destruct (info_token connection) as (t2 & E2 & _).
  apply encode_info_injective. rewrite E1, E2 in *. cbn [bind] in H.
  injection H as H. apply append_inj_l in H. cbn in H. now injection H as ->.
Qed.

Lemma filter_none {A : Type} (p : A -> bool) (l : list A) :
  (forall x, In x l -> p x = true) -> filter p l = l.
Proof.
  induction l as [|x r IH]; cbn; [reflexivity|]. intros H.
  rewrite (H x (or_introl eq_refl)), IH; auto.
Qed.

Lemma splice_indexOf (c : Controller) (l : list Controller) :
  NoDup (map ctl_ref l) ->
  match indexOf c l with
  | Some index => splice1 index l
  | None => l
  end = filter (fun x => negb (ref_is c x)) l.
Proof.
  unfold ref_is.
  induction l as [|x r IH]; cbn [indexOf filter map]; [reflexivity|].
  intros ND. inversion ND as [|? ? Hx Hr]; subst.
  destruct (Nat.eqb_spec (ctl_ref x) (ctl_ref c)) as [E|N]; cbn [negb splice1].
  - symmetry. apply filter_none. intros y Iy.
    destruct (Nat.eqb_spec (ctl_ref y) (ctl_ref c)) as [E'|]; [|reflexivity].
    exfalso. apply Hx. rewrite E, <- E'. now apply in_map.
  - specialize (IH Hr). destruct (indexOf c r) as [i|]; cbn [option_map splice1];
      f_equal; exact IH.
Qed.

Lemma filter_keeps_refs_distinct (keep : Controller -> bool) (registry : list Controller) :
  NoDup (map ctl_ref registry) -> NoDup (map ctl_ref (filter keep registry)).
Proof.
  induction registry as [|c rest IH]; cbn; [auto|].
  intros ND. inversion ND as [|? ? Hc Hrest]; subst.
  destruct (keep c); cbn; auto. constructor; auto.
  intros I. apply Hc. apply in_map_iff in I as (c' & E & Ic').
  apply filter_In in Ic' as [Ic' _]. rewrite <- E. now apply in_map.
Qed.

Lemma remove_controller_spec (k : Kernels) (c : Controller) :
  NoDup (map ctl_ref (registeredControllers k)) ->
  remove_controller k c
  = mkKernels (filter (fun x => negb (ref_is c x)) (registeredControllers k))
              (filter (fun r => negb (Nat.eqb r (ctl_ref c))) (host_controllers k))
              (next_ref k).
Proof.
  intros ND. unfold remove_controller, dispose. cbn.
  rewrite <- (splice_indexOf c _ ND).
  destruct (indexOf c (registeredControllers k)); reflexivity.
Qed.

Lemma filter_twice {A : Type} (p q : A -> bool) (l : list A) :
  filter q (filter p l) = filter (fun x => (p x && q x)%bool) l.
Proof.
  induction l as [|x r IH]; cbn; [reflexivity|].
  destruct (p x); cbn; [destruct (q x)|]; now rewrite IH.
Qed.

Lemma remove_all_spec (removing : list Controller) :
  forall k,
    NoDup (map ctl_ref (registeredControllers k)) ->
    fold_left remove_controller removing k
    = mkKernels
        (filter (fun x => negb (existsb (fun c => ref_is c x) removing))
                (registeredControllers k))
        (filter (fun r => negb (existsb (fun c => Nat.eqb r (ctl_ref c)) removing))
                (host_controllers k))
        (next_ref k).
Proof.
  induction removing as [|c rest IH]; intros k ND; cbn [fold_left existsb].
  - cbn. rewrite !filter_none by reflexivity. now destruct k.
  - rewrite remove_controller_spec by exact ND.
    rewrite IH by (cbn; now apply filter_keeps_refs_distinct).
    cbn. rewrite !filter_twice. f_equal;
      apply filter_ext; intros x; now rewrite negb_orb.
Qed.

Lemma removed_filter (p : Controller -> bool) (l : list Controller) :
  NoDup (map ctl_ref l) ->
  filter (fun x => negb (existsb (fun c => ref_is c x) (filter p l))) l
  = filter (fun x => negb (p x)) l.
Proof.
  intros ND. apply filter_ext_in. intros x Ix. f_equal.
  destruct (p x) eqn:Px.
  - apply existsb_exists. exists x. split; [now apply filter_In|].
    unfold ref_is. apply Nat.eqb_refl.
  - destruct (existsb _ _) eqn:E; [|reflexivity].
    apply existsb_exists in E as (c & Ic & R).
    apply filter_In in Ic as [Ic Pc]. unfold ref_is in R. apply Nat.eqb_eq in R.
    assert (x = c); [|congruence].
    clear -ND Ix Ic R. induction l as [|y r IH]; [contradiction|].
    cbn in ND. inversion ND as [|? ? Hy Hr]; subst.
    destruct Ix as [->|Ix], Ic as [->|Ic]; auto.
    + exfalso. apply Hy. rewrite R. now apply in_map.
    + exfalso. apply Hy. rewrite <- R. now apply in_map.
Qed.

(** C9.  On a [removed] event, every registered controller whose key
    embeds the removed connection is deleted from
    [registeredControllers] and its notebook controller is no longer
    registered with the host; no controller left in the registry has a
    key embedding that connection (the registry keeps exactly the
    controllers of other connection ids); an [added] event changes
    nothing. *)
Theorem removed_connection_tears_down_controllers (k : Kernels)
    (connection : IConnectionInfo) :
  NoDup (map ctl_ref (registeredControllers k)) ->
  (forall c, In c (registeredControllers k) -> key_embeds c connection ->
             ~ In c (registeredControllers (onConnectionChanged connection removed k))
             /\ ~ In (ctl_ref c) (host_controllers (onConnectionChanged connection removed k)))
  /\ (forall c, In c (registeredControllers (onConnectionChanged connection removed k)) ->
                ~ key_embeds c connection)
  /\ registeredControllers (onConnectionChanged connection removed k)
     = filter (fun c => negb (same_connection_id connection c)) (registeredControllers k)
  /\ onConnectionChanged connection added k = k.
Proof.
  intros ND.
  assert (R : registeredControllers (onConnectionChanged connection removed k)
              = filter (fun c => negb (same_connection_id connection c))
                       (registeredControllers k)).
  { unfold onConnectionChanged. rewrite remove_all_spec by exact ND. cbn.
    now apply removed_filter. }
  assert (S : forall c, key_embeds c connection -> same_connection_id connection c = true).
  { intros c Kc. unfold same_connection_id.
    rewrite (key_embeds_same_connection c connection Kc). apply String.eqb_refl. }
  split; [|split; [|split]].
  - intros c Ic Kc. split.
    + rewrite R, filter_In. intros [_ H]. rewrite (S c Kc) in H. discriminate.
    + unfold onConnectionChanged. rewrite remove_all_spec by exact ND. cbn.
      rewrite filter_In. intros [_ X].
      apply negb_true_iff in X.
      assert (Y : existsb (fun c0 => Nat.eqb (ctl_ref c) (ctl_ref c0))
                          (filter (same_connection_id connection) (registeredControllers k))
                  = true); [|congruence].
      apply existsb_exists. exists c. split; [|apply Nat.eqb_refl].
      apply filter_In. auto.
  - intros c Ic Kc. rewrite R, filter_In in Ic. destruct Ic as [_ H].
    rewrite (S c Kc) in H. discriminate.
  - exact R.
  - reflexivity.
Qed.

Lemma removed_connection_tears_down_controllers_witness :
  registeredControllers (onConnectionChanged help_connection removed two_kernels)
  = [mkController 1 "kusto-notebook" (AppInsights "app" "App")]
  /\ onConnectionChanged help_connection added two_kernels = two_kernels.
Proof.
  destruct (removed_connection_tears_down_controllers two_kernels help_connection)
    as (_ & _ & R & A).
  - cbn. repeat (constructor; [cbn; intuition discriminate|]). constructor.
  - split; [rewrite R; reflexivity | exact A].
Defined.

(** ** The order of a time chart *)

(** C7, the code at the failing input.  The table declares a timespan
    column at ordinal 1 and no datetime column.  Whatever [Date] makes
    of the cells, the rows come out ordered by column 0 (every
    comparator reads [dateColumnIndex], which defaults to 0), the later
    time of day first, and not by the timespan column. *)
Theorem time_sort_reads_column_zero (getTime : JsVal -> option Z) :
  time_sortedData getTime timespan_columns [later_row; earlier_row]
  = Some [later_row; earlier_row]
  /\ time_sortedData getTime timespan_columns [earlier_row; later_row]
     = Some [later_row; earlier_row].
Proof.
  unfold time_sortedData. cbn.
  split;
    repeat match goal with
           | |- context [goes_after (num_sub ?a ?b)] =>
               destruct (goes_after (num_sub a b)); cbn
           end; reflexivity.
Qed.

Lemma time_sort_spec_reads_timespan (getTime : JsVal -> option Z) (t1 t2 : Z) :
  getTime (JStr "0001-01-01T00:00:01") = Some t1 ->
  getTime (JStr "0001-01-01T00:00:02") = Some t2 ->
  (t1 < t2)%Z ->
  time_sortedData_spec getTime timespan_columns [later_row; earlier_row]
  = [earlier_row; later_row].
Proof.
  intros H1 H2 L. unfold time_sortedData_spec.
  change (declared_ordinal "datetime" timespan_columns) with (@None Z).
  change (declared_ordinal "timespan" timespan_columns) with (Some 1%Z).
  cbv iota beta. cbn [js_sort insert_by].
  change (cell_at earlier_row 1) with (JStr "00:00:01").
  change (cell_at later_row 1) with (JStr "00:00:02").
  change ("0001-01-01T" ++ ToString (JStr "00:00:01")) with "0001-01-01T00:00:01".
  change ("0001-01-01T" ++ ToString (JStr "00:00:02")) with "0001-01-01T00:00:02".
  rewrite H1, H2. cbn [num_sub goes_after].
  assert (E : (0 <? t2 - t1)%Z = true) by (apply Z.ltb_lt; lia).
  now rewrite E.
Qed.

(** ** Sunburst: grouping by the dash-joined id *)

(** ** Facts on [distinct] *)




(** ** The accumulating map computes the grouping *)















(** ** [generateSunburstChart] computes the grouping *)












(** ** The registry stays well formed *)

Lemma no_kernels_refs_fresh : refs_fresh (mkKernels [] [] 0).
Proof. split; constructor. Qed.

Lemma registerController_refs_fresh (notebookType : string) (connection : IConnectionInfo)
    (k : Kernels) :
  refs_fresh k -> refs_fresh (snd (registerController notebookType connection k)).
Proof.
  intros [ND B]. unfold registerController.
  destruct (find _ _); cbn [snd]; [now split|].
  split; cbn.
  - rewrite map_app. cbn. apply NoDup_app; [exact ND | repeat constructor; intros [] |].
    intros r Ir [<-|[]]. apply in_map_iff in Ir as (c & E & Ic).
    rewrite Forall_forall in B. specialize (B c Ic). lia.
  - apply Forall_app. split; [|repeat constructor].
    eapply Forall_impl; [|exact B]. cbn. intros c Hc. lia.
Qed.

Lemma onConnectionChanged_refs_fresh (connection : IConnectionInfo) (change : Change)
    (k : Kernels) :
  refs_fresh k -> refs_fresh (onConnectionChanged connection change k).
Proof.
  intros [ND B]. destruct change; [now split|].
  unfold onConnectionChanged. rewrite remove_all_spec by exact ND.
  split; cbn.
  - now apply filter_keeps_refs_distinct.
  - apply Forall_forall. intros c Ic. apply filter_In in Ic as [Ic _].
    rewrite Forall_forall in B. auto.
Qed.

Lemma find_app_none {A : Type} (p : A -> bool) (l : list A) (x : A) :
  find p l = None -> find p (l ++ [x]) = if p x then Some x else None.
Proof.
  induction l as [|y r IH]; cbn; [reflexivity|].
  destruct (p y); [discriminate | exact IH].
Qed.

Lemma getControllerId_ok (connection : IConnectionInfo) (notebookType : string) :
  exists id, getControllerId connection notebookType = Ok id.
Proof.
  unfold getControllerId. destruct (info_token connection) as (t & E & _).
  rewrite E. cbn. eauto.
Qed.

(** Registering the same pair again returns the controller of the
    first call and changes nothing. *)
Lemma registerController_idempotent (notebookType : string) (connection : IConnectionInfo)
    (k : Kernels) :
  registerController notebookType connection
    (snd (registerController notebookType connection k))
  = (fst (registerController notebookType connection k),
     snd (registerController notebookType connection k)).
Proof.
  unfold registerController.
  destruct (find _ (registeredControllers k)) as [c|] eqn:F; cbn [fst snd].
  - now rewrite F.
  - cbn [registeredControllers]. rewrite (find_app_none _ _ _ F).
    unfold has_key at 1. cbn [ctl_connection ctl_notebookType].
    destruct (getControllerId_ok connection notebookType) as [id E].
    rewrite E, !String.eqb_refl. reflexivity.
Qed.

(** ** Tokens and controller ids *)

Lemma sextet_char_base64 (s : sextet) : base64_char (sextet_char s) = true.
Proof.
  destruct s as [[[[[b5 b4] b3] b2] b1] b0].
  destruct b5, b4, b3, b2, b1, b0; reflexivity.
Qed.

Lemma stringToBase64_shape_bounded (n : nat) :
  forall s, String.length s <= n ->
    all_chars base64_char (stringToBase64 s) = true
    /\ String.length (stringToBase64 s) = 4 * ((String.length s + 2) / 3).
Proof.
  induction n as [n IH] using lt_wf_ind.
  intros s Hlen.
  destruct s as [|a [|b [|c rest]]].
  - split; reflexivity.
  - destruct a as [a0 a1 a2 a3 a4 a5 a6 a7].
    cbn [stringToBase64 all_chars String.length].
    rewrite !sextet_char_base64. split; reflexivity.
  - destruct a as [a0 a1 a2 a3 a4 a5 a6 a7].
    destruct b as [b0 b1 b2 b3 b4 b5 b6 b7].
    cbn [stringToBase64 all_chars String.length].
    rewrite !sextet_char_base64. split; reflexivity.
  - destruct a as [a0 a1 a2 a3 a4 a5 a6 a7].
    destruct b as [b0 b1 b2 b3 b4 b5 b6 b7].
    destruct c as [c0 c1 c2 c3 c4 c5 c6 c7].
    cbn [stringToBase64 all_chars String.length].
    rewrite !sextet_char_base64.
    destruct (IH (String.length rest)) with (s := rest) as [Hc Hl];
      [simpl in Hlen; lia | lia |].
    split; [exact Hc |].
    rewrite Hl.
    replace (S (S (S (String.length rest))) + 2) with (String.length rest + 2 + 1 * 3) by lia.
    rewrite Nat.div_add by lia. lia.
Qed.

Lemma stringToBase64_chars (s : string) : all_chars base64_char (stringToBase64 s) = true.
Proof. exact (proj1 (stringToBase64_shape_bounded (String.length s) s (le_n _))). Qed.

Lemma all_chars_middle (p : ascii -> bool) (a b : string) (c : ascii) :
  all_chars p (a ++ String c b) = true -> p c = true.
Proof.
  induction a as [|x a IH]; simpl; intros H; apply andb_prop in H; tauto.
Qed.

(** The text after the last underscore determines the text before it. *)
Lemma split_at_underscore (a b t u : string) :
  all_chars base64_char t = true -> all_chars base64_char u = true ->
  a ++ "_" ++ t = b ++ "_" ++ u -> a = b /\ t = u.
Proof.
  intros Ht Hu. revert b.
  induction a as [|x a IH]; intros [|y b] E; simpl in E.
  - injection E as E. auto.
  - injection E as Ey E. subst y. rewrite E in Ht.
    apply all_chars_middle in Ht. discriminate Ht.
  - injection E as Ex E. subst x. rewrite <- E in Hu.
    apply all_chars_middle in Hu. discriminate Hu.
  - injection E as Ex E. subst y. destruct (IH b E) as [-> ->]. auto.
Qed.

Lemma getControllerId_token (connection : IConnectionInfo) (notebookType : string) :
  exists token,
    encodeConnectionInfo (JObj (info_props true connection)) = Ok token
    /\ all_chars base64_char token = true
    /\ getControllerId connection notebookType = Ok (notebookType ++ "_" ++ token).
Proof.
  unfold getControllerId.
  rewrite (encode_flat _ (info_props_flat true connection)).
  eexists. split; [reflexivity |]. split; [apply stringToBase64_chars | reflexivity].
Qed.

Lemma getControllerId_inj (c1 c2 : IConnectionInfo) (n1 n2 : string) :
  getControllerId c1 n1 = getControllerId c2 n2 -> n1 = n2 /\ c1 = c2.
Proof.
  intros E.
  destruct (getControllerId_token c1 n1) as (t1 & E1 & A1 & G1).
  destruct (getControllerId_token c2 n2) as (t2 & E2 & A2 & G2).
  rewrite G1, G2 in E. injection E as E.
  destruct (split_at_underscore _ _ _ _ A1 A2 E) as [-> ->].
  split; [reflexivity |].
  apply encode_info_injective. rewrite E1, E2. reflexivity.
Qed.

(** X1.  [base64ToString] undoes [stringToBase64] on every string, so
    [stringToBase64] maps different strings to different texts. *)
Theorem base64ToString_inverts_stringToBase64 (s : string) :
  base64ToString (stringToBase64 s) = Ok s
  /\ forall t, stringToBase64 s = stringToBase64 t <-> s = t.
Proof.
  split; [apply base64_roundtrip |].
  intros t. split; [| intros ->; reflexivity].
  intros E.
  assert (R : base64ToString (stringToBase64 s) = base64ToString (stringToBase64 t))
    by (rewrite E; reflexivity).
  rewrite !base64_roundtrip in R. congruence.
Qed.

(** X2.  The text [stringToBase64] makes has four characters for every
    three bytes, rounded up, all of them from the base64 alphabet or
    the padding character. *)
Theorem stringToBase64_shape (s : string) :
  all_chars base64_char (stringToBase64 s) = true
  /\ String.length (stringToBase64 s) = 4 * ((String.length s + 2) / 3).
Proof. exact (stringToBase64_shape_bounded (String.length s) s (le_n _)). Qed.

Lemma encode_info_props (u : bool) (x : IConnectionInfo) :
  encodeConnectionInfo (JObj (info_props u x))
  = encodeConnectionInfo (JObj (info_props true x)).
Proof.
  rewrite !encode_flat by apply info_props_flat.
  rewrite (canonical_members_ext (info_props u x) (info_props true x));
    auto using info_props_NoDup, str_assoc_info_props.
Qed.

(** X3.  The token of an object does not depend on the order in which
    its properties were created, whatever the values are (numbers,
    nested objects, arrays), as long as no key occurs twice. *)
Theorem encodeConnectionInfo_ignores_property_order (ps ps' : list (string * JsVal)) :
  NoDup (map fst ps) -> Permutation ps ps' ->
  encodeConnectionInfo (JObj ps) = encodeConnectionInfo (JObj ps').
Proof. apply encode_permutation. Qed.

Lemma encodeConnectionInfo_ignores_property_order_witness :
  encodeConnectionInfo (JObj [("b", JObj [("a", JStr "x")]); ("a", JNum 1)])
  = encodeConnectionInfo (JObj [("a", JNum 1); ("b", JObj [("a", JStr "x")])]).
Proof.
  apply encodeConnectionInfo_ignores_property_order.
  - cbn. repeat (constructor; [cbn; intuition discriminate|]). constructor.
  - apply perm_swap.
Defined.

(** X4.  Two connection infos have the same token exactly when they are
    the same connection info; whether an absent [database] is a missing
    property or a property holding [undefined] makes no difference. *)
Theorem token_identifies_connection (u u' : bool) (x y : IConnectionInfo) :
  encodeConnectionInfo (JObj (info_props u x)) = encodeConnectionInfo (JObj (info_props u' y))
  <-> x = y.
Proof.
  rewrite (encode_info_props u x), (encode_info_props u' y).
  split; [apply encode_info_injective | intros ->; reflexivity].
Qed.

(** X5.  A token made by [encodeConnectionInfo] from a flat object is
    in canonical form: encoding what [decodeConnectionInfo] returns for
    it gives the same token again, and decoding that one the same
    value. *)
Theorem decode_then_encode_is_identity (ps : list (string * JsVal)) :
  flat ps -> NoDup (map fst ps) ->
  exists token decoded,
    encodeConnectionInfo (JObj ps) = Ok token
    /\ decodeConnectionInfo token = Ok decoded
    /\ encodeConnectionInfo decoded = Ok token.
Proof.
  intros F ND.
  destruct (decode_encode_flat ps F ND) as (token & E & D).
  exists token, (JObj (canonical ps)). split; [exact E |]. split; [exact D |].
  rewrite <- E. rewrite !encode_flat by (exact F || apply string_props_flat).
  rewrite (canonical_members_ext (canonical ps) ps);
    auto using canonical_keys_NoDup, str_assoc_canonical.
Qed.

Lemma decode_then_encode_is_identity_witness :
  exists token decoded,
    encodeConnectionInfo
      (JObj [("id", JStr "a"); ("displayName", JStr "n"); ("type", JStr "appInsights")])
    = Ok token
    /\ decodeConnectionInfo token = Ok decoded
    /\ encodeConnectionInfo decoded = Ok token.
Proof.
  apply decode_then_encode_is_identity.
  - repeat constructor.
  - cbn. repeat (constructor; [cbn; intuition discriminate|]). constructor.
Defined.

(** X6.  A controller id names one notebook type and one connection:
    [getControllerId] always answers, and two ids are equal exactly
    when both the notebook types and the connections are (the token
    holds no underscore, so the id splits in one way only). *)
Theorem getControllerId_identifies_controller (c1 c2 : IConnectionInfo) (n1 n2 : string) :
  (exists id, getControllerId c1 n1 = Ok id)
  /\ (getControllerId c1 n1 = getControllerId c2 n2 <-> n1 = n2 /\ c1 = c2).
Proof.
  split; [apply getControllerId_ok |].
  split; [apply getControllerId_inj | intros [-> ->]; reflexivity].
Qed.

(** ** What a token leaves out, and what decoding lets through *)

Lemma stringify_object (K : list string) (ps : list (string * JsVal)) :
  stringify K (JObj ps)
  = Some ("{" ++ join ","
                   (flat_map (fun k =>
                                match assoc k (map (fun kv => (fst kv, stringify K (snd kv))) ps)
                                with
                                | Some (Some t) => [quote k ++ ":" ++ t]
                                | _ => []
                                end) K) ++ "}").
Proof. reflexivity. Qed.

Lemma stringify_no_key (K : list string) (inner : list (string * JsVal)) :
  (forall j, In j K -> assoc j inner = None) -> stringify K (JObj inner) = Some "{}".
Proof.
  intros H. rewrite stringify_object.
  assert (E : forall K', (forall j, In j K' -> assoc j inner = None) ->
            flat_map (fun k =>
                        match assoc k (map (fun kv => (fst kv, stringify K (snd kv))) inner)
                        with
                        | Some (Some t) => [quote k ++ ":" ++ t]
                        | _ => []
                        end) K' = []).
  { induction K' as [|j K' IH]; intros H'; [reflexivity |].
    cbn [flat_map]. rewrite assoc_map_snd, (H' j) by (left; reflexivity).
    cbn. apply IH. intros j' I. apply H'. right. exact I. }
  rewrite (E K H). reflexivity.
Qed.

(** X23.  Nested properties are not part of a token unless their names
    are also names of top-level properties: the key list of the
    top level filters every level.  Two objects that differ only in
    what a nested object holds under other names have the same
    token. *)
Theorem encodeConnectionInfo_forgets_nested_properties (ps : list (string * JsVal))
    (k : string) (inner inner' : list (string * JsVal)) :
  (forall j, In j (k :: map fst ps) -> assoc j inner = None /\ assoc j inner' = None) ->
  encodeConnectionInfo (JObj (ps ++ [(k, JObj inner)])%list)
  = encodeConnectionInfo (JObj (ps ++ [(k, JObj inner')])%list).
Proof.
  intros H. unfold encodeConnectionInfo. cbn [Object_keys bind].
  rewrite !map_app. cbn [map fst].
  set (K := sort (map fst ps ++ [k])%list).
  assert (HK : forall j, In j K -> assoc j inner = None /\ assoc j inner' = None).
  { intros j I. apply H. unfold K in I.
    apply (Permutation_in _ (Permutation_sym (sort_perm _))) in I.
    apply in_app_or in I as [I|[<-|[]]]; [right; exact I | left; reflexivity]. }
  rewrite !stringify_object, !map_app. cbn [map fst snd].
  rewrite (stringify_no_key K inner) by (intros j I; apply (HK j I)).
  rewrite (stringify_no_key K inner') by (intros j I; apply (HK j I)).
  reflexivity.
Qed.

Lemma encodeConnectionInfo_forgets_nested_properties_witness :
  encodeConnectionInfo
    (JObj [("id", JStr "a"); ("options", JObj [("secret", JStr "x")])])
  = encodeConnectionInfo
      (JObj [("id", JStr "a"); ("options", JObj [("secret", JStr "y"); ("n", JNum 1)])]).
Proof.
  apply (encodeConnectionInfo_forgets_nested_properties [("id", JStr "a")] "options").
  intros j [<-|[<-|[]]]; split; reflexivity.
Defined.

Lemma append_empty (s : string) : s ++ "" = s.
Proof. induction s as [|c s IH]; cbn; [reflexivity | now rewrite IH]. Qed.

Lemma JSON_parse_quote (s : string) : JSON_parse (quote s) = Ok (JStr s).
Proof.
  unfold JSON_parse.
  replace (2 * String.length (quote s) + 2) with (S (2 * String.length (quote s) + 1)) by lia.
  rewrite <- (append_empty (quote s)) at 2.
  rewrite parse_value_string. reflexivity.
Qed.

(** X24.  [decodeConnectionInfo] validates nothing beyond what
    [JSON.parse] and [Object.keys] do.  A token whose payload is not
    JSON fails with the parser's error and one whose payload is [null]
    with a [TypeError]; but the token of a JSON boolean or string
    decodes, to that boolean or string. *)
Theorem decodeConnectionInfo_does_not_validate (text : string) :
  (forall e, JSON_parse text = Throw e ->
             decodeConnectionInfo (stringToBase64 text) = Throw e)
  /\ (JSON_parse text = Ok JNull ->
      decodeConnectionInfo (stringToBase64 text) = Throw TypeError)
  /\ (forall b, JSON_parse text = Ok (JBool b) ->
                decodeConnectionInfo (stringToBase64 text) = Ok (JBool b))
  /\ (forall s, JSON_parse text = Ok (JStr s) ->
                decodeConnectionInfo (stringToBase64 text) = Ok (JStr s)).
Proof.
  unfold decodeConnectionInfo. rewrite base64_roundtrip. cbn [bind].
  split; [| split; [| split]].
  - intros e ->. reflexivity.
  - intros ->. reflexivity.
  - intros b ->. destruct b; reflexivity.
  - intros s ->. cbn [bind]. unfold encodeConnectionInfo. cbn [Object_keys bind stringify].
    cbn [bind]. rewrite base64_roundtrip. cbn [bind]. apply JSON_parse_quote.
Qed.

Lemma decodeConnectionInfo_does_not_validate_witness :
  decodeConnectionInfo (stringToBase64 "{") = Throw SyntaxError
  /\ decodeConnectionInfo (stringToBase64 "null") = Throw TypeError
  /\ decodeConnectionInfo (stringToBase64 "true") = Ok (JBool true).
Proof.
  split; [| split].
  - apply (proj1 (decodeConnectionInfo_does_not_validate "{")). reflexivity.
  - apply (proj1 (proj2 (decodeConnectionInfo_does_not_validate "null"))). reflexivity.
  - apply (proj1 (proj2 (proj2 (decodeConnectionInfo_does_not_validate "true")))).
    reflexivity.
Defined.

(** ** The registry over the life of the extension *)

Lemma has_key_spec (notebookType : string) (connection : IConnectionInfo) (c : Controller) :
  has_key (getControllerId connection notebookType) notebookType c = true
  <-> ctl_notebookType c = notebookType /\ ctl_connection c = connection.
Proof.
  unfold has_key.
  destruct (getControllerId connection notebookType) as [wanted|e] eqn:W;
    [| destruct (getControllerId_ok connection notebookType) as [? E]; congruence].
  destruct (getControllerId (ctl_connection c) (ctl_notebookType c)) as [id|e] eqn:I;
    [| destruct (getControllerId_ok (ctl_connection c) (ctl_notebookType c)) as [? E];
       congruence].
  split.
  - intros H. apply andb_prop in H as [H1 H2].
    apply String.eqb_eq in H1, H2. subst id.
    rewrite <- W in I. apply getControllerId_inj in I. tauto.
  - intros [E1 E2]. rewrite E1, E2, W in I. injection I as ->.
    rewrite E1, !String.eqb_refl. reflexivity.
Qed.

Lemma find_has_key_none (notebookType : string) (connection : IConnectionInfo)
    (k : Kernels) :
  find (has_key (getControllerId connection notebookType) notebookType)
       (registeredControllers k) = None ->
  ~ registered notebookType connection k.
Proof.
  intros F (c & Ic & Hc). apply (find_none _ _ F) in Ic.
  apply has_key_spec in Hc. congruence.
Qed.

Lemma find_has_key_some (notebookType : string) (connection : IConnectionInfo)
    (k : Kernels) :
  registered notebookType connection k ->
  exists c, find (has_key (getControllerId connection notebookType) notebookType)
                 (registeredControllers k) = Some c.
Proof.
  intros (c & Ic & Hc).
  destruct (find _ _) as [c'|] eqn:F; [eauto |].
  apply (find_none _ _ F) in Ic. apply has_key_spec in Hc. congruence.
Qed.

Lemma registerController_registered (notebookType : string) (connection : IConnectionInfo)
    (k : Kernels) :
  registered notebookType connection k ->
  snd (registerController notebookType connection k) = k.
Proof.
  intros R. destruct (find_has_key_some _ _ _ R) as [c F].
  unfold registerController. rewrite F. reflexivity.
Qed.

Lemma registerController_result (notebookType : string) (connection : IConnectionInfo)
    (k : Kernels) :
  let c := fst (registerController notebookType connection k) in
  let k' := snd (registerController notebookType connection k) in
  In c (registeredControllers k')
  /\ ctl_notebookType c = notebookType /\ ctl_connection c = connection.
Proof.
  unfold registerController.
  destruct (find _ _) as [c|] eqn:F; cbn [fst snd registeredControllers].
  - apply find_some in F as [Ic Hc]. apply has_key_spec in Hc. tauto.
  - split; [apply in_or_app; right; left; reflexivity | split; reflexivity].
Qed.

Lemma registerController_keeps (notebookType : string) (connection : IConnectionInfo)
    (k : Kernels) (c : Controller) :
  In c (registeredControllers k) ->
  In c (registeredControllers (snd (registerController notebookType connection k))).
Proof.
  unfold registerController.
  destruct (find _ _); cbn [snd registeredControllers]; [auto |].
  intros Ic. apply in_or_app. auto.
Qed.

Lemma registerController_consistent (notebookType : string) (connection : IConnectionInfo)
    (k : Kernels) :
  registry_consistent k ->
  registry_consistent (snd (registerController notebookType connection k)).
Proof.
  intros (Fr & Hh & Hk).
  split; [apply registerController_refs_fresh; exact Fr |].
  unfold registerController.
  destruct (find _ _) as [c|] eqn:F; cbn [snd]; [auto |].
  cbn [host_controllers registeredControllers]. split.
  - rewrite map_app, Hh. reflexivity.
  - rewrite map_app. apply NoDup_app; [exact Hk | repeat constructor; intros [] |].
    intros key Ik [<-|[]]. apply in_map_iff in Ik as (c & E & Ic).
    apply (find_has_key_none _ _ _ F). exists c.
    unfold controller_key in E. cbn in E. injection E as E1 E2. auto.
Qed.

Lemma filter_keeps_keys_distinct (keep : Controller -> bool) (registry : list Controller) :
  NoDup (map controller_key registry) -> NoDup (map controller_key (filter keep registry)).
Proof.
  induction registry as [|c rest IH]; cbn; [auto|].
  intros ND. inversion ND as [|? ? Hc Hrest]; subst.
  destruct (keep c); cbn; auto. constructor; auto.
  intros I. apply Hc. apply in_map_iff in I as (c' & E & Ic').
  apply filter_In in Ic' as [Ic' _]. rewrite <- E. now apply in_map.
Qed.

Lemma host_after_removal (removing registry : list Controller) :
  filter (fun r => negb (existsb (fun c => Nat.eqb r (ctl_ref c)) removing))
         (map ctl_ref registry)
  = map ctl_ref (filter (fun x => negb (existsb (fun c => ref_is c x) removing)) registry).
Proof.
  induction registry as [|x rest IH]; cbn; [reflexivity|].
  unfold ref_is at 1.
  destruct (existsb _ removing); cbn; rewrite IH; reflexivity.
Qed.

Lemma onConnectionChanged_consistent (connection : IConnectionInfo) (change : Change)
    (k : Kernels) :
  registry_consistent k -> registry_consistent (onConnectionChanged connection change k).
Proof.
  intros (Fr & Hh & Hk).
  split; [apply onConnectionChanged_refs_fresh; exact Fr |].
  destruct change; [auto |].
  unfold onConnectionChanged. rewrite remove_all_spec by apply Fr.
  cbn [host_controllers registeredControllers]. split.
  - rewrite Hh. apply host_after_removal.
  - apply filter_keeps_keys_distinct. exact Hk.
Qed.

Lemma register_connection_consistent (view : string) (connection : IConnectionInfo)
    (k : Kernels) :
  registry_consistent k -> registry_consistent (register_connection view k connection).
Proof.
  intros H. unfold register_connection.
  auto using registerController_consistent.
Qed.

Lemma KernelProvider_register_consistent (view : string) (l : list IConnectionInfo) :
  forall k, registry_consistent k -> registry_consistent (KernelProvider_register view l k).
Proof.
  unfold KernelProvider_register.
  induction l as [|c l IH]; cbn; intros k H; [exact H |].
  apply IH. apply register_connection_consistent. exact H.
Qed.

Lemma after_event_consistent (k : Kernels) (e : KernelEvent) :
  registry_consistent k -> registry_consistent (after_event k e).
Proof.
  destruct e; cbn; auto using registerController_consistent,
    KernelProvider_register_consistent, onConnectionChanged_consistent.
Qed.

Lemma after_events_consistent (es : list KernelEvent) :
  registry_consistent (after_events es).
Proof.
  unfold after_events.
  assert (H : registry_consistent (mkKernels [] [] 0)).
  { split; [apply no_kernels_refs_fresh | split; [reflexivity | constructor]]. }
  revert H. generalize (mkKernels [] [] 0).
  induction es as [|e es IH]; cbn; intros k H; [exact H |].
  apply IH. apply after_event_consistent. exact H.
Qed.

Lemma onConnectionChanged_removed (connection : IConnectionInfo) (k : Kernels) :
  registry_consistent k ->
  registeredControllers (onConnectionChanged connection removed k)
  = filter (fun c => negb (same_connection_id connection c)) (registeredControllers k)
  /\ host_controllers (onConnectionChanged connection removed k)
     = map ctl_ref (filter (fun c => negb (same_connection_id connection c))
                           (registeredControllers k)).
Proof.
  intros H.
  assert (R : registeredControllers (onConnectionChanged connection removed k)
              = filter (fun c => negb (same_connection_id connection c))
                       (registeredControllers k)).
  { destruct H as ((ND & _) & _ & _). unfold onConnectionChanged.
    rewrite remove_all_spec by exact ND. cbn [registeredControllers].
    apply removed_filter. exact ND. }
  split; [exact R |].
  destruct (onConnectionChanged_consistent connection removed k H) as (_ & Hh & _).
  rewrite Hh, R. reflexivity.
Qed.

(** X7.  Whatever calls of [registerController], of
    [KernelProvider.register] and connection events came before, the
    array [registeredControllers] and the host hold the same
    controllers, in the same order, each object once, and no two
    controllers have the same notebook type and connection. *)
Theorem registry_stays_consistent (es : list KernelEvent) :
  host_controllers (after_events es) = map ctl_ref (registeredControllers (after_events es))
  /\ NoDup (map ctl_ref (registeredControllers (after_events es)))
  /\ NoDup (map controller_key (registeredControllers (after_events es))).
Proof.
  destruct (after_events_consistent es) as ((ND & _) & Hh & Hk). auto.
Qed.

(** X8.  In any state the extension can be in, [registerController]
    returns a controller of the notebook type and connection asked
    for, which is then in the array and registered with the host;
    the controllers already there stay; and asking again returns the
    same controller and changes nothing. *)
Theorem registerController_returns_registered_controller (es : list KernelEvent)
    (notebookType : string) (connection : IConnectionInfo) :
  ctl_notebookType (fst (registerController notebookType connection (after_events es)))
  = notebookType
  /\ ctl_connection (fst (registerController notebookType connection (after_events es)))
     = connection
  /\ In (fst (registerController notebookType connection (after_events es)))
        (registeredControllers
           (snd (registerController notebookType connection (after_events es))))
  /\ In (ctl_ref (fst (registerController notebookType connection (after_events es))))
        (host_controllers
           (snd (registerController notebookType connection (after_events es))))
  /\ (forall c, In c (registeredControllers (after_events es)) ->
                In c (registeredControllers
                        (snd (registerController notebookType connection (after_events es)))))
  /\ registerController notebookType connection
       (snd (registerController notebookType connection (after_events es)))
     = registerController notebookType connection (after_events es).
Proof.
  destruct (registerController_result notebookType connection (after_events es))
    as (Ic & Hn & Hc).
  destruct (registerController_consistent notebookType connection (after_events es)
              (after_events_consistent es)) as (_ & Hh & _).
  split; [exact Hn |]. split; [exact Hc |]. split; [exact Ic |].
  split; [rewrite Hh; apply in_map; exact Ic |].
  split; [intros c; apply registerController_keeps |].
  rewrite registerController_idempotent. symmetry. apply surjective_pairing.
Qed.

(** X9.  Controllers are torn down by connection id, and
    [connectionInfofrom] makes the cluster the id: a controller
    registered for one database of a cluster is removed, from the
    array and from the host, when the connection of any database of
    that cluster is removed; the controllers of other ids all stay. *)
Theorem removal_reaches_every_database_of_the_cluster (es : list KernelEvent)
    (getClusterDisplayName : string -> string) (notebookType cluster : string)
    (database database' : option string) :
  ~ In (fst (registerController notebookType
               (connectionInfofrom getClusterDisplayName cluster database)
               (after_events es)))
       (registeredControllers
          (onConnectionChanged (connectionInfofrom getClusterDisplayName cluster database')
             removed
             (snd (registerController notebookType
                     (connectionInfofrom getClusterDisplayName cluster database)
                     (after_events es)))))
  /\ ~ In (ctl_ref (fst (registerController notebookType
                           (connectionInfofrom getClusterDisplayName cluster database)
                           (after_events es))))
          (host_controllers
             (onConnectionChanged (connectionInfofrom getClusterDisplayName cluster database')
                removed
                (snd (registerController notebookType
                        (connectionInfofrom getClusterDisplayName cluster database)
                        (after_events es)))))
  /\ forall c, In c (registeredControllers (after_events es)) ->
               connection_id (ctl_connection c) <> cluster ->
               In c (registeredControllers
                       (onConnectionChanged
                          (connectionInfofrom getClusterDisplayName cluster database')
                          removed
                          (snd (registerController notebookType
                                  (connectionInfofrom getClusterDisplayName cluster database)
                                  (after_events es))))).
Proof.
  set (x := connectionInfofrom getClusterDisplayName cluster database).
  set (y := connectionInfofrom getClusterDisplayName cluster database').
  set (k := after_events es).
  assert (K1 : registry_consistent (snd (registerController notebookType x k)))
    by (apply registerController_consistent, after_events_consistent).
  destruct (onConnectionChanged_removed y _ K1) as [R Hh].
  destruct (registerController_result notebookType x k) as (Ic & Hn & Hc).
  destruct K1 as ((ND & _) & _ & _).
  assert (Gone : ~ In (fst (registerController notebookType x k))
                      (filter (fun c => negb (same_connection_id y c))
                              (registeredControllers (snd (registerController notebookType x k))))).
  { intros I. apply filter_In in I as [_ I].
    unfold same_connection_id in I. rewrite Hc in I. cbn in I.
    rewrite String.eqb_refl in I. discriminate I. }
  split; [rewrite R; exact Gone |].
  split.
  - rewrite Hh. intros I. apply in_map_iff in I as (c & E & I).
    assert (c = fst (registerController notebookType x k)).
    { apply filter_In in I as [I _].
      revert ND Ic I E. generalize (fst (registerController notebookType x k)).
      generalize (registeredControllers (snd (registerController notebookType x k))).
      induction l as [|a l IH]; intros c0 ND Ic I E; [destruct I |].
      cbn in ND. inversion ND as [|? ? Ha ND']; subst.
      destruct Ic as [->|Ic], I as [->|I]; auto.
      - exfalso. apply Ha. rewrite <- E. apply in_map. exact I.
      - exfalso. apply Ha. rewrite E. apply in_map. exact Ic. }
    subst c. apply Gone. exact I.
  - intros c Ic' Hid. rewrite R. apply filter_In. split.
    + apply registerController_keeps. exact Ic'.
    + unfold same_connection_id. subst y. cbn.
      destruct (String.eqb_spec (connection_id (ctl_connection c)) cluster);
        [congruence | reflexivity].
Qed.

Lemma registered_keeps (notebookType notebookType' : string)
    (connection connection' : IConnectionInfo) (k : Kernels) :
  registered notebookType connection k ->
  registered notebookType connection (snd (registerController notebookType' connection' k)).
Proof.
  intros (c & Ic & Hc). exists c. split; [apply registerController_keeps; exact Ic | exact Hc].
Qed.

Lemma registered_after (notebookType : string) (connection : IConnectionInfo) (k : Kernels) :
  registered notebookType connection (snd (registerController notebookType connection k)).
Proof.
  destruct (registerController_result notebookType connection k) as (Ic & Hn & Hc).
  eexists. split; [exact Ic | split; assumption].
Qed.

Lemma register_connection_serves (view : string) (connection : IConnectionInfo) (k : Kernels)
    (notebookType : string) :
  In notebookType (served_types view) ->
  registered notebookType connection (register_connection view k connection).
Proof.
  unfold register_connection, served_types.
  intros [<-|[<-|[<-|[]]]];
    auto using registered_keeps, registered_after.
Qed.

Lemma register_connection_keeps (view : string) (connection connection' : IConnectionInfo)
    (k : Kernels) (notebookType : string) :
  registered notebookType connection k ->
  registered notebookType connection (register_connection view k connection').
Proof. intros R. unfold register_connection. auto using registered_keeps. Qed.

Lemma KernelProvider_register_keeps (view : string) (l : list IConnectionInfo)
    (connection : IConnectionInfo) (notebookType : string) :
  forall k, registered notebookType connection k ->
            registered notebookType connection (KernelProvider_register view l k).
Proof.
  unfold KernelProvider_register.
  induction l as [|c l IH]; cbn; intros k R; [exact R |].
  apply IH. apply register_connection_keeps. exact R.
Qed.

Lemma register_connection_served (view : string) (connection : IConnectionInfo) (k : Kernels) :
  (forall notebookType, In notebookType (served_types view) ->
                        registered notebookType connection k) ->
  register_connection view k connection = k.
Proof.
  intros R. unfold register_connection.
  rewrite (registerController_registered "kusto-notebook" connection k)
    by (apply R; cbn; auto).
  rewrite (registerController_registered "kusto-notebook-kql" connection k)
    by (apply R; cbn; auto).
  apply registerController_registered, R. cbn. auto.
Qed.

Lemma registerController_grows (notebookType : string) (connection : IConnectionInfo)
    (k : Kernels) :
  List.length (registeredControllers (snd (registerController notebookType connection k)))
  <= S (List.length (registeredControllers k)).
Proof.
  unfold registerController.
  destruct (find _ _); cbn [snd registeredControllers]; [lia |].
  rewrite length_app. cbn. lia.
Qed.

(** X10.  After [KernelProvider.register] every last-used connection
    has a controller for each of the three notebook types; at most
    three controllers per connection were added; and running it a
    second time changes nothing. *)
Theorem KernelProvider_register_serves_last_used (InteractiveWindowView : string)
    (lastUsedConnection : list IConnectionInfo) (k : Kernels) :
  (forall connection notebookType,
      In connection lastUsedConnection ->
      In notebookType (served_types InteractiveWindowView) ->
      registered notebookType connection
        (KernelProvider_register InteractiveWindowView lastUsedConnection k))
  /\ List.length (registeredControllers
                    (KernelProvider_register InteractiveWindowView lastUsedConnection k))
     <= List.length (registeredControllers k) + 3 * List.length lastUsedConnection
  /\ KernelProvider_register InteractiveWindowView lastUsedConnection
       (KernelProvider_register InteractiveWindowView lastUsedConnection k)
     = KernelProvider_register InteractiveWindowView lastUsedConnection k.
Proof.
  assert (Serves : forall l k0 connection notebookType,
             In connection l -> In notebookType (served_types InteractiveWindowView) ->
             registered notebookType connection
               (KernelProvider_register InteractiveWindowView l k0)).
  { induction l as [|c l IH]; intros k0 connection notebookType Ic It; [destruct Ic |].
    destruct Ic as [->|Ic].
    - change (KernelProvider_register InteractiveWindowView (connection :: l) k0)
        with (KernelProvider_register InteractiveWindowView l
                (register_connection InteractiveWindowView k0 connection)).
      apply KernelProvider_register_keeps, register_connection_serves. exact It.
    - apply (IH (register_connection InteractiveWindowView k0 c)); assumption. }
  split; [intros connection notebookType; apply Serves |].
  split.
  - revert k. unfold KernelProvider_register.
    induction lastUsedConnection as [|c l IH]; intros k; cbn [fold_left List.length]; [lia |].
    specialize (IH (register_connection InteractiveWindowView k c)).
    unfold register_connection in *.
    pose proof (registerController_grows "kusto-notebook" c k).
    pose proof (registerController_grows "kusto-notebook-kql" c
                  (snd (registerController "kusto-notebook" c k))).
    pose proof (registerController_grows InteractiveWindowView c
                  (snd (registerController "kusto-notebook-kql" c
                          (snd (registerController "kusto-notebook" c k))))).
    lia.
  - generalize (Serves lastUsedConnection k).
    generalize (KernelProvider_register InteractiveWindowView lastUsedConnection k).
    intros k'. unfold KernelProvider_register.
    induction lastUsedConnection as [|c l IH]; intros R; [reflexivity |].
    cbn [fold_left]. rewrite register_connection_served by (intros; apply R; cbn; auto).
    apply IH. intros connection notebookType Ic It. apply R; cbn; auto.
Qed.

Lemma onConnectionChanged_next_ref (connection : IConnectionInfo) (change : Change)
    (k : Kernels) :
  registry_consistent k -> next_ref (onConnectionChanged connection change k) = next_ref k.
Proof.
  intros ((ND & _) & _ & _). destruct change; [reflexivity |].
  unfold onConnectionChanged. rewrite remove_all_spec by exact ND. reflexivity.
Qed.

Lemma find_has_key_removed (notebookType : string) (connection : IConnectionInfo)
    (registry : list Controller) :
  find (has_key (getControllerId connection notebookType) notebookType)
       (filter (fun c => negb (same_connection_id connection c)) registry) = None.
Proof.
  induction registry as [|c registry IH]; cbn [filter]; [reflexivity |].
  destruct (same_connection_id connection c) eqn:S; cbn [negb]; [exact IH |].
  cbn [find].
  destruct (has_key _ notebookType c) eqn:H; [| exact IH].
  apply has_key_spec in H as [_ H].
  unfold same_connection_id in S. rewrite H, String.eqb_refl in S. discriminate S.
Qed.

Lemma same_ref_same_controller (registry : list Controller) (c c' : Controller) :
  NoDup (map ctl_ref registry) -> In c registry -> In c' registry ->
  ctl_ref c = ctl_ref c' -> c = c'.
Proof.
  induction registry as [|a l IH]; intros ND I I' E; [destruct I |].
  cbn in ND. inversion ND as [|? ? Ha ND']; subst.
  destruct I as [Ea|I], I' as [Eb|I']; [congruence | | | auto].
  - exfalso. apply Ha. rewrite Ea, E. apply in_map. exact I'.
  - exfalso. apply Ha. rewrite Eb, <- E. apply in_map. exact I.
Qed.

(** X25.  A controller that was torn down is never handed out again:
    when a connection is removed and a controller for it is asked for
    once more, [registerController] makes a new object, registered with
    the host, while the old one stays disposed. *)
Theorem readded_connection_gets_new_controller (es : list KernelEvent)
    (notebookType : string) (connection : IConnectionInfo) :
  ctl_ref (fst (registerController notebookType connection
                  (onConnectionChanged connection removed
                     (snd (registerController notebookType connection (after_events es))))))
  = next_ref (snd (registerController notebookType connection (after_events es)))
  /\ ctl_ref (fst (registerController notebookType connection
                     (onConnectionChanged connection removed
                        (snd (registerController notebookType connection
                                (after_events es))))))
     <> ctl_ref (fst (registerController notebookType connection (after_events es)))
  /\ In (next_ref (snd (registerController notebookType connection (after_events es))))
        (host_controllers
           (snd (registerController notebookType connection
                   (onConnectionChanged connection removed
                      (snd (registerController notebookType connection
                              (after_events es)))))))
  /\ ~ In (ctl_ref (fst (registerController notebookType connection (after_events es))))
          (host_controllers
             (snd (registerController notebookType connection
                     (onConnectionChanged connection removed
                        (snd (registerController notebookType connection
                                (after_events es))))))).
Proof.
  set (k0 := after_events es).
  set (k1 := snd (registerController notebookType connection k0)).
  set (c1 := fst (registerController notebookType connection k0)).
  set (k2 := onConnectionChanged connection removed k1).
  assert (K1 : registry_consistent k1)
    by (apply registerController_consistent, after_events_consistent).
  destruct (onConnectionChanged_removed connection k1 K1) as [R Hh].
  pose proof (onConnectionChanged_next_ref connection removed k1 K1) as Nx.
  fold k2 in R, Hh, Nx.
  destruct (registerController_result notebookType connection k0) as (Ic & Hn & Hc).
  fold k1 in Ic. fold c1 in Ic, Hn, Hc.
  assert (Below : ctl_ref c1 < next_ref k1).
  { destruct K1 as ((_ & B) & _ & _). rewrite Forall_forall in B. apply B, Ic. }
  assert (New : registerController notebookType connection k2
                = (mkController (next_ref k2) notebookType connection,
                   mkKernels (registeredControllers k2 ++ [mkController (next_ref k2)
                                                             notebookType connection])%list
                             (host_controllers k2 ++ [next_ref k2])%list
                             (S (next_ref k2)))).
  { unfold registerController. rewrite R, find_has_key_removed. reflexivity. }
  rewrite New. cbn [fst snd ctl_ref host_controllers]. rewrite Nx.
  split; [reflexivity |]. split; [lia |]. split.
  - apply in_or_app. right. left. reflexivity.
  - intros I. apply in_app_or in I as [I|[E|[]]]; [| lia].
    rewrite Hh in I. apply in_map_iff in I as (c & E & I).
    apply filter_In in I as [I S].
    assert (c = c1).
    { destruct K1 as ((ND & _) & _ & _).
      apply (same_ref_same_controller (registeredControllers k1)); assumption. }
    subst c. unfold same_connection_id in S. rewrite Hc, String.eqb_refl in S.
    discriminate S.
Qed.

(** ** The task protocol of [executeCell] *)

Lemma requested_when_first (run : QueryRun) :
  token_fires_first run = true -> isCancellationRequested run = true.
Proof.
  unfold isCancellationRequested, token_fires_first.
  destruct (cancelledAt run) as [c|]; [|discriminate].
  intros H. apply Nat.ltb_lt in H. apply Nat.leb_le. lia.
Qed.

Lemma executeCell_without_failures (chartType : KustoResponseDataSet -> JsVal)
    (client : bool) (startNow endNow : Z) (run : QueryRun) :
  executeCell_among_failures chartType (fun _ => None)
    (if client then ClientReady else ClientMissing) startNow endNow (Some run)
  = (executeCell chartType client startNow endNow run, Returns).
Proof.
  unfold executeCell_among_failures, executeCell. destruct client; cbn [negb]; [| reflexivity].
  destruct (promise_race run) as [[r|]|ex]; reflexivity.
Qed.

Lemma success_output_normalized (chartType : KustoResponseDataSet -> JsVal)
    (results : KustoResponseDataSet) :
  exists mime, success_output chartType results = [JsonItem mime (normalized results)].
Proof.
  unfold success_output, normalized.
  destruct (truthy _ && negb _)%bool; eexists; reflexivity.
Qed.

(** What a settled run of a ready client leaves, case by case. *)
Lemma executeCell_settled (chartType : KustoResponseDataSet -> JsVal)
    (rendering : KustoResponseDataSet -> option Thrown) (startNow endNow : Z)
    (run : QueryRun) :
  exists outputs success,
    executeCell_among_failures chartType rendering ClientReady startNow endNow (Some run)
    = (([TaskStart startNow; TaskClearOutput] ++ map TaskAppendOutput outputs
        ++ [TaskEnd success (Some endNow)])%list, Returns)
    /\ List.length outputs <= 1
    /\ (success = true <->
        isCancellationRequested run = false
        /\ exists results, settlement run = Fulfilled (Some results))
    /\ (forall results,
          isCancellationRequested run = false ->
          settlement run = Fulfilled (Some results) ->
          outputs
          = [match rendering results with
             | None => success_output chartType results
             | Some ex => [ErrorItem (fst (classify_error ex)) (snd (classify_error ex))]
             end]).
Proof.
  unfold executeCell_among_failures, promise_race.
  destruct (token_fires_first run) eqn:First.
  { pose proof (requested_when_first run First) as C.
    exists [], false. cbn. split; [reflexivity |]. split; [lia |]. split.
    - split; [discriminate | intros [C' _]; congruence].
    - intros results C'. congruence. }
  destruct (settlement run) as [[results|]|ex] eqn:S.
  - destruct (isCancellationRequested run) eqn:C.
    + exists [], false. cbn. split; [reflexivity |]. split; [lia |]. split.
      * split; [discriminate | intros [C' _]; discriminate C'].
      * intros results' C'. discriminate C'.
    + destruct (rendering results) as [ex|] eqn:Rn.
      * destruct (classify_error ex) as [errorName errorMessage] eqn:K.
        exists [[ErrorItem errorName errorMessage]], true. cbn.
        split; [reflexivity |]. split; [lia |]. split.
        -- split; [intros _; split; [reflexivity | eauto] | reflexivity].
        -- intros results' _ E. injection E as <-. rewrite Rn, K. reflexivity.
      * exists [success_output chartType results], true. cbn.
        split; [reflexivity |]. split; [lia |]. split.
        -- split; [intros _; split; [reflexivity | eauto] | reflexivity].
        -- intros results' _ E. injection E as <-. rewrite Rn. reflexivity.
  - exists [], false. cbn. split; [reflexivity |]. split; [lia |]. split.
    + split; [discriminate | intros (_ & r & E); discriminate E].
    + intros results' _ E. discriminate E.
  - destruct (classify_error ex) as [errorName errorMessage].
    exists [[ErrorItem errorName errorMessage]], false. cbn.
    split; [reflexivity |]. split; [lia |]. split.
    + split; [discriminate | intros (_ & r & E); discriminate E].
    + intros results' _ E. discriminate E.
Qed.

Lemma appended_outputs (outputs : list (list OutputItem)) (tail : list TaskOp) :
  appended (map TaskAppendOutput outputs ++ tail)%list = (outputs ++ appended tail)%list.
Proof. induction outputs as [|o outputs IH]; cbn; [reflexivity | now rewrite IH]. Qed.

Lemma no_end_in_outputs (outputs : list (list OutputItem)) :
  filter is_end (map TaskAppendOutput outputs) = [].
Proof. induction outputs as [|o outputs IH]; cbn; [reflexivity | exact IH]. Qed.

(** The shape of every run: some operations that are not [end],
    followed by at most one [end]. *)
Lemma executeCell_shape (chartType : KustoResponseDataSet -> JsVal)
    (rendering : KustoResponseDataSet -> option Thrown) (client : ClientCreation)
    (startNow endNow : Z) (run : option QueryRun) :
  exists before ending,
    fst (executeCell_among_failures chartType rendering client startNow endNow run)
    = (before ++ ending)%list
    /\ filter is_end before = []
    /\ (ending = []
        /\ snd (executeCell_among_failures chartType rendering client startNow endNow run)
           <> Returns
        \/ exists success endTime,
            ending = [TaskEnd success endTime]
            /\ snd (executeCell_among_failures chartType rendering client startNow endNow run)
               = Returns).
Proof.
  destruct client as [| |ex].
  - destruct run as [run|].
    + destruct (executeCell_settled chartType rendering startNow endNow run)
        as (outputs & success & E & _).
      rewrite E. cbn [fst snd].
      exists ([TaskStart startNow; TaskClearOutput] ++ map TaskAppendOutput outputs)%list,
             [TaskEnd success (Some endNow)].
      split; [rewrite <- app_assoc; reflexivity |]. split.
      * cbn. apply no_end_in_outputs.
      * right. eauto.
    + exists [TaskStart startNow; TaskClearOutput], []. cbn.
      split; [reflexivity |]. split; [reflexivity |]. left. split; [reflexivity | discriminate].
  - exists [], [TaskEnd false None]. cbn.
    split; [reflexivity |]. split; [reflexivity |]. right. eauto.
  - exists [], []. cbn.
    split; [reflexivity |]. split; [reflexivity |]. left. split; [reflexivity | discriminate].
Qed.

Lemma ended_last (before : list TaskOp) (op : TaskOp) :
  ended (before ++ [op])%list
  = match op with
    | TaskEnd success endTime => Some (success, endTime)
    | _ => None
    end.
Proof. unfold ended. rewrite last_last. reflexivity. Qed.

Lemma ended_none (before : list TaskOp) : filter is_end before = [] -> ended before = None.
Proof.
  unfold ended. induction before as [|op before IH] using rev_ind; [reflexivity |].
  rewrite filter_app, last_last. cbn. intros H. apply app_eq_nil in H as [_ H].
  destruct op; try reflexivity. discriminate H.
Qed.

(** X11.  [executeCell] ends its task at most once, and does nothing to
    it afterwards.  It ends it exactly when [Client.create] did not
    reject and, with a client, the race settled: a rejected
    [Client.create] leaves the task untouched and never ended, a race
    that never settles leaves it started and never ended.  With a
    client the end carries [Date.now()], after at most one output.  The
    task ends successfully exactly when the query fulfilled with a
    result and no cancellation was requested, even when handling the
    result then threw: the one output is the normalized result if
    nothing was thrown, and the error artifact of the thrown value
    otherwise. *)
Theorem executeCell_ends_the_task_once (chartType : KustoResponseDataSet -> JsVal)
    (rendering : KustoResponseDataSet -> option Thrown) (client : ClientCreation)
    (startNow endNow : Z) (run : option QueryRun) :
  let outcome := executeCell_among_failures chartType rendering client startNow endNow run in
  List.length (filter is_end (fst outcome)) <= 1
  /\ (forall before op after,
        fst outcome = (before ++ op :: after)%list -> is_end op = true -> after = [])
  /\ List.length (appended (fst outcome)) <= 1
  /\ ((exists success endTime, ended (fst outcome) = Some (success, endTime))
      <-> snd outcome = Returns)
  /\ (snd outcome = Returns
      <-> client = ClientMissing \/ client = ClientReady /\ exists r, run = Some r)
  /\ (forall ex, client = ClientRejected ex -> outcome = ([], RejectsWith ex))
  /\ (client = ClientReady -> run = None ->
      outcome = ([TaskStart startNow; TaskClearOutput], StaysPending))
  /\ (client = ClientMissing -> outcome = ([TaskEnd false None], Returns))
  /\ (forall endTime,
        ended (fst outcome) = Some (true, endTime)
        <-> endTime = Some endNow /\ client = ClientReady
            /\ exists r results,
                run = Some r /\ isCancellationRequested r = false
                /\ settlement r = Fulfilled (Some results))
  /\ (forall r results,
        client = ClientReady -> run = Some r ->
        isCancellationRequested r = false -> settlement r = Fulfilled (Some results) ->
        (rendering results = None ->
         exists mime, appended (fst outcome) = [[JsonItem mime (normalized results)]])
        /\ (forall ex, rendering results = Some ex ->
                       appended (fst outcome)
                       = [[ErrorItem (fst (classify_error ex)) (snd (classify_error ex))]]))
  /\ (forall (b : bool) (r : QueryRun),
        executeCell_among_failures chartType (fun _ => None)
          (if b then ClientReady else ClientMissing) startNow endNow (Some r)
        = (executeCell chartType b startNow endNow r, Returns)).
Proof.
  cbv zeta.
  destruct (executeCell_shape chartType rendering client startNow endNow run)
    as (before & ending & Shape & NoEnd & Ending).
  split; [| split; [| split; [| split; [| split; [| split; [| split; [| split;
          [| split; [| split]]]]]]]]].
  - rewrite Shape, filter_app, NoEnd.
    destruct Ending as [[-> _]|(success & endTime & -> & _)]; cbn; lia.
  - intros pre op after E End. rewrite Shape in E.
    destruct Ending as [[-> _]|(success & endTime & -> & _)].
    + rewrite app_nil_r in E. rewrite E, filter_app in NoEnd. cbn in NoEnd.
      rewrite End in NoEnd. apply app_eq_nil in NoEnd as [_ NoEnd]. discriminate NoEnd.
    + destruct after as [|x after] using rev_ind; [reflexivity |].
      exfalso. clear IHafter.
      rewrite app_comm_cons, app_assoc in E. apply app_inj_tail in E as [E _].
      rewrite E, filter_app in NoEnd. cbn in NoEnd. rewrite End in NoEnd.
      apply app_eq_nil in NoEnd as [_ NoEnd]. discriminate NoEnd.
  - destruct client as [| |ex]; [| cbn; lia | cbn; lia].
    destruct run as [r|]; [| cbn; lia].
    destruct (executeCell_settled chartType rendering startNow endNow r)
      as (outputs & success & E & Len & _).
    rewrite E. cbn [fst app appended]. rewrite appended_outputs. cbn.
    rewrite app_nil_r. exact Len.
  - rewrite Shape.
    destruct Ending as [[-> NR]|(success & endTime & -> & Rt)].
    + rewrite app_nil_r, (ended_none before NoEnd).
      split; [intros (? & ? & H); discriminate H | intros H; contradiction].
    + rewrite ended_last. split; [auto | eauto].
  - destruct client as [| |ex]; cbn.
    + destruct run as [r|]; cbn.
      * split; [intros _; right; eauto | reflexivity].
      * split; [discriminate | intros [H|[_ [r H]]]; discriminate H].
    + split; [auto | reflexivity].
    + split; [discriminate | intros [H|[H _]]; discriminate H].
  - intros ex ->. reflexivity.
  - intros -> ->. reflexivity.
  - intros ->. reflexivity.
  - intros endTime.
    destruct client as [| |ex].
    + destruct run as [r|].
      * destruct (executeCell_settled chartType rendering startNow endNow r)
          as (outputs & success & E & _ & Succ & _).
        rewrite E. cbn [fst]. rewrite app_assoc, ended_last. split.
        -- intros H. injection H as -> <-. split; [reflexivity |]. split; [reflexivity |].
           destruct (proj1 Succ eq_refl) as (C & results & S). eauto 6.
        -- intros (-> & _ & r' & results & Er & C & S). injection Er as <-.
           rewrite (proj2 Succ (conj C (ex_intro _ results S))). reflexivity.
      * cbn. split; [discriminate | intros (_ & _ & r & ? & H & _); discriminate H].
    + cbn. split; [discriminate | intros (_ & H & _); discriminate H].
    + cbn. split; [discriminate | intros (_ & H & _); discriminate H].
  - intros r results -> -> C S.
    destruct (executeCell_settled chartType rendering startNow endNow r)
      as (outputs & success & E & _ & _ & Out).
    rewrite E. cbn [fst app appended]. rewrite appended_outputs. cbn. rewrite app_nil_r.
    rewrite (Out results C S). split.
    + intros ->. destruct (success_output_normalized chartType results) as [mime M].
      exists mime. rewrite M. reflexivity.
    + intros ex ->. reflexivity.
  - intros b r. apply executeCell_without_failures.
Qed.

Lemma executeCell_ends_the_task_once_witness :
  ended (fst (executeCell_among_failures (fun _ => JUndefined)
                (fun _ => Some (mkThrown (JObj [("name", JStr "TypeError");
                                                ("message", JStr "boom")]) true))
                ClientReady 10 20 (Some (mkRun None 3 (Fulfilled (Some kept_response))))))
  = Some (true, Some 20%Z)
  /\ appended (fst (executeCell_among_failures (fun _ => JUndefined)
                      (fun _ => Some (mkThrown (JObj [("name", JStr "TypeError");
                                                      ("message", JStr "boom")]) true))
                      ClientReady 10 20
                      (Some (mkRun None 3 (Fulfilled (Some kept_response))))))
     = [[ErrorItem (JStr "TypeError") (JStr "boom")]].
Proof.
  destruct (executeCell_ends_the_task_once (fun _ => JUndefined)
              (fun _ => Some (mkThrown (JObj [("name", JStr "TypeError");
                                              ("message", JStr "boom")]) true))
              ClientReady 10 20 (Some (mkRun None 3 (Fulfilled (Some kept_response)))))
    as (_ & _ & _ & _ & _ & _ & _ & _ & Succ & Out & _).
  split.
  - apply (proj2 (Succ (Some 20%Z))). split; [reflexivity |]. split; [reflexivity |].
    exists (mkRun None 3 (Fulfilled (Some kept_response))), kept_response.
    repeat split.
  - apply (proj2 (Out (mkRun None 3 (Fulfilled (Some kept_response))) kept_response
                      eq_refl eq_refl eq_refl eq_refl)
                 (mkThrown (JObj [("name", JStr "TypeError"); ("message", JStr "boom")]) true)
                 eq_refl).
Defined.

(** X12.  Once cancellation has been requested by the time the awaiting
    code resumes, no query result reaches the cell: the task ends
    unsuccessfully and its output is empty, or the one error artifact
    when the client's promise had rejected no later than the token
    fired. *)
Theorem executeCell_drops_result_after_cancellation
    (chartType : KustoResponseDataSet -> JsVal) (startNow endNow : Z) (run : QueryRun) :
  isCancellationRequested run = true ->
  ended (executeCell chartType true startNow endNow run) = Some (false, Some endNow)
  /\ (appended (executeCell chartType true startNow endNow run) = []
      \/ exists ex,
          settlement run = Rejected ex /\ token_fires_first run = false
          /\ appended (executeCell chartType true startNow endNow run)
             = [[ErrorItem (fst (classify_error ex)) (snd (classify_error ex))]]).
Proof.
  intros C. unfold executeCell, promise_race. cbn [negb].
  destruct (token_fires_first run) eqn:First; [cbn; auto |].
  destruct (settlement run) as [[results|]|ex] eqn:S.
  - rewrite C. cbn. auto.
  - cbn. auto.
  - destruct (classify_error ex) as [errorName errorMessage] eqn:K. cbn.
    split; [reflexivity |]. right. exists ex. rewrite K. auto.
Qed.

Lemma executeCell_drops_result_after_cancellation_witness :
  ended (executeCell (fun _ => JUndefined) true 10 20
           (mkRun (Some 3) 3 (Fulfilled (Some kept_response))))
  = Some (false, Some 20%Z)
  /\ (appended (executeCell (fun _ => JUndefined) true 10 20
                  (mkRun (Some 3) 3 (Fulfilled (Some kept_response)))) = []
      \/ exists ex,
          settlement (mkRun (Some 3) 3 (Fulfilled (Some kept_response))) = Rejected ex
          /\ token_fires_first (mkRun (Some 3) 3 (Fulfilled (Some kept_response))) = false
          /\ appended (executeCell (fun _ => JUndefined) true 10 20
                         (mkRun (Some 3) 3 (Fulfilled (Some kept_response))))
             = [[ErrorItem (fst (classify_error ex)) (snd (classify_error ex))]]).
Proof.
  apply (executeCell_drops_result_after_cancellation (fun _ => JUndefined) 10 20
           (mkRun (Some 3) 3 (Fulfilled (Some kept_response)))).
  reflexivity.
Defined.

(** X13.  A failure that carries no response object is reported by what
    it is: an [Error] instance under its own name and message; any
    other object with a [message] as a Query Error whose message is
    followed by the message of its [innererror] in brackets, when there
    is one; anything else (an object without message, a string, a
    number, [null], [undefined]) as a Query Error with the default
    message. *)
Theorem executeCell_reports_failure_without_response
    (chartType : KustoResponseDataSet -> JsVal) (startNow endNow : Z)
    (run : QueryRun) (ex : Thrown) :
  rejects run ex ->
  no_response (thrown_value ex) ->
  exists errorName errorMessage,
    appended (executeCell chartType true startNow endNow run)
    = [[ErrorItem errorName errorMessage]]
    /\ ended (executeCell chartType true startNow endNow run) = Some (false, Some endNow)
    /\ (forall props, thrown_value ex = JObj props -> instanceof_Error ex = true ->
          errorName = get (JObj props) "name" /\ errorMessage = get (JObj props) "message")
    /\ (forall props, thrown_value ex = JObj props -> instanceof_Error ex = false ->
          has_property "message" (JObj props) = true ->
          errorName = JStr "Query Error"
          /\ errorMessage = JStr (ToString (get (JObj props) "message")
                                  ++ inner_message (JObj props)))
    /\ (forall props, thrown_value ex = JObj props -> instanceof_Error ex = false ->
          has_property "message" (JObj props) = false ->
          errorName = JStr "Query Error" /\ errorMessage = default_message)
    /\ ((forall props, thrown_value ex <> JObj props) ->
        (forall xs, thrown_value ex <> JArr xs) ->
        errorName = JStr "Query Error" /\ errorMessage = default_message).
Proof.
  intros Rj NR.
  exists (fst (classify_error ex)), (snd (classify_error ex)).
  rewrite (executeCell_rejected chartType startNow endNow run ex Rj).
  split; [reflexivity |]. split; [reflexivity |].
  unfold classify_error. unfold no_response in NR.
  split; [| split; [| split]].
  - intros props E I. rewrite E in *. cbn [truthy typeof_object andb].
    rewrite NR, I. auto.
  - intros props E I M. rewrite E in *. cbn [truthy typeof_object andb].
    rewrite NR, I, M. auto.
  - intros props E I M. rewrite E in *. cbn [truthy typeof_object andb].
    rewrite NR, I, M. auto.
  - intros NO NA.
    destruct (thrown_value ex) as [| |b|n| |s|xs|props] eqn:E;
      [| | | | | | exfalso; apply (NA xs); reflexivity
       | exfalso; apply (NO props); reflexivity];
      cbn [truthy typeof_object]; rewrite ?andb_false_r; cbn; auto.
Qed.

Lemma executeCell_reports_failure_without_response_witness :
  exists errorName errorMessage,
    appended (executeCell (fun _ => JUndefined) true 10 20
                (mkRun None 3
                   (Rejected (mkThrown (JObj [("message", JStr "Semantic error");
                                              ("innererror",
                                               JObj [("message", JStr "unknown table")])])
                                       false))))
    = [[ErrorItem errorName errorMessage]]
    /\ errorName = JStr "Query Error"
    /\ errorMessage = JStr "Semantic error (unknown table)".
Proof.
  destruct (executeCell_reports_failure_without_response (fun _ => JUndefined) 10 20
              (mkRun None 3
                 (Rejected (mkThrown (JObj [("message", JStr "Semantic error");
                                            ("innererror",
                                             JObj [("message", JStr "unknown table")])])
                                     false)))
              (mkThrown (JObj [("message", JStr "Semantic error");
                               ("innererror", JObj [("message", JStr "unknown table")])])
                        false))
    as (errorName & errorMessage & A & _ & _ & M & _).
  - split; reflexivity.
  - reflexivity.
  - exists errorName, errorMessage. split; [exact A |].
    apply (M _ eq_refl eq_refl eq_refl).
Defined.

(** ** What the chart renderer reads *)

Lemma getChartType_no_properties (results : KustoResponseDataSet) :
  extended_properties results = None -> getChartType results = Ok None.
Proof.
  unfold extended_properties, getChartType. intros F.
  destruct (tables results); [reflexivity |]. rewrite F. reflexivity.
Qed.

Lemma getChartType_no_rows (results : KustoResponseDataSet) (t : Table) :
  extended_properties results = Some t -> table_rows t = [] ->
  getChartType results = Ok None.
Proof.
  unfold extended_properties, getChartType. intros F R.
  destruct (tables results); [reflexivity |]. rewrite F, R. reflexivity.
Qed.

Lemma getChartType_of_cells (results : KustoResponseDataSet) :
  getChartType results
  = match metadata_cells results with
    | None => Ok None
    | Some (c0, c1, c2) =>
        if (negb (strict_eq_str c1 "Visualization")
            && match c0 with
               | JStr s => negb (includes s "Visualization")
               | _ => true
               end)%bool
        then Ok None
        else
          do first <- try_parse c2;
          let data := match first with Some d => d | None => JUndefined end in
          do data <-
             (if truthy data then Ok data
              else do second <- try_parse c0;
                   Ok (match second with Some d => d | None => data end));
          if truthy data then Ok (chart_of_metadata data) else Ok None
    end.
Proof.
  unfold metadata_cells.
  destruct (extended_properties results) as [t|] eqn:F;
    [| apply getChartType_no_properties; exact F].
  destruct (table_rows t) as [|row0 rest] eqn:R;
    [apply (getChartType_no_rows results t F R) |].
  apply (getChartType_unfold results t row0 rest F R).
Qed.

(** X14.  [getChartType] is decided by three cells: ordinals 0, 1 and 2
    of the first row of the first table named [@ExtendedProperties].
    Two responses that agree on them get the same chart, whatever their
    primary results, their other tables, rows and cells are. *)
Theorem getChartType_reads_three_cells (results results' : KustoResponseDataSet) :
  metadata_cells results = metadata_cells results' ->
  getChartType results = getChartType results'.
Proof.
  intros E. rewrite !getChartType_of_cells, E. reflexivity.
Qed.

Lemma getChartType_reads_three_cells_witness :
  getChartType
    (mkResponse (Some [primary_table])
       [primary_table;
        mkTable "@ExtendedProperties" []
          (KustoRows [[JNum 1; JStr "Visualization"; JStr piechart_metadata]])]
       ["PrimaryResult"; "@ExtendedProperties"])
  = getChartType
      (mkResponse None
         [mkTable "@ExtendedProperties" [mkColumn "Value" "string" 2]
            (PlainArrays [[JNum 1; JStr "Visualization"; JStr piechart_metadata; JNull];
                          [JNum 2; JStr "Other"; JStr "{}"]]);
          other_table]
         []).
Proof.
  apply getChartType_reads_three_cells. reflexivity.
Defined.

Lemma find_long_append (l1 l2 : list Column) :
  find is_long (l1 ++ l2)
  = match find is_long l1 with
    | Some c => Some c
    | None => find is_long l2
    end.
Proof.
  induction l1 as [|c l1 IH]; cbn; [reflexivity |].
  destruct (is_long c); [reflexivity | exact IH].
Qed.

Lemma find_long_none (l : list Column) :
  (forall c, In c l -> is_long c = false) -> find is_long l = None.
Proof.
  induction l as [|c l IH]; intros H; cbn; [reflexivity |].
  rewrite (H c) by (left; reflexivity). apply IH. intros c' I. apply H. right. exact I.
Qed.

Lemma find_last_long (pre post : list Column) (c : Column) :
  is_long c = true ->
  (forall c', In c' post -> is_long c' = false) ->
  find is_long (rev (pre ++ c :: post)) = Some c.
Proof.
  intros L N. rewrite rev_app_distr. cbn [rev]. rewrite <- app_assoc.
  rewrite find_long_append, find_long_none.
  - cbn. rewrite L. reflexivity.
  - intros c' I. apply N. apply in_rev. exact I.
Qed.

Lemma pie_valuesColumnIndex_columns (cols : list Column) (rows : list (list JsVal)) :
  cols <> [] ->
  pie_valuesColumnIndex cols rows
  = match find is_long (rev cols) with
    | Some item =>
        if Z.eqb (col_ordinal item) 0
        then (Z.of_nat (List.length cols) - 1)%Z
        else col_ordinal item
    | None => (Z.of_nat (List.length cols) - 1)%Z
    end.
Proof.
  intros NE. unfold pie_valuesColumnIndex.
  destruct cols as [|c cols]; [congruence |].
  cbn [List.length Nat.ltb Nat.leb]. rewrite length_rev. reflexivity.
Qed.

(** X15.  For a pie chart over a table whose ordinals are the
    positions, the values column is inside the table; it is the last
    column of type [long] when that is not the first column, and the
    last column of the table when the only [long] column is the first
    one or there is none.  Labels and values have one entry per row,
    read from column 0 and from the values column. *)
Theorem pie_values_column (cols : list Column) (rows : list (list JsVal)) :
  cols <> [] ->
  positional cols ->
  (0 <= pie_valuesColumnIndex cols rows < Z.of_nat (List.length cols))%Z
  /\ (forall pre c post,
        cols = (pre ++ c :: post)%list -> pre <> [] -> is_long c = true ->
        (forall c', In c' post -> is_long c' = false) ->
        pie_valuesColumnIndex cols rows = Z.of_nat (List.length pre))
  /\ (forall c post,
        cols = c :: post ->
        (forall c', In c' post -> is_long c' = false) ->
        pie_valuesColumnIndex cols rows = Z.of_nat (List.length post))
  /\ pie_labels (pieData cols rows) = map (fun row => cell row 0) rows
  /\ pie_values (pieData cols rows)
     = map (fun row => cell row (Z.to_nat (pie_valuesColumnIndex cols rows))) rows.
Proof.
  intros NE Pos.
  assert (Len : (0 < Z.of_nat (List.length cols))%Z)
    by (destruct cols; [congruence | cbn; lia]).
  assert (Range : (0 <= pie_valuesColumnIndex cols rows < Z.of_nat (List.length cols))%Z).
  { rewrite pie_valuesColumnIndex_columns by exact NE.
    destruct (find is_long (rev cols)) as [item|] eqn:F; [| lia].
    destruct (Z.eqb_spec (col_ordinal item) 0); [lia |].
    apply find_some in F as [I _]. apply in_rev in I.
    apply in_split in I as (pre & post & E).
    rewrite (Pos pre item post E). rewrite E, length_app. cbn. lia. }
  split; [exact Range |]. split; [| split; [| split]].
  - intros pre c post E NP L N.
    rewrite pie_valuesColumnIndex_columns by exact NE.
    rewrite E, (find_last_long pre post c L N). rewrite <- E.
    rewrite (Pos pre c post E).
    destruct (Z.eqb_spec (Z.of_nat (List.length pre)) 0); [| reflexivity].
    destruct pre; [congruence | cbn in *; lia].
  - intros c post E N.
    rewrite pie_valuesColumnIndex_columns by exact NE.
    assert (Last : (Z.of_nat (List.length cols) - 1)%Z = Z.of_nat (List.length post))
      by (rewrite E; cbn [List.length]; lia).
    destruct (is_long c) eqn:L.
    + pose proof (find_last_long [] post c L N) as Fl. cbn [app] in Fl.
      rewrite E, Fl. rewrite <- E.
      rewrite (Pos [] c post E). cbn. exact Last.
    + rewrite find_long_none; [exact Last |].
      intros c' I. apply in_rev in I. rewrite E in I. destruct I as [<-|I]; auto.
  - reflexivity.
  - unfold pieData. cbn [pie_values]. apply map_ext. intros row.
    unfold cell_at. destruct (Z.ltb_spec (pie_valuesColumnIndex cols rows) 0); [lia |].
    reflexivity.
Qed.

Lemma pie_values_column_witness :
  pie_valuesColumnIndex [mkColumn "Count" "long" 0; mkColumn "State" "string" 1]
                        [[JNum 3; JStr "TEXAS"]] = 1%Z
  /\ pie_valuesColumnIndex [mkColumn "State" "string" 0; mkColumn "Count" "long" 1;
                            mkColumn "Share" "real" 2]
                           [[JStr "TEXAS"; JNum 3; JNum 1]] = 1%Z.
Proof.
  split.
  - refine (proj1 (proj2 (proj2
      (pie_values_column [mkColumn "Count" "long" 0; mkColumn "State" "string" 1]
                         [[JNum 3; JStr "TEXAS"]] _ _))) _ _ eq_refl _).
    + discriminate.
    + intros pre c post E.
      do 2 (destruct pre as [|? pre]; [cbn in E; inversion E; reflexivity |]).
      destruct pre; discriminate E.
    + intros c' [<-|[]]. reflexivity.
  - refine (proj1 (proj2
      (pie_values_column [mkColumn "State" "string" 0; mkColumn "Count" "long" 1;
                          mkColumn "Share" "real" 2]
                         [[JStr "TEXAS"; JNum 3; JNum 1]] _ _))
      [mkColumn "State" "string" 0] (mkColumn "Count" "long" 1)
      [mkColumn "Share" "real" 2] eq_refl _ eq_refl _).
    + discriminate.
    + intros pre c post E.
      do 3 (destruct pre as [|? pre]; [cbn in E; inversion E; reflexivity |]).
      destruct pre; discriminate E.
    + discriminate.
    + intros c' [<-|[]]. reflexivity.
Defined.

Lemma insert_by_keeps_rows (cmp : list JsVal -> list JsVal -> option Z)
    (row : list JsVal) (sortedData : list (list JsVal)) :
  Permutation (row :: sortedData) (insert_by cmp row sortedData).
Proof.
  induction sortedData as [|other rest IH]; cbn [insert_by]; [apply Permutation_refl |].
  destruct (goes_after (cmp row other)); [| apply Permutation_refl].
  eapply perm_trans; [apply perm_swap |]. apply perm_skip. exact IH.
Qed.

Lemma js_sort_keeps_rows (cmp : list JsVal -> list JsVal -> option Z)
    (rows : list (list JsVal)) :
  Permutation rows (js_sort cmp rows).
Proof.
  induction rows as [|row rest IH]; cbn [js_sort]; [constructor |].
  eapply perm_trans; [apply perm_skip; exact IH |]. apply insert_by_keeps_rows.
Qed.

Lemma find_ordinal_declared (ty : string) (cols : list Column) :
  find_ordinal ty cols = (-1)%Z <-> declared_ordinal ty cols = Some (-1)%Z.
Proof.
  unfold find_ordinal, declared_ordinal.
  destruct (find _ cols) as [c|]; cbn; split; intros H; congruence.
Qed.

Lemma time_sortedData_permutation (getTime : JsVal -> option Z)
    (cols : list Column) (rows sortedData : list (list JsVal)) :
  time_sortedData getTime cols rows = Some sortedData -> Permutation rows sortedData.
Proof.
  unfold time_sortedData. cbv zeta.
  destruct (_ && _)%bool; [discriminate |].
  intros E. injection E as <-.
  repeat match goal with
         | |- context [if ?b then _ else _] => destruct b
         end;
    repeat (eapply perm_trans; [| apply js_sort_keeps_rows]); apply Permutation_refl.
Qed.

(** X16.  The time branch never loses, repeats or invents a row: what
    it plots is a rearrangement of the rows.  Its early return ("No
    datetime nor timespan column") is taken only when a datetime and a
    timespan column are both declared with ordinal -1; a table that
    declares neither kind of column is plotted all the same. *)
Theorem time_sortedData_keeps_rows (getTime : JsVal -> option Z)
    (cols : list Column) (rows : list (list JsVal)) :
  (time_sortedData getTime cols rows = None
   <-> declared_ordinal "datetime" cols = Some (-1)%Z
       /\ declared_ordinal "timespan" cols = Some (-1)%Z)
  /\ (forall sortedData, time_sortedData getTime cols rows = Some sortedData ->
                         Permutation rows sortedData)
  /\ (declared_ordinal "datetime" cols = None \/ declared_ordinal "timespan" cols = None ->
      exists sortedData, time_sortedData getTime cols rows = Some sortedData).
Proof.
  assert (N : time_sortedData getTime cols rows = None
              <-> declared_ordinal "datetime" cols = Some (-1)%Z
                  /\ declared_ordinal "timespan" cols = Some (-1)%Z).
  { rewrite <- !find_ordinal_declared. unfold time_sortedData. cbv zeta.
    destruct (Z.eqb_spec (find_ordinal "timespan" cols) (-1)) as [T|T];
      destruct (Z.eqb_spec (find_ordinal "datetime" cols) (-1)) as [D|D];
      cbn [andb]; split; intros H; try discriminate H; try tauto.
    all: destruct H; contradiction. }
  split; [exact N |]. split.
  - intros sortedData. apply time_sortedData_permutation.
  - intros H.
    destruct (time_sortedData getTime cols rows) as [sortedData|] eqn:E; [eauto |].
    destruct (proj1 N eq_refl) as [D T]. destruct H as [H|H]; congruence.
Qed.

(** ** The series of a time chart *)

Lemma same_value_zero_eq (a b : JsVal) : same_value_zero a b = true -> a = b.
Proof.
  destruct a, b; cbn; try discriminate; try reflexivity; intros H.
  - apply Bool.eqb_prop in H. congruence.
  - apply Z.eqb_eq in H. congruence.
  - apply String.eqb_eq in H. congruence.
Qed.

Lemma same_value_zero_refl (a : JsVal) : is_primitive a = true -> same_value_zero a a = true.
Proof.
  destruct a; cbn; try discriminate; try reflexivity; intros _.
  - apply Bool.eqb_reflx.
  - apply Z.eqb_refl.
  - apply String.eqb_refl.
Qed.

Lemma series_get_set_same (m : list (JsVal * (list JsVal * list JsVal))) (k : JsVal)
    (v : list JsVal * list JsVal) :
  is_primitive k = true -> series_get (series_set m k v) k = Some v.
Proof.
  intros P. induction m as [|[k' v'] m IH]; cbn.
  - rewrite (same_value_zero_refl k P). reflexivity.
  - destruct (same_value_zero k k') eqn:E; cbn; rewrite E; [reflexivity | exact IH].
Qed.

Lemma series_get_set_other (m : list (JsVal * (list JsVal * list JsVal))) (j k : JsVal)
    (v : list JsVal * list JsVal) :
  same_value_zero j k = false -> series_get (series_set m k v) j = series_get m j.
Proof.
  intros D. induction m as [|[k' v'] m IH]; cbn.
  - rewrite D. reflexivity.
  - destruct (same_value_zero k k') eqn:E; cbn.
    + apply same_value_zero_eq in E. subst k'. rewrite D. reflexivity.
    + rewrite IH. reflexivity.
Qed.

Lemma collect_series_get (nameIndex timeIndex valueIndex : Z) (k : JsVal)
    (rows : list (list JsVal)) :
  is_primitive k = true ->
  forall m,
    series_get (collect_series nameIndex timeIndex valueIndex rows m) k
    = match series_get m k, rows_named nameIndex k rows with
      | None, [] => None
      | s, pts =>
          Some (fst (series_or_empty s) ++ map (fun row => cell_at row timeIndex) pts,
                snd (series_or_empty s) ++ map (fun row => cell_at row valueIndex) pts)%list
      end.
Proof.
  intros P. induction rows as [|row rest IH]; intros m.
  - cbn. destruct (series_get m k) as [[x y]|]; cbn; [rewrite !app_nil_r |]; reflexivity.
  - cbn [collect_series rows_named filter]. rewrite IH. fold (rows_named nameIndex k rest).
    destruct (same_value_zero k (cell_at row nameIndex)) eqn:E.
    + apply same_value_zero_eq in E. rewrite <- E.
      rewrite (series_get_set_same _ _ _ P).
      destruct (series_get m k) as [[x y]|]; cbn [series_or_empty fst snd map];
        rewrite <- !app_assoc; reflexivity.
    + rewrite (series_get_set_other _ _ _ _ E).
      reflexivity.
Qed.

Lemma series_set_points (m : list (JsVal * (list JsVal * list JsVal))) (k d v : JsVal) :
  series_points
    (series_set m k (fst (series_or_empty (series_get m k)) ++ [d],
                     snd (series_or_empty (series_get m k)) ++ [v])%list)
  = S (series_points m).
Proof.
  unfold series_points.
  induction m as [|[k' [x y]] m IH]; cbn [series_get series_set]; [reflexivity |].
  destruct (same_value_zero k k'); cbn [map fold_right fst snd series_or_empty].
  - rewrite length_app. cbn. lia.
  - rewrite IH. lia.
Qed.

Lemma series_set_balanced (m : list (JsVal * (list JsVal * list JsVal))) (k d v : JsVal) :
  series_balanced m ->
  series_balanced
    (series_set m k (fst (series_or_empty (series_get m k)) ++ [d],
                     snd (series_or_empty (series_get m k)) ++ [v])%list).
Proof.
  unfold series_balanced.
  induction m as [|[k' [x y]] m IH]; cbn [series_get series_set]; intros B.
  - repeat constructor.
  - inversion B as [|? ? Hx Hm]; subst. cbn in Hx.
    destruct (same_value_zero k k'); constructor; auto.
    cbn. rewrite !length_app. cbn. lia.
Qed.

Lemma collect_series_points (nameIndex timeIndex valueIndex : Z) (rows : list (list JsVal)) :
  forall m,
    series_points (collect_series nameIndex timeIndex valueIndex rows m)
    = series_points m + List.length rows
    /\ (series_balanced m ->
        series_balanced (collect_series nameIndex timeIndex valueIndex rows m)).
Proof.
  induction rows as [|row rest IH]; intros m; cbn [collect_series List.length].
  - split; [lia | auto].
  - destruct (IH (series_set m (cell_at row nameIndex)
                    (fst (series_or_empty (series_get m (cell_at row nameIndex)))
                       ++ [cell_at row timeIndex],
                     snd (series_or_empty (series_get m (cell_at row nameIndex)))
                       ++ [cell_at row valueIndex])%list)) as [Hp Hb].
    fold (series_or_empty (series_get m (cell_at row nameIndex))).
    split.
    + rewrite Hp, series_set_points. lia.
    + intros B. apply Hb, series_set_balanced, B.
Qed.

Lemma find_series_trace (k : JsVal) (m : list (JsVal * (list JsVal * list JsVal))) :
  find (named k) (map series_trace m)
  = match series_get m k with
    | Some s => Some (mkScatter (Some k) (fst s) (snd s))
    | None => None
    end.
Proof.
  induction m as [|[k' v] m IH]; cbn; [reflexivity |].
  unfold named at 1. cbn.
  destruct (same_value_zero k k') eqn:E; [| exact IH].
  apply same_value_zero_eq in E. subst k'. reflexivity.
Qed.

Lemma columnIndexWithValue_some (cols : list Column) :
  cols <> [] -> exists valueIndex, columnIndexWithValue cols = Some valueIndex.
Proof.
  intros NE. unfold columnIndexWithValue.
  destruct (rev cols) as [|lastColumn others] eqn:R.
  - apply (f_equal (@rev Column)) in R. rewrite rev_involutive in R. contradiction.
  - destruct (String.eqb _ _); [eauto |]. destruct (find _ cols); eauto.
Qed.

(** X17.  With more than two columns a time chart has one trace per
    series name.  Every row gives exactly one point: the traces hold as
    many points as there are rows, each trace as many abscissas as
    ordinates.  The trace of a name that is not an object is made of
    the rows carrying that name, in the order they are in, and a name
    no row carries has no trace.  So the chart as a whole plots as many
    points as the table has rows. *)
Theorem time_plotData_groups_by_series (cols : list Column) (sortedData : list (list JsVal)) :
  2 < List.length cols ->
  exists valueIndex traces,
    columnIndexWithValue cols = Some valueIndex
    /\ time_plotData cols sortedData = Ok traces
    /\ points traces = List.length sortedData
    /\ Forall (fun t => List.length (scatter_x t) = List.length (scatter_y t)) traces
    /\ (forall k, is_primitive k = true ->
          find (named k) traces
          = match rows_named (columnIndexWithSeriesName cols) k sortedData with
            | [] => None
            | pts =>
                Some (mkScatter (Some k)
                        (map (fun row => cell_at row (dateHourOrTimeColumnIndex cols)) pts)
                        (map (fun row => cell_at row valueIndex) pts))
            end)
    /\ (forall getTime rows plotted,
          time_chart getTime cols rows = Ok (Some plotted) ->
          points plotted = List.length rows).
Proof.
  intros Len.
  destruct (columnIndexWithValue_some cols) as [valueIndex V];
    [destruct cols; [cbn in Len; lia | discriminate] |].
  assert (Plot : forall data,
             time_plotData cols data
             = Ok (map series_trace
                     (collect_series (columnIndexWithSeriesName cols)
                        (dateHourOrTimeColumnIndex cols) valueIndex data []))).
  { intros data. unfold time_plotData. apply Nat.ltb_lt in Len. rewrite Len, V. reflexivity. }
  assert (Points : forall data,
             points (map series_trace
                       (collect_series (columnIndexWithSeriesName cols)
                          (dateHourOrTimeColumnIndex cols) valueIndex data []))
             = List.length data).
  { intros data.
    destruct (collect_series_points (columnIndexWithSeriesName cols)
                (dateHourOrTimeColumnIndex cols) valueIndex data []) as [Hp _].
    unfold points. rewrite map_map. cbn [series_trace scatter_x].
    unfold series_points in Hp. rewrite Hp. reflexivity. }
  exists valueIndex. eexists. split; [exact V |]. split; [apply Plot |].
  split; [apply Points |]. split; [| split].
  - destruct (collect_series_points (columnIndexWithSeriesName cols)
                (dateHourOrTimeColumnIndex cols) valueIndex sortedData []) as [_ Hb].
    specialize (Hb (Forall_nil _)). unfold series_balanced in Hb.
    rewrite Forall_map. exact Hb.
  - intros k P. rewrite find_series_trace, (collect_series_get _ _ _ _ _ P).
    cbn [series_get series_or_empty fst snd app].
    destruct (rows_named _ k sortedData); reflexivity.
  - intros getTime rows plotted. unfold time_chart.
    destruct (time_sortedData getTime cols rows) as [data|] eqn:S; [| discriminate].
    rewrite Plot. cbn. intros E. injection E as <-.
    rewrite Points. symmetry. apply Permutation_length.
    apply (time_sortedData_permutation getTime cols rows data S).
Qed.

Lemma time_plotData_groups_by_series_witness :
  exists valueIndex traces,
    columnIndexWithValue [mkColumn "t" "datetime" 0; mkColumn "State" "string" 1;
                          mkColumn "n" "long" 2] = Some valueIndex
    /\ time_plotData [mkColumn "t" "datetime" 0; mkColumn "State" "string" 1;
                      mkColumn "n" "long" 2]
                     [[JStr "2020-01-01"; JStr "TEXAS"; JNum 1];
                      [JStr "2020-01-02"; JStr "OHIO"; JNum 2];
                      [JStr "2020-01-03"; JStr "TEXAS"; JNum 3]] = Ok traces
    /\ points traces = 3
    /\ find (named (JStr "TEXAS")) traces
       = Some (mkScatter (Some (JStr "TEXAS")) [JStr "2020-01-01"; JStr "2020-01-03"]
                         [JNum 1; JNum 3]).
Proof.
  destruct (time_plotData_groups_by_series
              [mkColumn "t" "datetime" 0; mkColumn "State" "string" 1; mkColumn "n" "long" 2]
              [[JStr "2020-01-01"; JStr "TEXAS"; JNum 1];
               [JStr "2020-01-02"; JStr "OHIO"; JNum 2];
               [JStr "2020-01-03"; JStr "TEXAS"; JNum 3]])
    as (valueIndex & traces & V & Pl & Pt & _ & Fd & _).
  - cbn. lia.
  - exists valueIndex, traces. split; [exact V |]. split; [exact Pl |]. split; [exact Pt |].
    rewrite (Fd (JStr "TEXAS") eq_refl).
    cbn in V. injection V as <-. reflexivity.
Defined.

(** ** The shape of a sunburst *)

Lemma push_roots_parallel (acc : Sunburst) (m : list (string * JsVal)) :
  parallel acc -> parallel (push_roots acc m).
Proof.
  intros (L & P & V). unfold parallel, push_roots. cbn.
  rewrite !length_app, !length_map. lia.
Qed.

Lemma push_nodes_parallel (acc : Sunburst) (m : list (string * SunburstNode)) :
  parallel acc -> parallel (push_nodes acc m).
Proof.
  intros (L & P & V). unfold parallel, push_nodes. cbn.
  rewrite !length_app, !length_map. lia.
Qed.

Lemma sunburst_levels_parallel (valueColumnIndex : nat) (rows : list (list JsVal))
    (count : nat) :
  forall index acc s,
    parallel acc ->
    sunburst_levels valueColumnIndex rows index count acc = Ok s -> parallel s.
Proof.
  induction count as [|count IH]; intros index acc s PA; cbn [sunburst_levels].
  - intros E. injection E as <-. exact PA.
  - destruct (Nat.eqb valueColumnIndex index); [apply IH; exact PA |].
    destruct (Nat.eqb index 0).
    + destruct (root_level valueColumnIndex rows []) as [m|e]; cbn [bind]; [| discriminate].
      apply IH, push_roots_parallel, PA.
    + destruct (deeper_level index valueColumnIndex rows []) as [m|e]; cbn [bind];
        [| discriminate].
      apply IH, push_nodes_parallel, PA.
Qed.

(** X18.  Whenever [generateSunburstChart] draws, whatever the cells
    hold, the arrays [ids], [labels], [parents] and [values] it hands
    to the plot have the same length. *)
Theorem generateSunburstChart_arrays_go_together (primaryResult : Table) (s : Sunburst) :
  generateSunburstChart primaryResult = Ok (Some s) ->
  List.length (labels s) = List.length (ids s)
  /\ List.length (parents s) = List.length (ids s)
  /\ List.length (values s) = List.length (ids s).
Proof.
  unfold generateSunburstChart.
  destruct (Nat.leb _ 2); [discriminate |].
  destruct (sunburst_levels _ _ _ _ _) as [data|e] eqn:E; cbn [bind]; [| discriminate].
  intros H. injection H as <-.
  refine (sunburst_levels_parallel _ _ _ _ _ _ _ E).
  repeat split.
Qed.

Lemma generateSunburstChart_arrays_go_together_witness :
  List.length (labels (mkSunburst ["A"; "B"; "A-x"; "A-y"; "B-x"]
                                  ["A"; "B"; "x"; "y"; "x"]
                                  [""; ""; "A"; "A"; "B"]
                                  [JNum 5; JNum 5; JNum 3; JNum 2; JNum 5])) = 5
  /\ List.length (parents (mkSunburst ["A"; "B"; "A-x"; "A-y"; "B-x"]
                                      ["A"; "B"; "x"; "y"; "x"]
                                      [""; ""; "A"; "A"; "B"]
                                      [JNum 5; JNum 5; JNum 3; JNum 2; JNum 5])) = 5
  /\ List.length (values (mkSunburst ["A"; "B"; "A-x"; "A-y"; "B-x"]
                                     ["A"; "B"; "x"; "y"; "x"]
                                     [""; ""; "A"; "A"; "B"]
                                     [JNum 5; JNum 5; JNum 3; JNum 2; JNum 5])) = 5.
Proof.
  apply (generateSunburstChart_arrays_go_together regions_table). reflexivity.
Defined.

Lemma method_toString_throws (v : JsVal) (e : JsError) :
  method_toString v = Throw e -> e = TypeError.
Proof. destruct v; cbn; intros H; congruence. Qed.

Lemma method_toString_none (v : JsVal) : no_toString v -> method_toString v = Throw TypeError.
Proof. intros [->| ->]; reflexivity. Qed.

Lemma path_strings_throws (row : list JsVal) (count : nat) :
  forall start e, path_strings row start count = Throw e -> e = TypeError.
Proof.
  induction count as [|count IH]; intros start e; cbn [path_strings]; [discriminate |].
  destruct (method_toString (cell row start)) as [s|e'] eqn:M; cbn [bind].
  - destruct (path_strings row (S start) count) as [r|e'] eqn:P; cbn [bind]; [discriminate |].
    intros H. injection H as <-. apply (IH _ _ P).
  - intros H. injection H as <-. apply (method_toString_throws _ _ M).
Qed.

Lemma root_level_throws (valueColumnIndex : nat) (rows : list (list JsVal)) :
  forall m,
    (forall e, root_level valueColumnIndex rows m = Throw e -> e = TypeError)
    /\ (forall row, In row rows -> no_toString (cell row 0) ->
                    root_level valueColumnIndex rows m = Throw TypeError).
Proof.
  induction rows as [|row' rest IH]; intros m; cbn [root_level].
  - split; [discriminate | intros row []].
  - destruct (method_toString (cell row' 0)) as [label|e'] eqn:M; cbn [bind].
    + split; [apply IH |].
      intros row [<-|I] NT; [| apply IH with (row := row); assumption].
      rewrite (method_toString_none _ NT) in M. discriminate M.
    + rewrite (method_toString_throws _ _ M).
      split; [intros e H; congruence | reflexivity].
Qed.

Lemma deeper_level_throws (index valueColumnIndex : nat) (rows : list (list JsVal)) :
  forall m,
    (forall e, deeper_level index valueColumnIndex rows m = Throw e -> e = TypeError)
    /\ (forall row, In row rows -> no_toString (cell row index) ->
                    deeper_level index valueColumnIndex rows m = Throw TypeError).
Proof.
  induction rows as [|row' rest IH]; intros m; cbn [deeper_level].
  - split; [discriminate | intros row []].
  - destruct (path_strings row' 0 index) as [path|e'] eqn:P; cbn [bind].
    + destruct (method_toString (cell row' index)) as [label|e'] eqn:M; cbn [bind].
      * split; [apply IH |].
        intros row [<-|I] NT; [| apply IH with (row := row); assumption].
        rewrite (method_toString_none _ NT) in M. discriminate M.
      * rewrite (method_toString_throws _ _ M).
        split; [intros e H; congruence | reflexivity].
    + rewrite (path_strings_throws _ _ _ _ P).
      split; [intros e H; congruence | reflexivity].
Qed.

Lemma sunburst_levels_throws (valueColumnIndex : nat) (rows : list (list JsVal))
    (row : list JsVal) (i : nat) :
  In row rows -> no_toString (cell row i) -> i <> valueColumnIndex ->
  forall count index acc,
    index <= i < index + count ->
    sunburst_levels valueColumnIndex rows index count acc = Throw TypeError.
Proof.
  intros I NT NV.
  induction count as [|count IH]; intros index acc R; [lia |].
  cbn [sunburst_levels].
  destruct (Nat.eqb_spec valueColumnIndex index) as [V|V].
  - apply IH. lia.
  - destruct (Nat.eqb_spec index 0) as [Z|Z].
    + destruct (root_level_throws valueColumnIndex rows []) as [Any Here].
      destruct (root_level valueColumnIndex rows []) as [m|e] eqn:E; cbn [bind].
      * destruct (Nat.eq_dec i 0) as [-> | Ni]; [| apply IH; lia].
        discriminate (Here row I NT).
      * rewrite (Any e eq_refl). reflexivity.
    + destruct (deeper_level_throws index valueColumnIndex rows []) as [Any Here].
      destruct (deeper_level index valueColumnIndex rows []) as [m|e] eqn:E; cbn [bind].
      * destruct (Nat.eq_dec i index) as [-> | Ni]; [| apply IH; lia].
        discriminate (Here row I NT).
      * rewrite (Any e eq_refl). reflexivity.
Qed.

(** X19.  A sunburst cannot be drawn over a table with more than two
    columns where some row has [null], [undefined] or nothing at all in
    one of the path columns (every column but the last): the call fails
    with a [TypeError], whatever the other rows hold. *)
Theorem generateSunburstChart_needs_every_label (primaryResult : Table)
    (row : list JsVal) (i : nat) :
  2 < List.length (columns primaryResult) ->
  In row (sunburst_rows primaryResult) ->
  i < List.length (columns primaryResult) - 1 ->
  no_toString (cell row i) ->
  generateSunburstChart primaryResult = Throw TypeError.
Proof.
  intros Len I Hi NT. unfold generateSunburstChart.
  destruct (Nat.leb_spec (List.length (columns primaryResult)) 2); [lia |].
  rewrite (sunburst_levels_throws _ _ row i I NT); [reflexivity | lia | lia].
Qed.

Lemma generateSunburstChart_needs_every_label_witness :
  generateSunburstChart
    (mkTable "PrimaryResult"
       [mkColumn "region" "string" 0; mkColumn "sub" "string" 1; mkColumn "count" "long" 2]
       (KustoRows [[JStr "A"; JStr "x"; JNum 3]; [JStr "B"; JNull; JNum 5]]))
  = Throw TypeError.
Proof.
  apply (generateSunburstChart_needs_every_label _ [JStr "B"; JNull; JNum 5] 1).
  - cbn. lia.
  - cbn. auto.
  - cbn. lia.
  - left. reflexivity.
Defined.

(** ** The rings of a sunburst *)











(** ** Tabular data *)

Lemma get_obj_set (ps : list (string * JsVal)) (k k' : string) (v : JsVal) :
  get (JObj (obj_set ps k' v)) k = if String.eqb k k' then v else get (JObj ps) k.
Proof.
  unfold get. induction ps as [|[j w] ps IH]; cbn [obj_set assoc].
  - destruct (String.eqb k k'); reflexivity.
  - destruct (String.eqb_spec k' j) as [E|E]; cbn [assoc].
    + subst j. destruct (String.eqb k k'); reflexivity.
    + destruct (String.eqb_spec k j) as [Ej|Ej]; [| exact IH].
      subst j. destruct (String.eqb_spec k k'); [congruence | reflexivity].
Qed.

Lemma find_named_snoc (k : string) (c : Column) (cols : list Column) :
  find (named_column k) (rev (c :: cols))
  = match find (named_column k) (rev cols) with
    | Some c' => Some c'
    | None => if named_column k c then Some c else None
    end.
Proof.
  cbn [rev]. generalize (rev cols). intros l.
  induction l as [|x l IH]; cbn; [reflexivity |].
  destruct (named_column k x); [reflexivity | exact IH].
Qed.

Lemma datapoint_holds (raw : list JsVal) (cols : list Column) :
  no_proto_column cols ->
  forall rowData,
  exists dp,
    datapoint cols raw rowData = Ok dp
    /\ forall k, get (JObj dp) k
                 = match find (named_column k) (rev cols) with
                   | Some c => cell_at raw (col_ordinal c)
                   | None => get (JObj rowData) k
                   end.
Proof.
  induction cols as [|c cols IH]; intros NP rowData.
  - exists rowData. split; reflexivity.
  - assert (NP' : no_proto_column cols) by (intros c' I; apply NP; right; exact I).
    cbn [datapoint].
    destruct (String.eqb_spec (col_name c) "") as [E|E].
    + destruct (IH NP' rowData) as (dp & D & G). exists dp. split; [exact D |].
      intros k. rewrite G, find_named_snoc.
      assert (Off : named_column k c = false)
        by (unfold named_column; rewrite E; reflexivity).
      rewrite Off. destruct (find (named_column k) (rev cols)); reflexivity.
    + destruct (String.eqb_spec (col_name c) "__proto__") as [P|P];
        [exfalso; apply (NP c); [left; reflexivity | exact P] |].
      destruct (IH NP' (obj_set rowData (col_name c) (cell_at raw (col_ordinal c))))
        as (dp & D & G).
      exists dp. split; [exact D |].
      intros k. rewrite G, find_named_snoc.
      destruct (find (named_column k) (rev cols)); [reflexivity |].
      rewrite get_obj_set. unfold named_column.
      destruct (String.eqb_spec (col_name c) ""); [contradiction |]. cbn [negb andb].
      rewrite (String.eqb_sym k). destruct (String.eqb (col_name c) k); reflexivity.
Qed.

Lemma datapoints_hold (cols : list Column) (rows : list (list JsVal)) :
  no_proto_column cols ->
  exists data,
    datapoints cols rows = Ok data
    /\ Forall2 (fun raw dp => forall k, get (JObj dp) k = datapoint_value cols raw k)
               rows data.
Proof.
  intros NP. induction rows as [|raw rows IH].
  - exists []. split; [reflexivity | constructor].
  - destruct IH as (data & D & F).
    destruct (datapoint_holds raw cols NP []) as (dp & Dp & G).
    exists (dp :: data). cbn [datapoints]. rewrite Dp, D. split; [reflexivity |].
    constructor; [| exact F].
    intros k. rewrite G. unfold datapoint_value.
    destruct (find _ _); reflexivity.
Qed.

(** X21.  [getTabularData] answers [undefined] when there is no primary
    result and fails with a [TypeError] on a table read back from a
    notebook (it has no [rows()]).  On a result table of the client it
    gives the columns as the schema and one datapoint per row, in
    order; under each column name that is not empty the datapoint holds
    the cell at that column's ordinal (of the last such column, if the
    name occurs twice), and columns without a name leave no trace. *)
Theorem getTabularData_datapoints (results : KustoResponseDataSet) :
  (primaryResults results = Some [] -> getTabularData results = Ok None)
  /\ (forall primaryTable others,
        primaryResults results = Some (primaryTable :: others) ->
        (forall raw, table_data primaryTable <> KustoRows raw) ->
        getTabularData results = Throw TypeError)
  /\ (forall primaryTable others raw,
        primaryResults results = Some (primaryTable :: others) ->
        table_data primaryTable = KustoRows raw ->
        no_proto_column (columns primaryTable) ->
        exists data,
          getTabularData results = Ok (Some (mkTabularData (columns primaryTable) data))
          /\ Forall2 (fun row dp =>
                        forall k, get (JObj dp) k
                                  = datapoint_value (columns primaryTable) row k)
                     raw data
          /\ List.length data = List.length raw).
Proof.
  unfold getTabularData, hasDataTable.
  split; [intros ->; reflexivity |]. split.
  - intros primaryTable others -> NK. cbn.
    destruct (table_data primaryTable) as [raw| |]; [| reflexivity | reflexivity].
    exfalso. apply (NK raw). reflexivity.
  - intros primaryTable others raw -> -> NP. cbn.
    destruct (datapoints_hold (columns primaryTable) raw NP) as (data & D & F).
    exists data. rewrite D. split; [reflexivity |]. split; [exact F |].
    symmetry. apply (Forall2_length F).
Qed.

Lemma getTabularData_datapoints_witness :
  exists data,
    getTabularData
      (mkResponse
         (Some [mkTable "PrimaryResult"
                  [mkColumn "State" "string" 0; mkColumn "" "long" 1; mkColumn "n" "long" 2]
                  (KustoRows [[JStr "TEXAS"; JNum 7; JNum 3]])])
         [] [])
    = Ok (Some (mkTabularData
                  [mkColumn "State" "string" 0; mkColumn "" "long" 1; mkColumn "n" "long" 2]
                  data))
    /\ List.length data = 1.
Proof.
  destruct (proj2 (proj2 (getTabularData_datapoints
              (mkResponse
                 (Some [mkTable "PrimaryResult"
                          [mkColumn "State" "string" 0; mkColumn "" "long" 1;
                           mkColumn "n" "long" 2]
                          (KustoRows [[JStr "TEXAS"; JNum 7; JNum 3]])])
                 [] [])))
              _ _ _ eq_refl eq_refl) as (data & G & _ & L).
  - intros c [<-|[<-|[<-|[]]]]; discriminate.
  - exists data. split; [exact G | exact L].
Defined.

(** ** Display information *)

Lemma append_cancel_r (a b c : string) : a ++ c = b ++ c -> a = b.
Proof.
  revert b. induction a as [|x a IH]; intros [|y b] E.
  - reflexivity.
  - apply (f_equal String.length) in E. cbn in E. rewrite append_length in E. lia.
  - apply (f_equal String.length) in E. cbn in E. rewrite append_length in E. lia.
  - cbn in E. injection E as -> E. f_equal. apply IH, E.
Qed.

Lemma prefix_of_append (a b : string) : String.prefix a (a ++ b) = true.
Proof.
  induction a as [|x a IH]; cbn; [destruct b; reflexivity |].
  destruct (ascii_dec x x); [exact IH | congruence].
Qed.

(** X22.  The label of a connection starts with "Kusto " and the
    display name, or the id when the display name is empty.  For two
    Azure connections of the same id and display name the labels are
    equal exactly when they name the same database, an empty database
    name counting as none.  The description is the cluster, and empty
    for an Application Insights connection. *)
Theorem getDisplayInfo_tells_databases_apart (id displayName cluster cluster' : string)
    (database database' : option string) :
  (label (getDisplayInfo (AzureAuthenticated id displayName cluster database))
   = label (getDisplayInfo (AzureAuthenticated id displayName cluster' database'))
   <-> effective_database (AzureAuthenticated id displayName cluster database)
       = effective_database (AzureAuthenticated id displayName cluster' database'))
  /\ String.prefix ("Kusto " ++ str_or displayName id)
                   (label (getDisplayInfo
                             (AzureAuthenticated id displayName cluster database)))
     = true
  /\ label (getDisplayInfo (AppInsights id displayName)) = "Kusto " ++ str_or displayName id
  /\ description (getDisplayInfo (AzureAuthenticated id displayName cluster database))
     = cluster
  /\ description (getDisplayInfo (AppInsights id displayName)) = "".
Proof.
  split; [| split; [| repeat split]].
  - cbn [getDisplayInfo label effective_database]. split.
    + intros E. apply (append_inj_l "Kusto ") in E.
      apply append_inj_l, (append_inj_l " ") in E.
      destruct database as [d|], database' as [d'|]; try reflexivity.
      * destruct (String.eqb_spec d ""), (String.eqb_spec d' "");
          try reflexivity; try discriminate E.
        apply (append_inj_l "(") in E. apply append_cancel_r in E. congruence.
      * destruct (String.eqb_spec d ""); [reflexivity | discriminate E].
      * destruct (String.eqb_spec d' ""); [reflexivity | discriminate E].
    + intros E. do 3 f_equal.
      destruct database as [d|], database' as [d'|]; try reflexivity.
      * destruct (String.eqb_spec d ""), (String.eqb_spec d' "");
          try reflexivity; try discriminate E. congruence.
      * destruct (String.eqb_spec d ""); [reflexivity | discriminate E].
      * destruct (String.eqb_spec d' ""); [reflexivity | discriminate E].
  - cbn [getDisplayInfo label]. rewrite <- append_assoc. apply prefix_of_append.
Qed.

(** ** Sunburst: aggregation over path prefixes *)


















